(** * node-pg-migrate: builder context, migration record and runner

    A shallow embedding of the core of the migration toolkit and the
    properties the specification states about it. The embedded code:
    - the [Migration] class, [loadMigrationFiles] ([src/src/migration.ts],
      first part);
    - the [MigrationBuilder] class (same file, second part);
    - [createSchemalize], [escapeValue], [getSchemas],
      [getMigrationTableSchema], [makeComment], [formatLines] (same file,
      third part: the utilities);
    - the runner: [loadMigrations], [lock], [ensureMigrationsTable],
      [getRunMigrations], [getMigrationsToRun], [checkOrder],
      [runMigrations] and the default export
      ([src/src/operations/schemas.ts], second part);
    - the operation builders of schemas (same file, first part), of
      extensions ([src/unnamed/part_002]) and [sql]
      ([src/unnamed/part_000]).

    Conventions of the embedding:
    - a JavaScript string is a [string]; its characters stand for code
      units, those below 256;
    - an array is a [list]; [undefined] in an optional field is [None];
    - a number that [escapeValue] handles is known by the text
      [String(n)] gives for it;
    - a thrown error is the [inl] of a sum, carrying its message and
      its stack;
    - the database, the file system and the module loader are a [World]
      record of oracles; every call the code makes on them is appended to
      a chronological trace of [Event]s. *)

From Stdlib Require Import List String Ascii ZArith Lia Bool Arith PeanoNat.
From Stdlib Require Import Sorted Permutation.
From Stdlib Require Decimal DecimalNat DecimalString.
Import ListNotations.
Set Warnings "-register-all".
Local Open Scope list_scope.
Local Open Scope string_scope.

(* ================================================================= *)
(** ** JavaScript values and array helpers *)

Module Js.

(** The double-quote character and string. *)
Definition dquote_char : ascii := ascii_of_nat 34.
Definition dq : string := String dquote_char EmptyString.
Definition nl : string := String (ascii_of_nat 10) EmptyString.

(** An error object, whatever its class: its [message], and the text
    its [stack] property holds (the class name and the message, then
    the frames). What a collaborator throws comes with a stack of its
    own. *)
Record Error : Type := error_object { message : string; stack : string }.

(** [new Error(message)], an error the code itself creates. The frames
    of its stack are left out: the code reads [err.stack] of what its
    collaborators throw only, never of an error it created. *)
Definition mkError (message : string) : Error :=
  {| message := message; stack := "Error: " ++ message |}.

Definition Result (A : Type) : Type := (Error + A)%type.

(** [Array.prototype.join]. *)
Fixpoint join (sep : string) (l : list string) : string :=
  match l with
  | [] => EmptyString
  | [x] => x
  | x :: rest => x ++ sep ++ join sep rest
  end.

(** A JavaScript number as the runner options use it: an integer or
    [Infinity]. *)
Inductive number : Type :=
| Int (z : Z)
| Infinity.

(** [Math.abs]. *)
Definition Math_abs (n : number) : number :=
  match n with
  | Int z => Int (Z.abs z)
  | Infinity => Infinity
  end.

(** [a <= b] and [a >= b] for an integer [a] and a number [b]. *)
Definition le_num (a : Z) (b : number) : bool :=
  match b with
  | Int z => (a <=? z)%Z
  | Infinity => true
  end.

Definition ge_num (a : Z) (b : number) : bool :=
  match b with
  | Int z => (a >=? z)%Z
  | Infinity => false
  end.

(** [arr.slice(start)] for an integer [start]: a negative [start]
    counts from the end, and [-0] is [0]. *)
Definition slice_from {A : Type} (start : Z) (l : list A) : list A :=
  let len := Z.of_nat (List.length l) in
  let k := if (start <? 0)%Z then Z.max (len + start) 0 else Z.min start len in
  skipn (Z.to_nat k) l.

(** [arr.slice(-n)] where [n = Math.abs(..)] is non-negative. *)
Definition slice_neg {A : Type} (n : number) (l : list A) : list A :=
  match n with
  | Int z => slice_from (- z) l
  | Infinity => l
  end.

(** [arr.slice(0, n)] where [n = Math.abs(..)] is non-negative. *)
Definition slice_to {A : Type} (n : number) (l : list A) : list A :=
  match n with
  | Int z => firstn (Z.to_nat (Z.min z (Z.of_nat (List.length l)))) l
  | Infinity => l
  end.

(** [arr.find(p)]. *)
Definition find {A : Type} (p : A -> bool) (l : list A) : option A :=
  List.find p l.

(** [arr.indexOf(x) < 0] for an array of strings. *)
Definition not_in (x : string) (l : list string) : bool :=
  negb (existsb (String.eqb x) l).

(** Truthiness of an optional string: [undefined] and the empty string
    are falsy. *)
Definition truthy_str (o : option string) : bool :=
  match o with
  | None => false
  | Some s => negb (String.eqb s EmptyString)
  end.

End Js.
Import Js.

(* ================================================================= *)
(** ** The utilities ([utils]) *)

Module Utils.

(** [Name = string | { schema?: string, name: string }]. *)
Inductive Name : Type :=
| NameStr (s : string)
| NameObj (schema : option string) (name : string).

(** Truthiness of a [Name]: an object is truthy, the empty string is
    not. *)
Definition truthy_name (v : Name) : bool :=
  match v with
  | NameStr s => negb (String.eqb s EmptyString)
  | NameObj _ _ => true
  end.

Definition quote (str : string) : string := dq ++ str ++ dq.

Section Schemalize.
(** The [decamelize] package is an external dependency. *)
Variable decamelize : string -> string.

(** The [reduce] over [[decamelize-or-identity, quote-or-identity]]
    composes as [acc (fn x)]: quoting is applied first. *)
Definition transform (shouldDecamelize shouldQuote : bool) (x : string) : string :=
  let acc := if shouldDecamelize then decamelize else (fun v => v) in
  if shouldQuote then acc (quote x) else acc x.

Definition createSchemalize (shouldDecamelize shouldQuote : bool) (v : Name) : string :=
  match v with
  | NameObj schema name =>
      (if truthy_str schema
       then transform shouldDecamelize shouldQuote
              (match schema with Some s => s | None => EmptyString end) ++ "."
       else EmptyString)
      ++ transform shouldDecamelize shouldQuote name
  | NameStr s => transform shouldDecamelize shouldQuote s
  end.
End Schemalize.

(** [schema?: string | string[]]. *)
Inductive SchemaOption : Type :=
| SchemaUndefined
| SchemaOne (s : string)
| SchemaMany (l : list string).

Definition getSchemas (schema : SchemaOption) : list string :=
  let candidates :=
    match schema with
    | SchemaUndefined => []
    | SchemaOne s => [s]
    | SchemaMany l => l
    end in
  let schemas := filter (fun s => negb (String.eqb s EmptyString)) candidates in
  match schemas with
  | [] => ["public"]
  | _ => schemas
  end.

(** The numeral of a positive loop counter, as a template literal
    prints it. *)
Definition string_of_nat (n : nat) : string :=
  DecimalString.NilZero.string_of_uint (Nat.to_uint n).

(** [hay.indexOf(needle)]: the first position at which [needle]
    occurs, or [-1]. *)
Fixpoint indexOf (hay needle : string) : Z :=
  if prefix needle hay then 0%Z
  else match hay with
       | EmptyString => (-1)%Z
       | String _ rest =>
           let r := indexOf rest needle in
           if (r <? 0)%Z then (-1)%Z else (r + 1)%Z
       end.

(** [`$pg${index}$`]. *)
Definition dollars_of (index : nat) : string :=
  "$pg" ++ string_of_nat index ++ "$".

(** The [do .. while] loop of [escapeValue]: [index] is the counter
    before the increment, [fuel] bounds the number of iterations. *)
Fixpoint escape_loop (fuel : nat) (val : string) (index : nat) : option string :=
  match fuel with
  | O => None
  | S fuel' =>
      let index' := S index in
      let dollars := dollars_of index' in
      if (indexOf val dollars >=? 0)%Z then escape_loop fuel' val index'
      else Some dollars
  end.

(** *** Notions used to reason about the loop *)

(** The rest of [s] from position [p] on. *)
Fixpoint drop (p : nat) (s : string) : string :=
  match p, s with
  | O, _ => s
  | S p', String _ rest => drop p' rest
  | S _, EmptyString => EmptyString
  end.

(** No character of [s] is a dollar sign. *)
Fixpoint no_dollar (s : string) : Prop :=
  match s with
  | EmptyString => True
  | String c rest => c <> "$"%char /\ no_dollar rest
  end.

(** Where the tag of [n] first occurs in [val]. *)
Definition position (val : string) (n : nat) : nat :=
  Z.to_nat (indexOf val (dollars_of n)).

(** A JavaScript number. [escapeValue] hands a number back as it is
    and [join] prints it, so a number is known here by the text that
    [String(n)] gives for it: [42], [-0.5], [1e+21], [NaN],
    [Infinity]. *)
Definition JsNumber : Type := string.

(** [Value]: the values [escapeValue] distinguishes; [VOther] is any
    object that is neither an array nor a [PgLiteral]. *)
Inductive Value : Type :=
| VNull
| VBool (b : bool)
| VString (s : string)
| VNumber (n : JsNumber)
| VArray (l : list Value)
| VLiteral (value : string)
| VOther.

(** The result of [escapeValue]: [string | number]. *)
Inductive Escaped : Type :=
| EscString (s : string)
| EscNumber (n : JsNumber).

(** How [join] prints an element: a string as it is, a number by
    [String(n)]. *)
Definition escaped_to_string (e : Escaped) : string :=
  match e with
  | EscString s => s
  | EscNumber n => n
  end.

(** [s.replace(/ARRAY/g, '')]: every leftmost, non-overlapping
    occurrence is dropped in one pass; [skip] counts the characters of
    the current occurrence still to drop. *)
Fixpoint remove_all_from (needle : string) (skip : nat) (s : string) : string :=
  match s with
  | EmptyString => EmptyString
  | String c rest =>
      match skip with
      | S k => remove_all_from needle k rest
      | O =>
          if prefix needle s
          then remove_all_from needle (Nat.pred (String.length needle)) rest
          else String c (remove_all_from needle O rest)
      end
  end.

Definition remove_ARRAY (s : string) : string := remove_all_from "ARRAY" O s.

(** [val.map(escapeValue)], failing when an element's loop runs out of
    fuel. *)
Fixpoint sequence_opt {A : Type} (l : list (option A)) : option (list A) :=
  match l with
  | [] => Some []
  | None :: _ => None
  | Some a :: rest =>
      match sequence_opt rest with
      | Some r => Some (a :: r)
      | None => None
      end
  end.

(** [escapeValue]. The loop of the string case gets one iteration per
    character of [val] plus one; [escape_loop_returns] shows that this
    is always enough. *)
Fixpoint escapeValue (val : Value) : option Escaped :=
  match val with
  | VNull => Some (EscString "NULL")
  | VBool b => Some (EscString (if b then "true" else "false"))
  | VString s =>
      match escape_loop (S (String.length s)) s 0 with
      | Some dollars => Some (EscString (dollars ++ s ++ dollars))
      | None => None
      end
  | VNumber n => Some (EscNumber n)
  | VArray l =>
      match sequence_opt (map escapeValue l) with
      | Some parts =>
          let arrayStr := remove_ARRAY (join "," (map escaped_to_string parts)) in
          Some (EscString ("ARRAY[" ++ arrayStr ++ "]"))
      | None => None
      end
  | VLiteral value => Some (EscString value)
  | VOther => Some (EscString EmptyString)
  end.

End Utils.

(* ================================================================= *)
(** ** Operation builders *)

Module Operations.
Import Utils.

(** [string | string[]], the result of an operation. *)
Inductive SqlOut : Type :=
| One (s : string)
| Many (l : list string).

(** [MigrationOptions]: the two name formatters handed to every
    operation builder. *)
Record MigrationOptions : Type := {
  schemalize : Name -> string;
  literal : Name -> string
}.

(** An operation: a function with a [name] and, possibly, a [reverse]
    property taking the same arguments. *)
Record Operation : Type := {
  op_name : string;
  op_args : Type;
  op_call : op_args -> SqlOut;
  op_reverse : option (op_args -> SqlOut)
}.

(** The options object of the DDL operations below; a key that is
    absent reads as [false] or [None]. *)
Record DdlOptions : Type := {
  ifExists : bool;
  ifNotExists : bool;
  cascade : bool;
  authorization : option string;
  schema : option Name
}.

(** The default [{}]. *)
Definition no_options : DdlOptions :=
  {| ifExists := false; ifNotExists := false; cascade := false;
     authorization := None; schema := None |}.

Section WithOptions.
Variable mOptions : MigrationOptions.

(** *** Schemas *)

Definition dropSchema_fn (args : Name * DdlOptions) : SqlOut :=
  let '(schemaName, o) := args in
  let ifExistsStr := if ifExists o then " IF EXISTS" else EmptyString in
  let cascadeStr := if cascade o then " CASCADE" else EmptyString in
  let schemaNameStr := literal mOptions schemaName in
  One ("DROP SCHEMA" ++ ifExistsStr ++ " " ++ schemaNameStr ++ cascadeStr ++ ";").

Definition dropSchema : Operation :=
  {| op_name := "_drop"; op_args := Name * DdlOptions;
     op_call := dropSchema_fn; op_reverse := None |}.

Definition createSchema_fn (args : Name * DdlOptions) : SqlOut :=
  let '(schemaName, o) := args in
  let ifNotExistsStr := if ifNotExists o then " IF NOT EXISTS" else EmptyString in
  let schemaNameStr := literal mOptions schemaName in
  let authorizationStr :=
    if truthy_str (authorization o)
    then " AUTHORIZATION " ++ match authorization o with Some a => a | None => EmptyString end
    else EmptyString in
  One ("CREATE SCHEMA" ++ ifNotExistsStr ++ " " ++ schemaNameStr ++ authorizationStr ++ ";").

Definition createSchema : Operation :=
  {| op_name := "_create"; op_args := Name * DdlOptions;
     op_call := createSchema_fn; op_reverse := Some dropSchema_fn |}.

Definition renameSchema_fn (args : Name * Name) : SqlOut :=
  let '(schemaName, newSchemaName) := args in
  let schemaNameStr := literal mOptions schemaName in
  let newSchemaNameStr := literal mOptions newSchemaName in
  One ("ALTER SCHEMA " ++ schemaNameStr ++ " RENAME TO " ++ newSchemaNameStr ++ ";").

Definition renameSchema : Operation :=
  {| op_name := "_rename"; op_args := Name * Name;
     op_call := renameSchema_fn;
     op_reverse := Some (fun args => renameSchema_fn (snd args, fst args)) |}.

(** *** Extensions: one statement per extension *)

Definition dropExtension_fn (args : list Name * DdlOptions) : SqlOut :=
  let '(extensions, o) := args in
  let ifExistsStr := if ifExists o then " IF EXISTS" else EmptyString in
  let cascadeStr := if cascade o then " CASCADE" else EmptyString in
  Many (map (fun extension =>
               let extensionStr := literal mOptions extension in
               "DROP EXTENSION" ++ ifExistsStr ++ " " ++ extensionStr ++ cascadeStr ++ ";")
            extensions).

Definition dropExtension : Operation :=
  {| op_name := "_drop"; op_args := list Name * DdlOptions;
     op_call := dropExtension_fn; op_reverse := None |}.

Definition createExtension_fn (args : list Name * DdlOptions) : SqlOut :=
  let '(extensions, o) := args in
  let ifNotExistsStr := if ifNotExists o then " IF NOT EXISTS" else EmptyString in
  let schemaStr :=
    match schema o with
    | Some sch =>
        if truthy_name sch then " SCHEMA " ++ literal mOptions sch else EmptyString
    | None => EmptyString
    end in
  Many (map (fun extension =>
               let extensionStr := literal mOptions extension in
               "CREATE EXTENSION" ++ ifNotExistsStr ++ " " ++ extensionStr ++ schemaStr ++ ";")
            extensions).

Definition createExtension : Operation :=
  {| op_name := "_create"; op_args := list Name * DdlOptions;
     op_call := createExtension_fn; op_reverse := Some dropExtension_fn |}.

(** *** [pgm.sql(text)], called without template arguments, so that
    the transformer leaves [text] as it is *)

(** [s.lastIndexOf(';') !== s.length - 1]: the last character is not
    a semicolon; for the empty string both sides are [-1]. *)
Fixpoint ends_with_semicolon_or_empty (s : string) : bool :=
  match s with
  | EmptyString => true
  | String c EmptyString => Ascii.eqb c ";"%char
  | String _ rest => ends_with_semicolon_or_empty rest
  end.

Definition sql_fn (text : string) : SqlOut :=
  One (if ends_with_semicolon_or_empty text then text else text ++ ";").

Definition sql : Operation :=
  {| op_name := EmptyString; op_args := string;
     op_call := sql_fn; op_reverse := None |}.

End WithOptions.

End Operations.

(* ================================================================= *)
(** ** The builder context ([MigrationBuilder]) *)

Module MigrationBuilder.
Import Utils Operations.

(** The private fields of a builder context. *)
Record t : Type := {
  _steps : list string;
  _REVERSE_MODE : bool;
  _use_transaction : bool
}.

(** The constructor: no step, forward mode, and by default every
    migration is wrapped in a transaction. *)
Definition new : t :=
  {| _steps := []; _REVERSE_MODE := false; _use_transaction := true |}.

(** [MigrationOptions] as the constructor builds them. *)
Definition options (decamelize : string -> string) (shouldDecamelize : bool)
  : MigrationOptions :=
  {| schemalize := createSchemalize decamelize shouldDecamelize false;
     literal := createSchemalize decamelize shouldDecamelize true |}.

(** [steps.concat(r)]: an array argument is spread, a string is
    appended as one element. *)
Definition concat (steps : list string) (r : SqlOut) : list string :=
  match r with
  | One s => (steps ++ [s])%list
  | Many l => (steps ++ l)%list
  end.

Definition set_steps (pgm : t) (steps : list string) : t :=
  {| _steps := steps;
     _REVERSE_MODE := _REVERSE_MODE pgm;
     _use_transaction := _use_transaction pgm |}.

(** [wrap(operation)(...args)]: calls the operation or its reverse and
    appends the result to the steps. The outcome is the context as the
    call leaves it, and the error when it throws. *)
Definition wrap (operation : Operation) (args : op_args operation) (pgm : t)
  : t * Result unit :=
  match _REVERSE_MODE pgm, op_reverse operation with
  | true, None =>
      let name := "pgm." ++ op_name operation ++ "()" in
      (pgm, inl (mkError ("Impossible to automatically infer down migration for "
                            ++ dq ++ name ++ dq)))
  | true, Some reverse =>
      (set_steps pgm (concat (_steps pgm) (reverse args)), inr tt)
  | false, _ =>
      (set_steps pgm (concat (_steps pgm) (op_call operation args)), inr tt)
  end.

(** [wrapDB]: the side channel to the database is closed in reverse
    mode. *)
Definition wrapDB (pgm : t) : Result unit :=
  if _REVERSE_MODE pgm
  then inl (mkError "Impossible to automatically infer down migration")
  else inr tt.

Definition enableReverseMode (pgm : t) : t :=
  {| _steps := _steps pgm; _REVERSE_MODE := true;
     _use_transaction := _use_transaction pgm |}.

Definition noTransaction (pgm : t) : t :=
  {| _steps := _steps pgm; _REVERSE_MODE := _REVERSE_MODE pgm;
     _use_transaction := false |}.

Definition isUsingTransaction (pgm : t) : bool := _use_transaction pgm.

(** A write through the array that [getSqlSteps()] returned, at once:
    in forward mode that array is the builder's own steps array, in
    reverse mode it is a copy and the builder does not see the write. *)
Definition write_steps (write : list string -> list string) (pgm : t) : t :=
  if _REVERSE_MODE pgm then pgm else set_steps pgm (write (_steps pgm)).

(** In reverse mode, a reversed copy of the steps; otherwise the steps
    array itself. *)
Definition getSqlSteps (pgm : t) : list string :=
  if _REVERSE_MODE pgm then List.rev (_steps pgm) else _steps pgm.

Definition getSql (pgm : t) : string :=
  join nl (getSqlSteps pgm) ++ nl.

(** One call of a wrapped operation, as a migration body makes it. *)
Record OpCall : Type := mkCall {
  call_op : Operation;
  call_args : op_args call_op
}.

Definition do_call (c : OpCall) (pgm : t) : t * Result unit :=
  wrap (call_op c) (call_args c) pgm.

(** What the call's [reverse] returns, when the operation has one. *)
Definition reverse_result (c : OpCall) : option SqlOut :=
  match op_reverse (call_op c) with
  | Some reverse => Some (reverse (call_args c))
  | None => None
  end.

Definition forward_result (c : OpCall) : SqlOut :=
  op_call (call_op c) (call_args c).

Definition has_reverse (c : OpCall) : bool :=
  match op_reverse (call_op c) with
  | Some _ => true
  | None => false
  end.

(** The statements of a result, in order. *)
Definition statements (r : SqlOut) : list string :=
  match r with
  | One s => [s]
  | Many l => l
  end.

(** The statements of the call's reverse result. *)
Definition reverse_statements (c : OpCall) : list string :=
  match reverse_result c with
  | Some r => statements r
  | None => []
  end.

End MigrationBuilder.

(* ================================================================= *)
(** ** Directions, migration bodies, runner options *)

Module Types.
Import Utils Operations.

Inductive MigrationDirection : Type := Up | Down.

Definition direction_name (d : MigrationDirection) : string :=
  match d with Up => "up" | Down => "down" end.

(** What the body of a migration does with the builder context it
    receives, call by call: every public member of the context that
    changes it or reaches the database. *)
Inductive Cmd : Type :=
| Call (c : MigrationBuilder.OpCall)   (** [pgm.<operation>(...args)] *)
| CallNoTransaction                    (** [pgm.noTransaction()] *)
| CallDbQuery (text : string)          (** [await pgm.db.query(text)] *)
| CallDbSelect (text : string)         (** [await pgm.db.select(text)] *)
| CallSqlOfFile (filePath : string)    (** [pgm.sql(await readFile(filePath, 'utf8'))] *)
| Throw (e : Error)                    (** [throw e] *)
| CallEnableReverseMode                (** [pgm.enableReverseMode()] *)
| CallWriteSteps (write : list string -> list string).
    (** a write through the array [pgm.getSqlSteps()] returns, such as
        [pgm.getSqlSteps().push(text)] *)

(** A migration action is a function object: [fn_ref] is its identity
    (what [===] compares), [fn_length] its declared arity, and
    [fn_body] the calls it makes on the context built from the given
    options. A two-argument action is taken to call its completion
    callback once its body is done. *)
Record MigrationAction : Type := {
  fn_ref : nat;
  fn_length : nat;
  fn_body : MigrationOptions -> list Cmd
}.

(** [up?: false | MigrationAction]. *)
Inductive ActionField : Type :=
| Undefined
| Disabled                    (** [false] *)
| Fn (action : MigrationAction).

(** [a === b] on two such fields. *)
Definition strict_eq (a b : ActionField) : bool :=
  match a, b with
  | Undefined, Undefined => true
  | Disabled, Disabled => true
  | Fn f, Fn g => Nat.eqb (fn_ref f) (fn_ref g)
  | _, _ => false
  end.

(** What a migration file exports ([shorthands] left out: no operation
    modelled here reads them). *)
Record MigrationBuilderActions : Type := {
  exports_up : ActionField;
  exports_down : ActionField
}.

End Types.

Module RunnerOption.
Import Utils Types.

Record t : Type := {
  dir : string;
  ignorePattern : option string;
  direction : MigrationDirection;
  count : option number;
  file : option string;
  timestamp : bool;
  checkOrder : bool;
  noLock : bool;
  singleTransaction : bool;
  dryRun : bool;
  fake : bool;
  schema : SchemaOption;
  createSchema : bool;
  createMigrationsSchema : bool;
  migrationsSchema : option string;
  migrationsTable : string;
  decamelize : bool
}.

End RunnerOption.

(* ================================================================= *)
(** ** The outside world: executor, file system, module loader *)

Module World.
Import Types.

(** A result row; only the number of rows is ever inspected. *)
Definition Row : Type := list (string * string).

(** The calls the code makes on its collaborators, and the lines it
    logs. *)
Inductive Event : Type :=
| EvConnect                              (** [db.createConnection()] *)
| EvQuery (text : string)                (** [db.query(text)] *)
| EvSelect (text : string)               (** [db.select(text)] *)
| EvColumn (column : string) (text : string)  (** [db.column(column, text)] *)
| EvClose                                (** [db.close()] *)
| EvReaddir (path : string)              (** [readdir(path)] *)
| EvLog (line : string).                 (** [log(line)] *)

Definition Trace : Type := list Event.

(** The statements a trace sent through [db.query], in order. *)
Definition queries (tr : Trace) : list string :=
  flat_map (fun ev => match ev with EvQuery text => [text] | _ => [] end) tr.

(** The answers of the collaborators. The executor's answers may
    depend on everything that happened before. *)
Record t : Type := {
  connect : Trace -> option Error;
  query : Trace -> string -> option Error;
  select : Trace -> string -> Result (list Row);
  column : Trace -> string -> string -> Result (list string);
  readdir : string -> Result (list string);
  isFile : string -> Result bool;          (** [(await lstat(p)).isFile()] *)
  readFile : string -> Result string;
  require : string -> Result MigrationBuilderActions;
  (** [new RegExp(source)]: a [SyntaxError] or the [test] function. *)
  regexp : string -> Result (string -> bool);
  decamelize : string -> string;
  path_extname : string -> string;
  (** [path.basename(p, ext)]. *)
  path_basename : string -> string -> string;
  (** [Number(s)], [None] standing for [NaN]. *)
  Number : string -> option Z;
  (** Which of the two promises of the runner's [Promise.all] settles
      first when both reject. *)
  load_settles_first : bool
}.

End World.

(* ================================================================= *)
(** ** A trace-and-error monad for the asynchronous code *)

Module Async.
Import World.

Definition M (A : Type) : Type := Trace -> Trace * Result A.

Definition ret {A : Type} (a : A) : M A := fun tr => (tr, inr a).

Definition throw {A : Type} (e : Error) : M A := fun tr => (tr, inl e).

Definition bind {A B : Type} (m : M A) (k : A -> M B) : M B :=
  fun tr =>
    match m tr with
    | (tr', inr a) => k a tr'
    | (tr', inl e) => (tr', inl e)
    end.

Definition lift {A : Type} (r : Result A) : M A := fun tr => (tr, r).

Definition emit (ev : Event) : M unit := fun tr => ((tr ++ [ev])%list, inr tt).

(** [try { m } catch (err) { h err }]. *)
Definition try_catch {A : Type} (m : M A) (h : Error -> M A) : M A :=
  fun tr =>
    match m tr with
    | (tr', inr a) => (tr', inr a)
    | (tr', inl e) => h e tr'
    end.

(** [try { m } finally { f }], for an [f] that does not throw. *)
Definition finally {A : Type} (m : M A) (f : M unit) : M A :=
  fun tr =>
    match m tr with
    | (tr', r) => (fst (f tr'), r)
    end.

(** [Promise.all([a, b])]: both computations are started, [a] first;
    the first rejection wins. *)
Definition all2 {A B : Type} (a_first : bool) (a : M A) (b : M B) : M (A * B) :=
  fun tr =>
    match a tr with
    | (tr1, ra) =>
        match b tr1 with
        | (tr2, rb) =>
            (tr2,
             match ra, rb with
             | inr x, inr y => inr (x, y)
             | inl e, inr _ => inl e
             | inr _, inl e => inl e
             | inl e1, inl e2 => inl (if a_first then e1 else e2)
             end)
        end
    end.

(** [Promise.all(l.map(f))] on one connection: every call is issued,
    in order; the first rejection, if any, is the outcome. *)
Fixpoint all {A : Type} (l : list (M A)) : M (list A) :=
  match l with
  | [] => ret []
  | m :: rest =>
      fun tr =>
        match m tr with
        | (tr1, r) =>
            match all rest tr1 with
            | (tr2, rs) =>
                (tr2,
                 match r, rs with
                 | inr x, inr xs => inr (x :: xs)
                 | inl e, _ => inl e
                 | inr _, inl e => inl e
                 end)
            end
        end
  end.

(** A computation only ever appends to the trace. *)
Definition appends {A : Type} (m : M A) : Prop :=
  forall tr, exists suffix, fst (m tr) = (tr ++ suffix)%list.

(** A computation appends exactly [evs], whatever the trace and the
    outcome, and its outcome does not depend on the trace. *)
Definition emits {A : Type} (evs : list Event) (m : M A) : Prop :=
  forall tr, m tr = ((tr ++ evs)%list, snd (m [])).

Declare Scope async_scope.
Delimit Scope async_scope with async.
Notation "x <- m ;; k" := (bind m (fun x => k))
  (at level 100, m at next level, right associativity) : async_scope.
Notation "m ;; k" := (bind m (fun _ => k))
  (at level 100, right associativity) : async_scope.

Section Calls.
Variable w : World.t.

Definition log (line : string) : M unit := emit (EvLog line).

Definition createConnection : M unit :=
  fun tr =>
    ((tr ++ [EvConnect])%list,
     match connect w tr with Some e => inl e | None => inr tt end).

Definition db_query (text : string) : M unit :=
  fun tr =>
    ((tr ++ [EvQuery text])%list,
     match query w tr text with Some e => inl e | None => inr tt end).

Definition db_select (text : string) : M (list Row) :=
  fun tr => ((tr ++ [EvSelect text])%list, select w tr text).

Definition db_column (col text : string) : M (list string) :=
  fun tr => ((tr ++ [EvColumn col text])%list, column w tr col text).

Definition db_close : M unit := emit EvClose.

Definition fs_readdir (path : string) : M (list string) :=
  fun tr => ((tr ++ [EvReaddir path])%list, readdir w path).
End Calls.

End Async.

(* ================================================================= *)
(** ** The migration record ([Migration]) *)

Module Migration.
Import Utils Operations Types World Async.
Local Open Scope async_scope.

Definition SEPARATOR : ascii := "_"%char.

(** [name.split(SEPARATOR)[0]]. *)
Fixpoint split_head (s : string) : string :=
  match s with
  | EmptyString => EmptyString
  | String c rest =>
      if Ascii.eqb c SEPARATOR then EmptyString else String c (split_head rest)
  end.

(** A migration record ([db], [options] and [log] are passed along
    instead of being stored). *)
Record t : Type := {
  path : string;
  name : string;
  timestamp : Z;
  up : ActionField;
  down : ActionField
}.

(** [this.down = v]. *)
Definition set_down (m : t) (v : ActionField) : t :=
  {| path := path m; name := name m; timestamp := timestamp m;
     up := up m; down := v |}.

(** [this[direction]]. *)
Definition get (m : t) (direction : MigrationDirection) : ActionField :=
  match direction with Up => up m | Down => down m end.

(** [string.sort()]: insertion into a list ordered by code units. *)
Fixpoint insert_sorted (x : string) (l : list string) : list string :=
  match l with
  | [] => [x]
  | y :: rest => if String.leb x y then x :: l else y :: insert_sorted x rest
  end.

Definition sort (l : list string) : list string :=
  fold_right insert_sorted [] l.

(** [RunMigration]. *)
Record RunMigration : Type := {
  run_path : string;
  run_name : string;
  run_timestamp : Z
}.

Section WithWorld.
Variable w : World.t.

(** [loadMigrationFiles(dir, ignorePattern)]. *)
Definition loadMigrationFiles (dir : string) (ignorePattern : option string)
  : M (list string) :=
  dirContent <- fs_readdir w (dir ++ "/") ;;
  stats <- all (map (fun file =>
                       isfile <- lift (isFile w (dir ++ "/" ++ file)) ;;
                       ret (if isfile then Some file else None))
                    dirContent) ;;
  let files :=
    sort (flat_map (fun f => match f with
                             | Some file =>
                                 if String.eqb file EmptyString then [] else [file]
                             | None => []
                             end) stats) in
  filter_re <- lift (regexp w ("^(" ++ match ignorePattern with
                                       | Some p => p
                                       | None => "undefined"
                                       end ++ ")$")) ;;
  ret (match ignorePattern with
       | None => files
       | Some _ => filter (fun i => negb (filter_re i)) files
       end).

(** The constructor. *)
Definition new (migrationPath : string) (actions : MigrationBuilderActions) : t :=
  let nm := path_basename w migrationPath (path_extname w migrationPath) in
  {| path := migrationPath;
     name := nm;
     timestamp := match Number w (split_head nm) with
                  | Some z => z
                  | None => 0%Z
                  end;
     up := exports_up actions;
     down := exports_down actions |}.

Section WithOptions.
Variable options : RunnerOption.t.

Definition getMigrationTableSchema : string :=
  match RunnerOption.migrationsSchema options with
  | Some s => s
  | None => hd EmptyString (getSchemas (RunnerOption.schema options))
  end.

Definition delete_statement (m : t) : string :=
  "DELETE FROM " ++ dq ++ getMigrationTableSchema ++ dq ++ "." ++ dq
    ++ RunnerOption.migrationsTable options ++ dq
    ++ " WHERE name='" ++ name m ++ "';".

Definition insert_statement (m : t) : string :=
  "INSERT INTO " ++ dq ++ getMigrationTableSchema ++ dq ++ "." ++ dq
    ++ RunnerOption.migrationsTable options ++ dq
    ++ " (name, run_on) VALUES ('" ++ name m ++ "', NOW());".

(** [_getMarkAsRun(action)]: the [switch] tries [this.down] before
    [this.up]. *)
Definition _getMarkAsRun (m : t) (action : MigrationAction) : M string :=
  if strict_eq (Fn action) (down m) then
    log ("### MIGRATION " ++ name m ++ " (DOWN) ###") ;;
    ret (delete_statement m)
  else if strict_eq (Fn action) (up m) then
    log ("### MIGRATION " ++ name m ++ " (UP) ###") ;;
    ret (insert_statement m)
  else throw (mkError "Unknown direction").

(** The options of the builder context of this run. *)
Definition builder_options : MigrationOptions :=
  MigrationBuilder.options (decamelize w) (RunnerOption.decamelize options).

(** One call of the body on the context. *)
Definition exec_cmd (c : Cmd) (pgm : MigrationBuilder.t) : M MigrationBuilder.t :=
  match c with
  | Call oc =>
      let '(pgm', r) := MigrationBuilder.do_call oc pgm in
      lift r ;; ret pgm'
  | CallNoTransaction => ret (MigrationBuilder.noTransaction pgm)
  | CallDbQuery text =>
      lift (MigrationBuilder.wrapDB pgm) ;; db_query w text ;; ret pgm
  | CallDbSelect text =>
      lift (MigrationBuilder.wrapDB pgm) ;; _ <- db_select w text ;; ret pgm
  | CallSqlOfFile filePath =>
      text <- lift (readFile w filePath) ;;
      let '(pgm', r) := MigrationBuilder.wrap sql text pgm in
      lift r ;; ret pgm'
  | Throw e => throw e
  | CallEnableReverseMode => ret (MigrationBuilder.enableReverseMode pgm)
  | CallWriteSteps write => ret (MigrationBuilder.write_steps write pgm)
  end.

(** The body of an action, run call by call on the context; the first
    call that throws ends it. *)
Fixpoint run_body (body : list Cmd) (pgm : MigrationBuilder.t)
  : M MigrationBuilder.t :=
  match body with
  | [] => ret pgm
  | c :: rest => pgm' <- exec_cmd c pgm ;; run_body rest pgm'
  end.

(** The transaction reconciliation of [_apply]: the statements to
    run and the warnings to log. *)
Definition reconcile (pgm : MigrationBuilder.t) (sqlSteps : list string)
  : list string * list string :=
  let single := RunnerOption.singleTransaction options in
  let usingTx := MigrationBuilder.isUsingTransaction pgm in
  if negb single && usingTx then
    ([], ("BEGIN;" :: sqlSteps ++ ["COMMIT;"])%list)
  else if single && negb usingTx then
    (["#> WARNING: Need to break single transaction! <"],
     ("COMMIT;" :: sqlSteps ++ ["BEGIN;"])%list)
  else if negb single || negb usingTx then
    (["#> WARNING: This migration is not wrapped in a transaction! <"], sqlSteps)
  else ([], sqlSteps).

(** The [reduce] over the statements: each is sent once the one
    before has succeeded; nothing is sent in a dry run. *)
Fixpoint run_steps (sqlSteps : list string) : M unit :=
  match sqlSteps with
  | [] => ret tt
  | text :: rest =>
      (if RunnerOption.dryRun options then ret tt else db_query w text) ;;
      run_steps rest
  end.

Fixpoint log_all (lines : list string) : M unit :=
  match lines with
  | [] => ret tt
  | l :: rest => log l ;; log_all rest
  end.

(** The second half of [_apply]: reconcile the transactions, log
    the warnings and the statements, run the statements. *)
Definition run_reconciled (pgm : MigrationBuilder.t) (sqlSteps : list string)
  : M unit :=
  let '(warnings, sqlSteps) := reconcile pgm sqlSteps in
  log_all warnings ;;
  log (join nl sqlSteps ++ nl ++ nl) ;;
  run_steps sqlSteps.

(** [_apply(action, pgm)]. Both calling conventions of an action, the
    callback of a two-argument one and the promise of the others, come
    down to running its body to the end. In forward mode [sqlSteps] is
    the builder's own array, which [push] and [unshift] then change;
    the builder is not read again afterwards. *)
Definition _apply (m : t) (action : MigrationAction) (pgm : MigrationBuilder.t)
  : M unit :=
  pgm' <- run_body (fn_body action builder_options) pgm ;;
  let sqlSteps := MigrationBuilder.getSqlSteps pgm' in
  mark <- _getMarkAsRun m action ;;
  run_reconciled pgm' (sqlSteps ++ [mark])%list.

(** [_getAction(direction)]: returns the record as the call leaves
    it, and the action or the error. *)
Definition _getAction (m : t) (direction : MigrationDirection)
  : t * Result MigrationAction :=
  let m' :=
    match direction, down m with
    | Down, Undefined => set_down m (up m)
    | _, _ => m
    end in
  (m',
   match get m' direction with
   | Disabled =>
       inl (mkError ("User has disabled " ++ direction_name direction
                       ++ " migration on file: " ++ name m'))
   | Undefined =>
       inl (mkError ("Unknown value for direction: " ++ direction_name direction
                       ++ ". Is the migration " ++ name m'
                       ++ " exporting a '" ++ direction_name direction
                       ++ "' function?"))
   | Fn action => inr action
   end).

(** The builder context [apply] hands to [_apply]: reverse mode is
    switched on when [this.down === this.up]. *)
Definition apply_builder (m' : t) (pgm : MigrationBuilder.t) : MigrationBuilder.t :=
  if strict_eq (down m') (up m')
  then MigrationBuilder.enableReverseMode pgm
  else pgm.

(** [apply(direction)]; the result is the record after the call. *)
Definition apply (m : t) (direction : MigrationDirection) : M t :=
  let pgm := MigrationBuilder.new in
  let '(m', r) := _getAction m direction in
  action <- lift r ;;
  _apply m' action (apply_builder m' pgm) ;;
  ret m'.

(** [markAsRun(direction)]. *)
Definition markAsRun (m : t) (direction : MigrationDirection) : M t :=
  let '(m', r) := _getAction m direction in
  action <- lift r ;;
  mark <- _getMarkAsRun m' action ;;
  db_query w mark ;;
  ret m'.

End WithOptions.
End WithWorld.

End Migration.

(* ================================================================= *)
(** ** The runner *)

Module Runner.
Import Utils Operations Types World Async.
Local Open Scope async_scope.

(** Random but well-known identifier shared by all instances. *)
Definition PG_MIGRATE_LOCK_ID : string := "7241865325823964".

Definition idColumn : string := "id".
Definition nameColumn : string := "name".
Definition runOnColumn : string := "run_on".

Definition lock_query : string :=
  "select pg_try_advisory_lock(" ++ PG_MIGRATE_LOCK_ID ++ ") as "
    ++ dq ++ "lockObtained" ++ dq.

(** An entry of [downMigrations]: the record of a recorded name, or
    the bare name when no loaded file carries it. *)
Inductive DownEntry : Type :=
| Found (m : Migration.t)
| Deleted (migrationName : string).

Definition deleted_names (l : list DownEntry) : list string :=
  flat_map (fun d => match d with Deleted n => [n] | Found _ => [] end) l.

Definition found_migrations (l : list DownEntry) : list Migration.t :=
  flat_map (fun d => match d with Found m => [m] | Deleted _ => [] end) l.

(** [!options.file || options.file === migrationName]. *)
Definition file_matches (options : RunnerOption.t) (migrationName : string) : bool :=
  negb (truthy_str (RunnerOption.file options))
  || match RunnerOption.file options with
     | Some f => String.eqb f migrationName
     | None => false
     end.

Definition resolve (migrations : list Migration.t) (migrationName : string) : DownEntry :=
  match Js.find (fun m => String.eqb (Migration.name m) migrationName) migrations with
  | Some m => Found m
  | None => Deleted migrationName
  end.

(** Whether some loaded migration carries the name. *)
Definition has_file (migrations : list Migration.t) (migrationName : string) : bool :=
  match Js.find (fun m => String.eqb (Migration.name m) migrationName) migrations with
  | Some _ => true
  | None => false
  end.

Definition downMigrations (options : RunnerOption.t) (runNames : list string)
           (migrations : list Migration.t) : list DownEntry :=
  map (resolve migrations) (filter (file_matches options) runNames).

(** [migration.timestamp >= options.count]; a comparison with
    [undefined] is false. *)
Definition timestamp_ge (options : RunnerOption.t) (d : DownEntry) : bool :=
  match d with
  | Found m =>
      match RunnerOption.count options with
      | Some c => ge_num (Migration.timestamp m) c
      | None => false
      end
  | Deleted _ => false
  end.

Definition timestamp_le (options : RunnerOption.t) (m : Migration.t) : bool :=
  match RunnerOption.count options with
  | Some c => le_num (Migration.timestamp m) c
  | None => false
  end.

Definition count_or (options : RunnerOption.t) (default : number) : number :=
  match RunnerOption.count options with
  | Some c => c
  | None => default
  end.

Definition getMigrationsToRun (options : RunnerOption.t) (runNames : list string)
           (migrations : list Migration.t) : Result (list Migration.t) :=
  match RunnerOption.direction options with
  | Down =>
      let downMigrations := downMigrations options runNames migrations in
      let toRun :=
        List.rev
          (if RunnerOption.timestamp options
           then filter (timestamp_ge options) downMigrations
           else slice_neg (Math_abs (count_or options (Int 1))) downMigrations) in
      let deletedMigrations := deleted_names toRun in
      match deletedMigrations with
      | _ :: _ =>
          let deletedMigrationsStr := join ", " deletedMigrations in
          inl (mkError ("Definitions of migrations " ++ deletedMigrationsStr
                          ++ " have been deleted."))
      | [] => inr (found_migrations toRun)
      end
  | Up =>
      let upMigrations :=
        filter (fun m => not_in (Migration.name m) runNames
                         && file_matches options (Migration.name m))
               migrations in
      inr (if RunnerOption.timestamp options
           then filter (timestamp_le options) upMigrations
           else slice_to (Math_abs (count_or options Infinity)) upMigrations)
  end.

(** Position [j] holds the same name on both sides. *)
Definition agree (runNames : list string) (migrations : list Migration.t) (j : nat) : Prop :=
  exists runName migration,
    nth_error runNames j = Some runName
    /\ nth_error migrations j = Some migration
    /\ runName = Migration.name migration.

(** The error [checkOrder] throws for a position that differs. *)
Definition mismatch_error (migration : Migration.t) (runName : string) : Error :=
  mkError ("Not run migration " ++ Migration.name migration
             ++ " is preceding already run migration " ++ runName).

(** The loop of [checkOrder], from index [i], with [n] iterations
    left. *)
Fixpoint checkOrder_loop (n i : nat) (runNames : list string)
         (migrations : list Migration.t) : Result unit :=
  match n with
  | O => inr tt
  | S n' =>
      match nth_error runNames i, nth_error migrations i with
      | Some runName, Some migration =>
          let migrationName := Migration.name migration in
          if negb (String.eqb runName migrationName)
          then inl (mkError ("Not run migration " ++ migrationName
                               ++ " is preceding already run migration " ++ runName))
          else checkOrder_loop n' (S i) runNames migrations
      | _, _ => inr tt
      end
  end.

Definition checkOrder (runNames : list string) (migrations : list Migration.t)
  : Result unit :=
  let len := Nat.min (List.length runNames) (List.length migrations) in
  checkOrder_loop len 0 runNames migrations.

(** Which method of the record [runMigrations] calls. *)
Inductive Method : Type := MarkAsRun | Apply.

Section WithWorld.
Variable w : World.t.
Variable options : RunnerOption.t.

Definition fullTableName : string :=
  createSchemalize (decamelize w) (RunnerOption.decamelize options) true
    (NameObj (Some (Migration.getMigrationTableSchema options))
             (RunnerOption.migrationsTable options)).

Definition loadMigrations : M (list Migration.t) :=
  try_catch
    (files <- Migration.loadMigrationFiles w (RunnerOption.dir options)
                (RunnerOption.ignorePattern options) ;;
     all (map (fun file =>
                 let filePath := RunnerOption.dir options ++ "/" ++ file in
                 actions <-
                   (if String.eqb (path_extname w filePath) ".sql"
                    then ret {| exports_up :=
                                  Fn {| fn_ref := 0; fn_length := 1;
                                        fn_body := fun _ => [CallSqlOfFile filePath] |};
                                exports_down := Undefined |}
                    else lift (require w filePath)) ;;
                 ret (Migration.new w filePath actions))
              files))
    (fun err => throw (mkError ("Can't get migration files: " ++ stack err))).

(** [const [lockObtained] = await db.select(..)]: the first row, an
    object and so truthy whenever there is one. *)
Definition lock : M unit :=
  rows <- db_select w lock_query ;;
  match rows with
  | [] => throw (mkError "Another migration is already running")
  | lockObtained :: _ => ret tt
  end.

Definition select_tables_query : string :=
  "SELECT table_name FROM information_schema.tables WHERE table_schema = '"
    ++ Migration.getMigrationTableSchema options ++ "' AND table_name = '"
    ++ RunnerOption.migrationsTable options ++ "'".

Definition select_constraints_query : string :=
  "SELECT constraint_name FROM information_schema.table_constraints WHERE table_schema = '"
    ++ Migration.getMigrationTableSchema options ++ "' AND table_name = '"
    ++ RunnerOption.migrationsTable options ++ "' AND constraint_type = 'PRIMARY KEY'".

Definition ensureMigrationsTable : M unit :=
  try_catch
    (migrationTables <- db_select w select_tables_query ;;
     if Nat.eqb (List.length migrationTables) 1 then
       primaryKeyConstraints <- db_select w select_constraints_query ;;
       if negb (Nat.eqb (List.length primaryKeyConstraints) 1)
       then db_query w ("ALTER TABLE " ++ fullTableName ++ " ADD PRIMARY KEY ("
                          ++ idColumn ++ ")")
       else ret tt
     else
       db_query w ("CREATE TABLE " ++ fullTableName ++ " ( " ++ idColumn
                     ++ " SERIAL PRIMARY KEY, " ++ nameColumn
                     ++ " varchar(255) NOT NULL, " ++ runOnColumn
                     ++ " timestamp NOT NULL)"))
    (fun err => throw (mkError ("Unable to ensure migrations table: " ++ stack err))).

Definition history_query : string :=
  "SELECT " ++ nameColumn ++ " FROM " ++ fullTableName ++ " ORDER BY "
    ++ runOnColumn ++ ", " ++ idColumn.

Definition getRunMigrations : M (list string) :=
  db_column w nameColumn history_query.

(** [runMigrations(toRun, method, direction)]: the promise chain of
    the [reduce] runs the migrations one after the other and stops
    at the first rejection. *)
Fixpoint runMigrations (toRun : list Migration.t) (method : Method)
         (direction : MigrationDirection) : M unit :=
  match toRun with
  | [] => ret tt
  | migration :: rest =>
      match method with
      | MarkAsRun => Migration.markAsRun w options migration direction
      | Apply => Migration.apply w options migration direction
      end ;;
      runMigrations rest method direction
  end.

(** Truthiness of [options.schema]: an array is truthy even when
    empty. *)
Definition schema_given : bool :=
  match RunnerOption.schema options with
  | SchemaUndefined => false
  | SchemaOne s => negb (String.eqb s EmptyString)
  | SchemaMany _ => true
  end.

(** The runner up to and including the advisory lock. *)
Definition setup : M unit :=
  createConnection w ;;
  (if schema_given then
     let schemas := getSchemas (RunnerOption.schema options) in
     (if RunnerOption.createSchema options
      then _ <- all (map (fun schema =>
                            db_query w ("CREATE SCHEMA IF NOT EXISTS " ++ quote schema))
                         schemas) ;; ret tt
      else ret tt) ;;
     db_query w ("SET search_path TO " ++ join ", " (map quote schemas))
   else ret tt) ;;
  (if truthy_str (RunnerOption.migrationsSchema options)
      && RunnerOption.createMigrationsSchema options
   then db_query w ("CREATE SCHEMA IF NOT EXISTS "
                      ++ quote (match RunnerOption.migrationsSchema options with
                                | Some s => s
                                | None => EmptyString
                                end))
   else ret tt) ;;
  ensureMigrationsTable ;;
  (if negb (RunnerOption.noLock options) then lock else ret tt).

(** The application of the pending set. *)
Definition migrate (toRun : list Migration.t) : M unit :=
  if RunnerOption.fake options then
    runMigrations toRun MarkAsRun (RunnerOption.direction options)
  else if RunnerOption.singleTransaction options then
    db_query w "BEGIN" ;;
    try_catch
      (runMigrations toRun Apply (RunnerOption.direction options) ;;
       db_query w "COMMIT")
      (fun err =>
         log "> Rolling back attempted migration ..." ;;
         db_query w "ROLLBACK" ;;
         throw err)
  else
    runMigrations toRun Apply (RunnerOption.direction options).

Definition to_RunMigration (m : Migration.t) : Migration.RunMigration :=
  {| Migration.run_path := Migration.path m;
     Migration.run_name := Migration.name m;
     Migration.run_timestamp := Migration.timestamp m |}.

(** The two events of the concurrent load. *)
Definition load_events : list Event :=
  [EvReaddir (RunnerOption.dir options ++ "/");
   EvColumn nameColumn history_query].

(** The runner once the files and the history are loaded. *)
Definition check_select_and_migrate (migrations : list Migration.t)
           (runNames : list string) : M (list Migration.RunMigration) :=
  (if RunnerOption.checkOrder options
   then lift (checkOrder runNames migrations)
   else ret tt) ;;
  toRun <- lift (getMigrationsToRun options runNames migrations) ;;
  match toRun with
  | [] => log "No migrations to run!" ;; ret []
  | _ :: _ =>
      log "> Migrating files:" ;;
      Migration.log_all (map (fun m => "> - " ++ Migration.name m) toRun) ;;
      migrate toRun ;;
      ret (map to_RunMigration toRun)
  end.

(** The runner from the concurrent load on. *)
Definition load_and_migrate : M (list Migration.RunMigration) :=
  loaded <- all2 (load_settles_first w) loadMigrations getRunMigrations ;;
  let '(migrations, runNames) := loaded in
  check_select_and_migrate migrations runNames.

(** The default export. *)
Definition runner : M (list Migration.RunMigration) :=
  finally (setup ;; load_and_migrate) db_close.

End WithWorld.

End Runner.

(* ================================================================= *)
(** ** Concrete migrations, options and worlds *)

Module Examples.
Import Utils Operations Types World Async.

Definition identity (s : string) : string := s.

Definition mOptions : MigrationOptions := MigrationBuilder.options identity false.

(** [pgm.createSchema('s1')], [pgm.createExtension(['a', 'b'])],
    [pgm.renameSchema('s1', 's2')], [pgm.dropSchema('s2')]. *)
Definition call_createSchema (o : MigrationOptions) : MigrationBuilder.OpCall :=
  MigrationBuilder.mkCall (createSchema o) (NameStr "s1", no_options).

Definition call_createExtension (o : MigrationOptions) : MigrationBuilder.OpCall :=
  MigrationBuilder.mkCall (createExtension o) ([NameStr "a"; NameStr "b"], no_options).

Definition call_renameSchema (o : MigrationOptions) : MigrationBuilder.OpCall :=
  MigrationBuilder.mkCall (renameSchema o) (NameStr "s1", NameStr "s2").

Definition call_dropSchema (o : MigrationOptions) : MigrationBuilder.OpCall :=
  MigrationBuilder.mkCall (dropSchema o) (NameStr "s2", no_options).

Definition reversible_calls (o : MigrationOptions) : list MigrationBuilder.OpCall :=
  [call_createSchema o; call_createExtension o; call_renameSchema o].

(** [exports.up = pgm => { createSchema; createExtension; renameSchema }]. *)
Definition up_reversible : MigrationAction :=
  {| fn_ref := 1; fn_length := 1;
     fn_body := fun o => map Call (reversible_calls o) |}.

(** [exports.up = pgm => { pgm.createSchema('s1') }]. *)
Definition up_schema : MigrationAction :=
  {| fn_ref := 2; fn_length := 1; fn_body := fun o => [Call (call_createSchema o)] |}.

(** [exports.up = pgm => { pgm.noTransaction(); pgm.createSchema('s1') }]. *)
Definition up_no_transaction : MigrationAction :=
  {| fn_ref := 3; fn_length := 1;
     fn_body := fun o => [CallNoTransaction; Call (call_createSchema o)] |}.

Definition migration (path name : string) (timestamp : Z) (up down : ActionField)
  : Migration.t :=
  {| Migration.path := path; Migration.name := name;
     Migration.timestamp := timestamp; Migration.up := up; Migration.down := down |}.

Definition m_auto : Migration.t :=
  migration "migrations/1000_auto.js" "1000_auto" 1000 (Fn up_reversible) Undefined.

(** A file whose [up] and [down] are one and the same function. *)
Definition m_same : Migration.t :=
  migration "migrations/1500_same.js" "1500_same" 1500 (Fn up_schema) (Fn up_schema).

Definition m_A : Migration.t :=
  migration "migrations/1000_A.js" "1000_A" 1000 (Fn up_schema) Undefined.
Definition m_B : Migration.t :=
  migration "migrations/2000_B.js" "2000_B" 2000 (Fn up_schema) Undefined.
Definition m_C : Migration.t :=
  migration "migrations/3000_C.js" "3000_C" 3000 (Fn up_schema) Undefined.

Definition options_up : RunnerOption.t :=
  {| RunnerOption.dir := "migrations";
     RunnerOption.ignorePattern := None;
     RunnerOption.direction := Up;
     RunnerOption.count := Some Infinity;
     RunnerOption.file := None;
     RunnerOption.timestamp := false;
     RunnerOption.checkOrder := true;
     RunnerOption.noLock := false;
     RunnerOption.singleTransaction := false;
     RunnerOption.dryRun := false;
     RunnerOption.fake := false;
     RunnerOption.schema := SchemaUndefined;
     RunnerOption.createSchema := false;
     RunnerOption.createMigrationsSchema := false;
     RunnerOption.migrationsSchema := None;
     RunnerOption.migrationsTable := "pgmigrations";
     RunnerOption.decamelize := false |}.

Definition with_direction (o : RunnerOption.t) (d : MigrationDirection)
           (count : option number) (timestamp : bool) : RunnerOption.t :=
  {| RunnerOption.dir := RunnerOption.dir o;
     RunnerOption.ignorePattern := RunnerOption.ignorePattern o;
     RunnerOption.direction := d;
     RunnerOption.count := count;
     RunnerOption.file := RunnerOption.file o;
     RunnerOption.timestamp := timestamp;
     RunnerOption.checkOrder := RunnerOption.checkOrder o;
     RunnerOption.noLock := RunnerOption.noLock o;
     RunnerOption.singleTransaction := RunnerOption.singleTransaction o;
     RunnerOption.dryRun := RunnerOption.dryRun o;
     RunnerOption.fake := RunnerOption.fake o;
     RunnerOption.schema := RunnerOption.schema o;
     RunnerOption.createSchema := RunnerOption.createSchema o;
     RunnerOption.createMigrationsSchema := RunnerOption.createMigrationsSchema o;
     RunnerOption.migrationsSchema := RunnerOption.migrationsSchema o;
     RunnerOption.migrationsTable := RunnerOption.migrationsTable o;
     RunnerOption.decamelize := RunnerOption.decamelize o |}.

Definition with_singleTransaction (o : RunnerOption.t) (b : bool) : RunnerOption.t :=
  {| RunnerOption.dir := RunnerOption.dir o;
     RunnerOption.ignorePattern := RunnerOption.ignorePattern o;
     RunnerOption.direction := RunnerOption.direction o;
     RunnerOption.count := RunnerOption.count o;
     RunnerOption.file := RunnerOption.file o;
     RunnerOption.timestamp := RunnerOption.timestamp o;
     RunnerOption.checkOrder := RunnerOption.checkOrder o;
     RunnerOption.noLock := RunnerOption.noLock o;
     RunnerOption.singleTransaction := b;
     RunnerOption.dryRun := RunnerOption.dryRun o;
     RunnerOption.fake := RunnerOption.fake o;
     RunnerOption.schema := RunnerOption.schema o;
     RunnerOption.createSchema := RunnerOption.createSchema o;
     RunnerOption.createMigrationsSchema := RunnerOption.createMigrationsSchema o;
     RunnerOption.migrationsSchema := RunnerOption.migrationsSchema o;
     RunnerOption.migrationsTable := RunnerOption.migrationsTable o;
     RunnerOption.decamelize := RunnerOption.decamelize o |}.

Definition options_down : RunnerOption.t := with_direction options_up Down None false.

(** A migration file on disk: its name in the directory, the name and
    timestamp the constructor derives, and what it exports. *)
Record File : Type := {
  file_name : string;
  base_name : string;
  number_prefix : Z;
  exports : MigrationBuilderActions
}.

Definition file_of (m : Migration.t) : File :=
  {| file_name := Migration.name m ++ ".js";
     base_name := Migration.name m;
     number_prefix := Migration.timestamp m;
     exports := {| exports_up := Migration.up m; exports_down := Migration.down m |} |}.

Fixpoint lookup {A : Type} (key : File -> string) (k : string) (files : list File)
         (f : File -> A) : option A :=
  match files with
  | [] => None
  | x :: rest => if String.eqb (key x) k then Some (f x) else lookup key k rest f
  end.

(** A world with the given directory content and recorded history, in
    which the lock is free and a statement fails exactly when [fails]
    says so. A missing directory is [None]. *)
Definition world (files : option (list File)) (history : list string)
           (fails : string -> bool) : World.t :=
  let fs := match files with Some l => l | None => [] end in
  {| connect := fun _ => None;
     query := fun _ text =>
                if fails text then Some (mkError ("syntax error in " ++ text)) else None;
     select := fun _ text =>
                 if String.eqb text Runner.lock_query
                 then inr [[("lockObtained", "t")]]
                 else inr [];
     column := fun _ _ _ => inr history;
     readdir := fun p =>
                  match files with
                  | Some l => inr (map file_name l)
                  | None => inl (mkError ("ENOENT: no such file or directory, scandir '"
                                            ++ p ++ "'"))
                  end;
     isFile := fun _ => inr true;
     readFile := fun _ => inr "SELECT 1";
     require := fun p =>
                  match lookup (fun f => "migrations/" ++ file_name f) p fs exports with
                  | Some e => inr e
                  | None => inl (mkError ("Cannot find module '" ++ p ++ "'"))
                  end;
     regexp := fun _ => inr (fun _ => false);
     decamelize := identity;
     path_extname := fun _ => ".js";
     path_basename := fun p _ =>
                        match lookup (fun f => "migrations/" ++ file_name f) p fs base_name with
                        | Some b => b
                        | None => p
                        end;
     Number := fun s =>
                 lookup (fun f => Migration.split_head (base_name f)) s fs number_prefix;
     load_settles_first := true |}.

Definition never (text : string) : bool := false.


(** Files A, B and C on disk. *)
Definition files_ABC : list File := [file_of m_A; file_of m_B; file_of m_C].

(** History [A, C] against files [A, B, C]. *)
Definition world_out_of_order : World.t :=
  world (Some files_ABC) ["1000_A"; "3000_C"] never.

(** History [A]; the statement recording C fails. *)
Definition fails_on_C (text : string) : bool :=
  String.eqb text (Migration.insert_statement options_up m_C).

Definition world_C_fails : World.t := world (Some files_ABC) ["1000_A"] fails_on_C.

Definition options_single : RunnerOption.t := with_singleTransaction options_up true.

(** One migration on disk, already recorded. *)
Definition world_auto : World.t := world (Some [file_of m_auto]) ["1000_auto"] never.

End Examples.

(* ================================================================= *)
(** ** More of the utilities: comments and line formatting *)

Module UtilsMore.
Import Utils.










(** No character of [s] is the letter A. *)
Fixpoint no_A (s : string) : Prop :=
  match s with
  | EmptyString => True
  | String c rest => c <> "A"%char /\ no_A rest
  end.

(** A character of the text of a finite number: a digit, the point,
    the exponent mark or a sign. *)
Definition is_number_char (c : ascii) : bool :=
  existsb (Ascii.eqb c) (list_ascii_of_string "0123456789.e+-").

(** What [String(n)] can give for a number [n]: [NaN], [Infinity],
    [-Infinity], or the digits of a finite number with at most a sign,
    a point and an exponent. *)
Definition is_number_text (n : JsNumber) : Prop :=
  n = "NaN" \/ n = "Infinity" \/ n = "-Infinity"
  \/ (n <> EmptyString /\ forallb is_number_char (list_ascii_of_string n) = true).

(** A scalar that is not a string: [null], a boolean or a number. *)
Definition plain_scalar (v : Value) : Prop :=
  match v with
  | VNull | VBool _ => True
  | VNumber n => is_number_text n
  | _ => False
  end.

End UtilsMore.

(* ================================================================= *)
(** ** What a computation may append to the trace *)

Module Footprint.
Import Types World Async.

(** [m] only appends to the trace, and only events that satisfy [P]. *)
Definition only {A : Type} (P : Event -> Prop) (m : M A) : Prop :=
  forall tr, exists suffix, fst (m tr) = (tr ++ suffix)%list /\ Forall P suffix.

Definition is_log (ev : Event) : Prop :=
  match ev with
  | EvLog _ => True
  | _ => False
  end.

Definition not_close (ev : Event) : Prop := ev <> EvClose.

Definition not_lock (ev : Event) : Prop := ev <> EvSelect Runner.lock_query.

(** A call of the body that stays within the builder context: it does
    not use the side channel to the database. *)
Definition builder_only (c : Cmd) : bool :=
  match c with
  | CallDbQuery _ | CallDbSelect _ => false
  | _ => true
  end.

Definition is_noTransaction (c : Cmd) : bool :=
  match c with
  | CallNoTransaction => true
  | _ => false
  end.

Definition is_enableReverseMode (c : Cmd) : bool :=
  match c with
  | CallEnableReverseMode => true
  | _ => false
  end.

Definition is_write (c : Cmd) : bool :=
  match c with
  | CallWriteSteps _ => true
  | _ => false
  end.

(** [l1] is the beginning of [l2]. *)
Definition is_prefix {A : Type} (l1 l2 : list A) : Prop :=
  exists rest, l2 = (l1 ++ rest)%list.

(** A log line, or the statement that records or erases one of
    [toRun] in the history table. *)
Definition is_log_or_mark (options : RunnerOption.t) (toRun : list Migration.t)
           (ev : Event) : Prop :=
  is_log ev
  \/ exists m, In m toRun
               /\ (ev = EvQuery (Migration.insert_statement options m)
                   \/ ev = EvQuery (Migration.delete_statement options m)).

(** A log line, or one of the three statements by which the runner
    itself controls the single transaction. *)
Definition is_log_or_transaction_control (single : bool) (ev : Event) : Prop :=
  is_log ev
  \/ (single = true
      /\ In ev [EvQuery "BEGIN"; EvQuery "COMMIT"; EvQuery "ROLLBACK"]).

End Footprint.

(* ================================================================= *)
(** ** The runner, step by step *)

Module RunnerSteps.
Import Utils Operations Types World Async.
Import Runner.
Local Open Scope async_scope.

Section WithWorld.
Variable w : World.t.
Variable options : RunnerOption.t.

(** The runner between the connection and the advisory lock: the
    schemas, the search path, the schema and the table of the
    history. *)
Definition prepare : M unit :=
  (if schema_given options then
     let schemas := getSchemas (RunnerOption.schema options) in
     (if RunnerOption.createSchema options
      then _ <- all (map (fun schema =>
                            db_query w ("CREATE SCHEMA IF NOT EXISTS " ++ quote schema))
                         schemas) ;; ret tt
      else ret tt) ;;
     db_query w ("SET search_path TO " ++ join ", " (map quote schemas))
   else ret tt) ;;
  (if truthy_str (RunnerOption.migrationsSchema options)
      && RunnerOption.createMigrationsSchema options
   then db_query w ("CREATE SCHEMA IF NOT EXISTS "
                      ++ quote (match RunnerOption.migrationsSchema options with
                                | Some s => s
                                | None => EmptyString
                                end))
   else ret tt) ;;
  ensureMigrationsTable w options.

(** The runner from the connection up to [ensureMigrationsTable]:
    everything that comes before the advisory lock. *)
Definition connect_and_ensure : M unit :=
  createConnection w ;; prepare.

(** The advisory lock, unless [noLock] is set. *)
Definition lock_unless_noLock : M unit :=
  if negb (RunnerOption.noLock options) then lock w else ret tt.

(** The pending migrations of direction up, before the count or the
    timestamp caps them. *)
Definition upMigrations (runNames : list string) (migrations : list Migration.t)
  : list Migration.t :=
  filter (fun m => not_in (Migration.name m) runNames
                   && file_matches options (Migration.name m))
         migrations.

End WithWorld.

End RunnerSteps.

(* ================================================================= *)
(** ** More options, worlds and values *)

Module MoreExamples.
Import Utils Operations Types World Async.
Import Examples.

(** [options] with the three switches [noLock], [dryRun] and [fake]
    set as given. *)
Definition with_switches (o : RunnerOption.t) (noLock dryRun fake : bool)
  : RunnerOption.t :=
  {| RunnerOption.dir := RunnerOption.dir o;
     RunnerOption.ignorePattern := RunnerOption.ignorePattern o;
     RunnerOption.direction := RunnerOption.direction o;
     RunnerOption.count := RunnerOption.count o;
     RunnerOption.file := RunnerOption.file o;
     RunnerOption.timestamp := RunnerOption.timestamp o;
     RunnerOption.checkOrder := RunnerOption.checkOrder o;
     RunnerOption.noLock := noLock;
     RunnerOption.singleTransaction := RunnerOption.singleTransaction o;
     RunnerOption.dryRun := dryRun;
     RunnerOption.fake := fake;
     RunnerOption.schema := RunnerOption.schema o;
     RunnerOption.createSchema := RunnerOption.createSchema o;
     RunnerOption.createMigrationsSchema := RunnerOption.createMigrationsSchema o;
     RunnerOption.migrationsSchema := RunnerOption.migrationsSchema o;
     RunnerOption.migrationsTable := RunnerOption.migrationsTable o;
     RunnerOption.decamelize := RunnerOption.decamelize o |}.

Definition options_noLock : RunnerOption.t := with_switches options_up true false false.
Definition options_dry : RunnerOption.t := with_switches options_up false true false.
Definition options_dry_single : RunnerOption.t :=
  with_switches options_single false true false.
Definition options_fake : RunnerOption.t := with_switches options_up false false true.
Definition options_single_fake : RunnerOption.t :=
  with_switches options_single false false true.

(** A migration that opts out of transactions. *)
Definition m_no_transaction : Migration.t :=
  migration "migrations/2000_notx.js" "2000_notx" 2000 (Fn up_no_transaction) Undefined.

(** Files A, B and C on disk, nothing recorded. *)
Definition world_fresh : World.t := world (Some files_ABC) [] never.

(** A world whose executor answers [select] and [lstat] as given and is
    otherwise [base]. *)
Definition with_answers (base : World.t)
           (select : Trace -> string -> Result (list Row))
           (isFile : string -> Result bool) : World.t :=
  {| connect := connect base;
     query := query base;
     select := select;
     column := column base;
     readdir := readdir base;
     isFile := isFile;
     readFile := readFile base;
     require := require base;
     regexp := regexp base;
     decamelize := decamelize base;
     path_extname := path_extname base;
     path_basename := path_basename base;
     Number := Number base;
     load_settles_first := load_settles_first base |}.

(** The directory lists C, A and B in this order. *)
Definition world_unsorted : World.t :=
  world (Some [file_of m_C; file_of m_A; file_of m_B]) [] never.

(** The lock query comes back without a row. *)
Definition world_no_lock_row : World.t :=
  with_answers world_fresh (fun _ _ => inr []) (isFile world_fresh).

(** File B cannot be examined. *)
Definition world_unreadable_entry : World.t :=
  with_answers world_fresh (select world_fresh)
               (fun p => if String.eqb p "migrations/2000_B.js"
                         then inl (mkError "EACCES: permission denied")
                         else inr true).

(** An error of the executor, with the stack it comes with. *)
Definition permission_denied : Error :=
  {| message := "permission denied for schema public";
     stack := "error: permission denied for schema public" ++ nl
                ++ "    at Parser.parseErrorMessage (pg-protocol/dist/parser.js:287:98)" |}.

(** The executor refuses every statement with that error; nothing is
    on disk and no table exists. *)
Definition world_denied : World.t :=
  let base := world None [] never in
  {| connect := connect base;
     query := fun _ _ => Some permission_denied;
     select := fun _ _ => inr [];
     column := column base;
     readdir := readdir base;
     isFile := isFile base;
     readFile := readFile base;
     require := require base;
     regexp := regexp base;
     decamelize := decamelize base;
     path_extname := path_extname base;
     path_basename := path_basename base;
     Number := Number base;
     load_settles_first := load_settles_first base |}.

(** The runner's own COMMIT is rejected. *)
Definition world_commit_fails : World.t :=
  world (Some files_ABC) [] (fun text => String.eqb text "COMMIT").

(** The trace of the runner before it asks for the lock. *)
Definition trace_before_lock : Trace :=
  fst (RunnerSteps.connect_and_ensure world_no_lock_row options_up []).

(** The builder after [pgm.noTransaction(); pgm.createSchema('s1')]. *)
Definition pgm_after_no_transaction : MigrationBuilder.t :=
  fst (MigrationBuilder.do_call (call_createSchema mOptions)
                                (MigrationBuilder.noTransaction MigrationBuilder.new)).

(** [[1, -0.5, 1e21, NaN, true, null]] and [[[1, 2.5], [null, Infinity]]]. *)
Definition scalars : list Value :=
  [VNumber "1"; VNumber "-0.5"; VNumber "1e+21"; VNumber "NaN"; VBool true; VNull].

Definition rows_of_scalars : list (list Value) :=
  [[VNumber "1"; VNumber "2.5"]; [VNull; VNumber "Infinity"]].

End MoreExamples.

(* ================================================================= *)
(** * Properties *)

(* ================================================================= *)
(** ** [escapeValue] *)

Section EscapeValueFacts.
Import Utils.

Lemma prefix_cons_inv (c : ascii) (a t : string) :
  prefix (String c a) t = true -> exists t', t = String c t' /\ prefix a t' = true.
Proof.
  destruct t as [|d t]; cbn [prefix]; [discriminate|].
  destruct (ascii_dec c d) as [->|]; [|discriminate].
  intros H. exists t. split; [reflexivity|exact H].
Qed.

Lemma prefix_length (a t : string) :
  prefix a t = true -> String.length a <= String.length t.
Proof.
  revert t. induction a as [|c a IH]; intros t H; cbn [String.length]; [lia|].
  apply prefix_cons_inv in H. destruct H as (t' & -> & H).
  cbn [String.length]. apply IH in H. lia.
Qed.

Lemma prefix_append (a b : string) : prefix a (a ++ b) = true.
Proof.
  induction a as [|c a IH]; cbn [append prefix]; [destruct b; reflexivity|].
  destruct (ascii_dec c c); [exact IH|congruence].
Qed.

Lemma prefix_append_inv (a b t : string) :
  prefix (a ++ b) t = true -> exists t', t = a ++ t' /\ prefix b t' = true.
Proof.
  revert t. induction a as [|c a IH]; intros t H.
  - exists t. split; [reflexivity|exact H].
  - cbn [append] in H. apply prefix_cons_inv in H. destruct H as (t1 & -> & H).
    destruct (IH t1 H) as (t' & -> & Hb). exists t'. split; [reflexivity|exact Hb].
Qed.

Lemma indexOf_lower (hay needle : string) : (-1 <= indexOf hay needle)%Z.
Proof.
  induction hay as [|c hay IH]; cbn [indexOf].
  - destruct (prefix needle EmptyString); lia.
  - destruct (prefix needle (String c hay)); [lia|].
    destruct (Z.ltb_spec (indexOf hay needle) 0); lia.
Qed.

(** A non-negative [indexOf] is a position where the needle occurs. *)
Lemma indexOf_occurs (hay needle : string) :
  (0 <= indexOf hay needle)%Z ->
  exists p, indexOf hay needle = Z.of_nat p
            /\ prefix needle (drop p hay) = true
            /\ p + String.length needle <= String.length hay.
Proof.
  induction hay as [|c hay IH]; cbn [indexOf]; intros H.
  - destruct (prefix needle EmptyString) eqn:E; [|lia].
    exists 0. repeat split; [exact E|]. apply prefix_length in E. cbn in *. lia.
  - destruct (prefix needle (String c hay)) eqn:E.
    + exists 0. repeat split; [exact E|]. apply prefix_length in E. cbn in *. lia.
    + destruct (Z.ltb_spec (indexOf hay needle) 0) as [Hneg|Hpos]; [lia|].
      destruct (IH Hpos) as (p & Hp & Hpre & Hlen).
      exists (S p). repeat split.
      * rewrite Hp. lia.
      * exact Hpre.
      * cbn. lia.
Qed.

(** An occurrence makes [indexOf] non-negative. *)
Lemma indexOf_of_occurrence (pre needle post : string) :
  (0 <= indexOf (pre ++ needle ++ post) needle)%Z.
Proof.
  induction pre as [|c pre IH].
  - cbn [append]. destruct (needle ++ post) eqn:E; cbn [indexOf];
      rewrite <- E, prefix_append; lia.
  - cbn [append indexOf].
    destruct (prefix needle (String c (pre ++ needle ++ post))); [lia|].
    destruct (Z.ltb_spec (indexOf (pre ++ needle ++ post) needle) 0); lia.
Qed.

Lemma indexOf_absent (hay needle : string) :
  (indexOf hay needle < 0)%Z ->
  forall pre post, hay <> pre ++ needle ++ post.
Proof.
  intros H pre post ->. pose proof (indexOf_of_occurrence pre needle post). lia.
Qed.

(** *** Numerals *)

Lemma no_dollar_NilEmpty (d : Decimal.uint) :
  no_dollar (DecimalString.NilEmpty.string_of_uint d).
Proof.
  induction d; cbn; try exact I; split; try exact IHd; discriminate.
Qed.

Lemma no_dollar_string_of_nat (n : nat) : no_dollar (string_of_nat n).
Proof.
  unfold string_of_nat, DecimalString.NilZero.string_of_uint.
  destruct (Nat.to_uint n); try apply no_dollar_NilEmpty.
  cbn. split; [discriminate|exact I].
Qed.

Lemma to_uint_nonnil (n : nat) : Nat.to_uint n <> Decimal.Nil.
Proof.
  rewrite <- (DecimalNat.Unsigned.of_to n) at 1.
  rewrite DecimalNat.Unsigned.to_of. unfold Decimal.unorm.
  destruct (Decimal.nzhead (Nat.to_uint n)); discriminate.
Qed.

Lemma string_of_nat_inj (n m : nat) : string_of_nat n = string_of_nat m -> n = m.
Proof.
  unfold string_of_nat. intros H.
  apply DecimalNat.Unsigned.to_uint_inj.
  pose proof (DecimalString.NilZero.usu _ (to_uint_nonnil n)) as Hn.
  pose proof (DecimalString.NilZero.usu _ (to_uint_nonnil m)) as Hm.
  rewrite H in Hn. congruence.
Qed.

(** Two numerals closed by a dollar sign that start the same string
    are the same numeral. *)
Lemma numeral_prefix_unique (d1 : string) :
  forall d2 t : string,
    no_dollar d1 -> no_dollar d2 ->
    prefix (d1 ++ "$") t = true -> prefix (d2 ++ "$") t = true -> d1 = d2.
Proof.
  induction d1 as [|c d1 IH]; intros d2 t H1 H2 P1 P2.
  - destruct d2 as [|c2 d2]; [reflexivity|].
    cbn [append] in P1, P2.
    apply prefix_cons_inv in P1. destruct P1 as (t1 & -> & _).
    apply prefix_cons_inv in P2. destruct P2 as (t2 & E & _).
    destruct H2 as [H2 _]. congruence.
  - cbn [append] in P1.
    apply prefix_cons_inv in P1. destruct P1 as (t1 & -> & P1).
    destruct d2 as [|c2 d2]; cbn [append] in P2;
      apply prefix_cons_inv in P2; destruct P2 as (t2 & E & P2).
    + destruct H1 as [H1 _]. congruence.
    + injection E as -> ->.
      f_equal. apply (IH d2 t2); [apply H1|apply H2|exact P1|exact P2].
Qed.

Lemma dollars_prefix_unique (n m : nat) (t : string) :
  prefix (dollars_of n) t = true -> prefix (dollars_of m) t = true -> n = m.
Proof.
  unfold dollars_of. intros Hn Hm.
  apply prefix_append_inv in Hn. destruct Hn as (t1 & -> & Hn).
  apply prefix_append_inv in Hm. destruct Hm as (t2 & E & Hm).
  assert (t2 = t1) as -> by (cbn in E; congruence).
  apply string_of_nat_inj.
  apply (numeral_prefix_unique _ _ t1); auto using no_dollar_string_of_nat.
Qed.

Lemma dollars_length (n : nat) : 1 <= String.length (dollars_of n).
Proof. unfold dollars_of. cbn. lia. Qed.

(** *** The loop *)

(** Not every one of [length val + 1] successive tags can occur in
    [val]: their positions would be pairwise distinct. *)
Lemma some_tag_is_free (val : string) (i : nat) :
  ~ (forall n, i < n <= i + S (String.length val) ->
               (0 <= indexOf val (dollars_of n))%Z).
Proof.
  intros Hall.
  set (k := String.length val).
  set (tags := seq (S i) (S k)).
  assert (Hin : forall n, In n tags -> i < n <= i + S k).
  { intros n Hn. apply in_seq in Hn. lia. }
  assert (Hocc : forall n, In n tags ->
                 prefix (dollars_of n) (drop (position val n) val) = true
                 /\ position val n < k).
  { intros n Hn. destruct (indexOf_occurs val _ (Hall n (Hin n Hn))) as (p & Hp & Hpre & Hlen).
    unfold position. rewrite Hp, Nat2Z.id. split; [exact Hpre|].
    pose proof (dollars_length n). fold k in Hlen. lia. }
  assert (Hnodup : NoDup (map (position val) tags)).
  { apply NoDup_map_NoDup_ForallPairs.
    - intros n m Hn Hm E.
      destruct (Hocc n Hn) as [Pn _]. destruct (Hocc m Hm) as [Pm _].
      rewrite E in Pn. exact (dollars_prefix_unique n m _ Pn Pm).
    - apply seq_NoDup. }
  assert (Hincl : incl (map (position val) tags) (seq 0 k)).
  { intros p Hp. apply in_map_iff in Hp. destruct Hp as (n & <- & Hn).
    apply in_seq. destruct (Hocc n Hn) as [_ Hlt]. lia. }
  pose proof (NoDup_incl_length Hnodup Hincl) as Hlen.
  rewrite length_map in Hlen. unfold tags in Hlen. rewrite !length_seq in Hlen. lia.
Qed.

Lemma escape_loop_none (fuel : nat) (val : string) :
  forall i, escape_loop fuel val i = None ->
            forall n, i < n <= i + fuel -> (0 <= indexOf val (dollars_of n))%Z.
Proof.
  induction fuel as [|fuel IH]; intros i H n Hn; [lia|].
  cbn [escape_loop] in H.
  destruct (Z.geb_spec (indexOf val (dollars_of (S i))) 0) as [Hge|Hlt]; [|discriminate].
  destruct (Nat.eq_dec n (S i)) as [->|Hne]; [lia|].
  apply (IH (S i) H). lia.
Qed.

Lemma escape_loop_some (fuel : nat) (val : string) :
  forall i dollars,
    escape_loop fuel val i = Some dollars ->
    exists n, i < n /\ dollars = dollars_of n
              /\ (indexOf val (dollars_of n) < 0)%Z
              /\ forall m, i < m < n -> (0 <= indexOf val (dollars_of m))%Z.
Proof.
  induction fuel as [|fuel IH]; intros i dollars H; [discriminate|].
  cbn [escape_loop] in H.
  destruct (Z.geb_spec (indexOf val (dollars_of (S i))) 0) as [Hge|Hlt].
  - destruct (IH (S i) dollars H) as (n & Hn & -> & Hfree & Hbelow).
    exists n. repeat split; [lia|exact Hfree|].
    intros m Hm. destruct (Nat.eq_dec m (S i)) as [->|Hne]; [lia|].
    apply Hbelow. lia.
  - injection H as <-. exists (S i). repeat split; [lia|lia|].
    intros m Hm. lia.
Qed.

(** The loop ends within the iterations [escapeValue] grants it. *)
Lemma escape_loop_returns (val : string) :
  exists dollars, escape_loop (S (String.length val)) val 0 = Some dollars.
Proof.
  destruct (escape_loop (S (String.length val)) val 0) as [d|] eqn:E.
  - exists d. reflexivity.
  - exfalso. apply (some_tag_is_free val 0).
    intros n Hn. exact (escape_loop_none _ _ 0 E n Hn).
Qed.

(** What holds of the string case: for every string [s],
    [escapeValue] returns [tag ++ s ++ tag] where [tag] is [$pgN$] for
    the least [N >= 1] whose tag does not occur in [s]; the delimiter
    is never a substring of the value it encloses. *)
Theorem escapeValue_string_uses_first_free_dollar_tag :
  forall s : string,
  exists N : nat,
    1 <= N
    /\ escapeValue (VString s) = Some (EscString (dollars_of N ++ s ++ dollars_of N))
    /\ (indexOf s (dollars_of N) < 0)%Z
    /\ (forall M, 1 <= M < N -> (0 <= indexOf s (dollars_of M))%Z)
    /\ (forall pre post : string, s <> pre ++ dollars_of N ++ post).
Proof.
  intros s. destruct (escape_loop_returns s) as (d & Hd).
  destruct (escape_loop_some _ _ _ _ Hd) as (N & HN & -> & Hfree & Hbelow).
  exists N. repeat split.
  - lia.
  - cbn [escapeValue]. rewrite Hd. reflexivity.
  - exact Hfree.
  - intros M HM. apply Hbelow. lia.
  - apply indexOf_absent. exact Hfree.
Qed.

(** C10. The tag that [escapeValue] chooses does not occur in the
    value, and still the literal is not always delimited without
    ambiguity. For the value [abc$pg1] the loop stops at [$pg1$], which
    the value does not hold; but the value ends with the beginning of
    the tag, so in the text after the opening tag, the value followed
    by the closing tag, [$pg1$] first occurs at offset 3, inside the
    value: read as a dollar-quoted literal, the text closes after
    [abc] and leaves [pg1$] behind. *)
Theorem escapeValue_tag_can_close_inside_the_value :
  let s := "abc$pg1" in
  let tag := dollars_of 1 in
  tag = "$pg1$"
  /\ escapeValue (VString s) = Some (EscString (tag ++ s ++ tag))
  /\ (indexOf s tag < 0)%Z
  /\ indexOf (s ++ tag) tag = 3%Z
  /\ (3 < Z.of_nat (String.length s))%Z
  /\ tag ++ s ++ tag = (tag ++ "abc" ++ tag) ++ "pg1$".
Proof.
  cbv zeta. repeat split; vm_compute; reflexivity.
Qed.

End EscapeValueFacts.

(* ================================================================= *)
(** ** The builder context *)

Section BuilderFacts.
Import Utils Operations Types World Async.
Import MigrationBuilder.

Lemma concat_statements (steps : list string) (r : SqlOut) :
  concat steps r = (steps ++ statements r)%list.
Proof. destruct r; reflexivity. Qed.

Lemma wrap_forward (operation : Operation) (args : op_args operation) (pgm : t) :
  _REVERSE_MODE pgm = false ->
  wrap operation args pgm
  = (set_steps pgm (_steps pgm ++ statements (op_call operation args)), inr tt).
Proof.
  intros Hmode. unfold wrap. rewrite Hmode, concat_statements. reflexivity.
Qed.

Lemma do_call_reverse (c : OpCall) (pgm : t) :
  _REVERSE_MODE pgm = true ->
  has_reverse c = true ->
  do_call c pgm = (set_steps pgm (_steps pgm ++ reverse_statements c), inr tt).
Proof.
  intros Hmode Hrev.
  unfold do_call, wrap, has_reverse, reverse_statements, reverse_result in *.
  rewrite Hmode.
  destruct (op_reverse (call_op c)) as [reverse|]; [|discriminate].
  rewrite concat_statements. reflexivity.
Qed.

Lemma set_steps_idem (pgm : t) (a b : list string) :
  set_steps (set_steps pgm a) b = set_steps pgm b.
Proof. reflexivity. Qed.

Lemma flat_map_rev {A B : Type} (f : A -> list B) (l : list A) :
  List.rev (flat_map f l) = flat_map (fun x => List.rev (f x)) (List.rev l).
Proof.
  induction l as [|x l IH]; [reflexivity|].
  cbn [flat_map List.rev].
  rewrite rev_app_distr, IH, flat_map_app. cbn [flat_map].
  rewrite app_nil_r. reflexivity.
Qed.

Lemma run_body_cons (w : World.t) (c : Cmd) (rest : list Cmd) (pgm : t) (tr : Trace) :
  Migration.run_body w (c :: rest) pgm tr
  = match Migration.exec_cmd w c pgm tr with
    | (tr', inr pgm') => Migration.run_body w rest pgm' tr'
    | (tr', inl e) => (tr', inl e)
    end.
Proof. reflexivity. Qed.

Lemma exec_cmd_call (w : World.t) (c : OpCall) (pgm : t) (tr : Trace) :
  Migration.exec_cmd w (Call c) pgm tr
  = (tr, match snd (do_call c pgm) with
         | inr _ => inr (fst (do_call c pgm))
         | inl e => inl e
         end).
Proof.
  cbn [Migration.exec_cmd]. destruct (do_call c pgm) as [pgm' [e|[]]]; reflexivity.
Qed.

(** In reverse mode a body made of reversible calls appends each
    call's reverse result, in call order, and touches nothing else. *)
Lemma run_body_reversible (w : World.t) (calls : list OpCall) :
  forall (pgm : t) (tr : Trace),
    _REVERSE_MODE pgm = true ->
    (forall c, In c calls -> has_reverse c = true) ->
    Migration.run_body w (map Call calls) pgm tr
    = (tr, inr (set_steps pgm (_steps pgm ++ flat_map reverse_statements calls))).
Proof.
  induction calls as [|c calls IH]; intros pgm tr Hmode Hall.
  - cbn. rewrite app_nil_r. destruct pgm; reflexivity.
  - cbn [map]. rewrite run_body_cons, exec_cmd_call.
    rewrite (do_call_reverse c pgm Hmode (Hall c (or_introl eq_refl))).
    cbn [fst snd].
    rewrite IH; [|exact Hmode|intros c' Hc'; apply Hall; right; exact Hc'].
    cbn [_steps set_steps flat_map]. rewrite app_assoc.
    reflexivity.
Qed.

(** C6. In reverse mode, calling an operation that carries no
    [reverse] function throws at once, with a message naming the
    operation, and the accumulated steps are left as they were. *)
Theorem wrap_reverse_mode_without_reverse_throws :
  forall (operation : Operation) (args : op_args operation) (pgm : t),
    _REVERSE_MODE pgm = true ->
    op_reverse operation = None ->
    wrap operation args pgm
    = (pgm,
       inl (mkError ("Impossible to automatically infer down migration for "
                       ++ dq ++ ("pgm." ++ op_name operation ++ "()") ++ dq)))
    /\ _steps (fst (wrap operation args pgm)) = _steps pgm.
Proof.
  intros operation args pgm Hmode Hrev.
  unfold wrap. rewrite Hmode, Hrev. split; reflexivity.
Qed.

Lemma wrap_reverse_mode_without_reverse_throws_witness :
  let pgm := enableReverseMode
               (set_steps new ["ALTER SCHEMA x RENAME TO y;"]) in
  let operation := dropSchema Examples.mOptions in
  let args := (NameStr "s2", no_options) in
  _REVERSE_MODE pgm = true
  /\ op_reverse operation = None
  /\ wrap operation args pgm
     = (pgm, inl (mkError ("Impossible to automatically infer down migration for "
                             ++ dq ++ "pgm._drop()" ++ dq)))
  /\ _steps (fst (wrap operation args pgm)) = ["ALTER SCHEMA x RENAME TO y;"].
Proof.
  intros pgm operation args.
  split; [reflexivity|]. split; [reflexivity|].
  exact (wrap_reverse_mode_without_reverse_throws operation args pgm eq_refl eq_refl).
Defined.

End BuilderFacts.

(* ================================================================= *)
(** ** The migration record *)

Section MigrationFacts.
Import Utils Operations Types World Async.
Import MigrationBuilder.

Variable w : World.t.
Variable options : RunnerOption.t.

Lemma strict_eq_refl_fn (action : MigrationAction) :
  strict_eq (Fn action) (Fn action) = true.
Proof. cbn. apply Nat.eqb_refl. Qed.

Lemma _getMarkAsRun_down (m : Migration.t) (action : MigrationAction) (tr : Trace) :
  strict_eq (Fn action) (Migration.down m) = true ->
  Migration._getMarkAsRun options m action tr
  = ((tr ++ [EvLog ("### MIGRATION " ++ Migration.name m ++ " (DOWN) ###")])%list,
     inr (Migration.delete_statement options m)).
Proof.
  intros Heq. unfold Migration._getMarkAsRun. rewrite Heq. reflexivity.
Qed.

Lemma _getMarkAsRun_up (m : Migration.t) (action : MigrationAction) (tr : Trace) :
  strict_eq (Fn action) (Migration.down m) = false ->
  strict_eq (Fn action) (Migration.up m) = true ->
  Migration._getMarkAsRun options m action tr
  = ((tr ++ [EvLog ("### MIGRATION " ++ Migration.name m ++ " (UP) ###")])%list,
     inr (Migration.insert_statement options m)).
Proof.
  intros Hd Hu. unfold Migration._getMarkAsRun. rewrite Hd, Hu. reflexivity.
Qed.

Lemma _getAction_infers_down (m : Migration.t) (action : MigrationAction) :
  Migration.up m = Fn action ->
  Migration.down m = Undefined ->
  Migration._getAction m Down = (Migration.set_down m (Fn action), inr action).
Proof.
  intros Hup Hdown. unfold Migration._getAction. rewrite Hdown, Hup. reflexivity.
Qed.

(** [_apply] once the body has run and the mark statement is chosen. *)
Lemma _apply_after_body (m : Migration.t) (action : MigrationAction)
      (pgm pgm' : t) (tr tr1 tr2 : Trace) (mark : string) :
  Migration.run_body w (fn_body action (Migration.builder_options w options)) pgm tr
  = (tr1, inr pgm') ->
  Migration._getMarkAsRun options m action tr1 = (tr2, inr mark) ->
  Migration._apply w options m action pgm tr
  = Migration.run_reconciled w options pgm' (getSqlSteps pgm' ++ [mark]) tr2.
Proof.
  intros Hbody Hmark. unfold Migration._apply, bind.
  rewrite Hbody, Hmark. reflexivity.
Qed.

(** Outside a dry run, statements that all succeed are all sent, in
    order. *)
Lemma run_steps_all_succeed (sqlSteps : list string) :
  forall tr : Trace,
    RunnerOption.dryRun options = false ->
    (forall (t : Trace) (text : string), In text sqlSteps -> query w t text = None) ->
    Migration.run_steps w options sqlSteps tr
    = ((tr ++ map EvQuery sqlSteps)%list, inr tt).
Proof.
  induction sqlSteps as [|x l IH]; intros tr Hdry Hok.
  - cbn. rewrite app_nil_r. reflexivity.
  - cbn [Migration.run_steps map]. rewrite Hdry. unfold bind, db_query.
    rewrite (Hok tr x (or_introl eq_refl)).
    rewrite IH; [|exact Hdry|intros t text Ht; apply Hok; right; exact Ht].
    rewrite <- app_assoc. reflexivity.
Qed.

(** C1. A migration that exports only [up], whose body calls only
    operations carrying a reverse function, applied in direction
    down: the [up] action is reused with the builder in reverse mode;
    the body appends every call's reverse result in call order;
    [getSqlSteps] hands back the reversed copy of these steps, that is
    the calls in reverse call order and the statements of each reverse
    result in reverse order too. These statements, followed by the
    DELETE of the history row and wrapped in [BEGIN;] and [COMMIT;]
    outside single-transaction mode, are logged and are what the
    migration runs; outside a dry run, when every one of them
    succeeds, they are exactly what is sent. *)
Theorem auto_down_replays_reverse_in_reverse_call_order :
  forall (m : Migration.t) (action : MigrationAction) (calls : list OpCall)
         (tr : Trace),
    Migration.up m = Fn action ->
    Migration.down m = Undefined ->
    fn_body action (Migration.builder_options w options) = map Call calls ->
    (forall c, In c calls -> has_reverse c = true) ->
    let m' := Migration.set_down m (Fn action) in
    let pgm := Migration.apply_builder m' new in
    let steps := flat_map reverse_statements calls in
    let pgm' := set_steps pgm steps in
    let mark := "DELETE FROM " ++ dq ++ Migration.getMigrationTableSchema options ++ dq
                  ++ "." ++ dq ++ RunnerOption.migrationsTable options ++ dq
                  ++ " WHERE name='" ++ Migration.name m ++ "';" in
    let undo := (List.rev steps ++ [mark])%list in
    let wrapped := if RunnerOption.singleTransaction options
                   then undo
                   else ("BEGIN;" :: undo ++ ["COMMIT;"])%list in
    let logged := (tr ++ [EvLog ("### MIGRATION " ++ Migration.name m ++ " (DOWN) ###");
                          EvLog (join nl wrapped ++ nl ++ nl)])%list in
    Migration._getAction m Down = (m', inr action)
    /\ _REVERSE_MODE pgm = true
    /\ Migration.run_body w (map Call calls) pgm tr = (tr, inr pgm')
    /\ _steps pgm' = steps
    /\ getSqlSteps pgm' = List.rev steps
    /\ List.rev steps
       = flat_map (fun c => List.rev (reverse_statements c)) (List.rev calls)
    /\ Migration.apply w options m Down tr
       = bind (Migration.run_steps w options wrapped) (fun _ => ret m') logged
    /\ (RunnerOption.dryRun options = false ->
        (forall (t : Trace) (text : string), In text wrapped -> query w t text = None) ->
        Migration.apply w options m Down tr
        = ((logged ++ map EvQuery wrapped)%list, inr m')).
Proof.
  intros m action calls tr Hup Hdown Hbody Hall m' pgm steps pgm' mark undo wrapped logged.
  assert (Hact : Migration._getAction m Down = (m', inr action))
    by (apply _getAction_infers_down; assumption).
  assert (Hpgm : pgm = enableReverseMode new).
  { unfold pgm, Migration.apply_builder, m'. cbn [Migration.down Migration.up Migration.set_down].
    rewrite Hup, strict_eq_refl_fn. reflexivity. }
  assert (Hmode : _REVERSE_MODE pgm = true) by (rewrite Hpgm; reflexivity).
  assert (Hrun : Migration.run_body w (map Call calls) pgm tr = (tr, inr pgm')).
  { rewrite (run_body_reversible w calls pgm tr Hmode Hall).
    unfold pgm'. rewrite Hpgm. reflexivity. }
  assert (Hsteps : getSqlSteps pgm' = List.rev steps).
  { unfold getSqlSteps, pgm'. cbn [_REVERSE_MODE _steps set_steps]. rewrite Hmode.
    reflexivity. }
  assert (Hflag : isUsingTransaction pgm' = true).
  { unfold pgm'. rewrite Hpgm. reflexivity. }
  assert (Happly : Migration.apply w options m Down tr
                   = bind (Migration.run_steps w options wrapped)
                          (fun _ => ret m') logged).
  { unfold Migration.apply. rewrite Hact.
    unfold bind at 1. unfold lift.
    unfold bind at 1.
    fold pgm.
    rewrite (_apply_after_body m' action pgm pgm' tr tr
               (tr ++ [EvLog ("### MIGRATION " ++ Migration.name m' ++ " (DOWN) ###")])%list
               (Migration.delete_statement options m')).
    - rewrite Hsteps. unfold Migration.run_reconciled, Migration.reconcile.
      rewrite Hflag. unfold logged, wrapped, undo, mark.
      change (Migration.delete_statement options m')
        with ("DELETE FROM " ++ dq ++ Migration.getMigrationTableSchema options ++ dq
                ++ "." ++ dq ++ RunnerOption.migrationsTable options ++ dq
                ++ " WHERE name='" ++ Migration.name m ++ "';").
      change (Migration.name m') with (Migration.name m).
      destruct (RunnerOption.singleTransaction options); cbn [negb andb orb];
        cbn [Migration.log_all]; unfold bind, log, emit, ret;
        rewrite <- ?app_assoc; reflexivity.
    - rewrite Hbody. exact Hrun.
    - apply _getMarkAsRun_down. unfold m'. cbn [Migration.down Migration.set_down].
      apply strict_eq_refl_fn. }
  repeat split; try assumption.
  - apply flat_map_rev.
  - intros Hdry Hok. rewrite Happly. unfold bind.
    rewrite (run_steps_all_succeed wrapped logged Hdry Hok). reflexivity.
Qed.

(** C4. How [_apply] wraps the statements of one migration (the
    builder's steps followed by the mark statement): outside
    single-transaction mode with the transaction flag set, between
    [BEGIN;] and [COMMIT;]; in single-transaction mode with the flag
    cleared, between [COMMIT;] and [BEGIN;], after a warning; outside
    single-transaction mode with the flag cleared, unwrapped, after a
    warning; in single-transaction mode with the flag set, unwrapped
    and without any warning. *)
Theorem apply_wraps_statements_by_transaction_mode :
  forall (m : Migration.t) (action : MigrationAction) (pgm pgm' : t)
         (tr tr1 tr2 : Trace) (mark : string),
    Migration.run_body w (fn_body action (Migration.builder_options w options)) pgm tr
    = (tr1, inr pgm') ->
    Migration._getMarkAsRun options m action tr1 = (tr2, inr mark) ->
    let single := RunnerOption.singleTransaction options in
    let usingTx := isUsingTransaction pgm' in
    let steps := (getSqlSteps pgm' ++ [mark])%list in
    let dump := fun l : list string => EvLog (join nl l ++ nl ++ nl) in
    let run := fun (l : list string) (logged : list Event) =>
                 Migration.run_steps w options l (tr2 ++ logged)%list in
    (single = false -> usingTx = true ->
     Migration._apply w options m action pgm tr
     = run ("BEGIN;" :: steps ++ ["COMMIT;"])%list
           [dump ("BEGIN;" :: steps ++ ["COMMIT;"])%list])
    /\ (single = true -> usingTx = false ->
        Migration._apply w options m action pgm tr
        = run ("COMMIT;" :: steps ++ ["BEGIN;"])%list
              [EvLog "#> WARNING: Need to break single transaction! <";
               dump ("COMMIT;" :: steps ++ ["BEGIN;"])%list])
    /\ (single = false -> usingTx = false ->
        Migration._apply w options m action pgm tr
        = run steps
              [EvLog "#> WARNING: This migration is not wrapped in a transaction! <";
               dump steps])
    /\ (single = true -> usingTx = true ->
        Migration._apply w options m action pgm tr
        = run steps [dump steps]).
Proof.
  intros m action pgm pgm' tr tr1 tr2 mark Hbody Hmark single usingTx steps dump run.
  rewrite (_apply_after_body m action pgm pgm' tr tr1 tr2 mark Hbody Hmark).
  fold steps. unfold Migration.run_reconciled, Migration.reconcile.
  fold single. fold usingTx.
  repeat split; intros Hs Hu; rewrite Hs, Hu; cbn [negb andb orb];
    unfold run, dump, bind, log, emit; cbn [Migration.log_all];
    unfold bind, log, emit, ret; rewrite <- ?app_assoc; reflexivity.
Qed.

(** C8. When the record's [down] is the very function its [up] is,
    [apply('up')] resolves the [up] action, switches the builder to
    reverse mode, and the mark statement the [switch] picks for that
    action is the one of the [down] case, which is tried first: it is
    logged as DOWN and is the [DELETE FROM .. WHERE name=..] of the
    history row, not the [INSERT INTO ..] of the [up] case. *)
Theorem same_function_up_is_reversed_and_marked_by_delete :
  forall (m : Migration.t) (action : MigrationAction) (tr : Trace),
    Migration.up m = Fn action ->
    Migration.down m = Migration.up m ->
    let mark := "DELETE FROM " ++ dq ++ Migration.getMigrationTableSchema options ++ dq
                  ++ "." ++ dq ++ RunnerOption.migrationsTable options ++ dq
                  ++ " WHERE name='" ++ Migration.name m ++ "';" in
    Migration._getAction m Up = (m, inr action)
    /\ _REVERSE_MODE (Migration.apply_builder m new) = true
    /\ Migration._getMarkAsRun options m action tr
       = ((tr ++ [EvLog ("### MIGRATION " ++ Migration.name m ++ " (DOWN) ###")])%list,
          inr mark)
    /\ mark <> "INSERT INTO " ++ dq ++ Migration.getMigrationTableSchema options ++ dq
                 ++ "." ++ dq ++ RunnerOption.migrationsTable options ++ dq
                 ++ " (name, run_on) VALUES ('" ++ Migration.name m ++ "', NOW());"
    /\ Migration.apply w options m Up tr
       = bind (Migration._apply w options m action (enableReverseMode new))
              (fun _ => ret m) tr.
Proof.
  intros m action tr Hup Hdown mark.
  assert (Hact : Migration._getAction m Up = (m, inr action)).
  { unfold Migration._getAction. cbn [Migration.get]. rewrite Hup. reflexivity. }
  assert (Hb : Migration.apply_builder m new = enableReverseMode new).
  { unfold Migration.apply_builder. rewrite Hdown, Hup, strict_eq_refl_fn. reflexivity. }
  split; [exact Hact|]. split; [rewrite Hb; reflexivity|]. split; [|split].
  - change mark with (Migration.delete_statement options m).
    apply _getMarkAsRun_down. rewrite Hdown, Hup. apply strict_eq_refl_fn.
  - intros H. unfold mark in H. cbn [append] in H. discriminate H.
  - unfold Migration.apply. rewrite Hact, Hb. reflexivity.
Qed.

End MigrationFacts.

Section MigrationWitnesses.
Import Utils Operations Types World Async.
Import MigrationBuilder Examples.

Lemma auto_down_replays_reverse_in_reverse_call_order_witness :
  let calls := reversible_calls (Migration.builder_options world_auto options_down) in
  Migration.up m_auto = Fn up_reversible
  /\ Migration.down m_auto = Undefined
  /\ fn_body up_reversible (Migration.builder_options world_auto options_down) = map Call calls
  /\ (forall c, In c calls -> has_reverse c = true)
  /\ getSqlSteps
       (set_steps
          (Migration.apply_builder (Migration.set_down m_auto (Fn up_reversible)) new)
          (flat_map reverse_statements calls))
     = ["ALTER SCHEMA " ++ quote "s2" ++ " RENAME TO " ++ quote "s1" ++ ";";
        "DROP EXTENSION " ++ quote "b" ++ ";";
        "DROP EXTENSION " ++ quote "a" ++ ";";
        "DROP SCHEMA " ++ quote "s1" ++ ";"]
  /\ queries (fst (Migration.apply world_auto options_down m_auto Down []))
     = ["BEGIN;";
        "ALTER SCHEMA " ++ quote "s2" ++ " RENAME TO " ++ quote "s1" ++ ";";
        "DROP EXTENSION " ++ quote "b" ++ ";";
        "DROP EXTENSION " ++ quote "a" ++ ";";
        "DROP SCHEMA " ++ quote "s1" ++ ";";
        "DELETE FROM " ++ quote "public" ++ "." ++ quote "pgmigrations"
          ++ " WHERE name='1000_auto';";
        "COMMIT;"].
Proof.
  intros calls.
  assert (Hall : forall c, In c calls -> has_reverse c = true).
  { intros c [<-|[<-|[<-|[]]]]; reflexivity. }
  split; [reflexivity|]. split; [reflexivity|]. split; [reflexivity|].
  split; [exact Hall|].
  destruct (auto_down_replays_reverse_in_reverse_call_order
              world_auto options_down m_auto up_reversible calls []
              eq_refl eq_refl eq_refl Hall) as (_ & _ & _ & _ & Hsteps & _ & _ & Hsent).
  split; [rewrite Hsteps; reflexivity|].
  rewrite Hsent; [reflexivity|reflexivity|].
  intros t text _. reflexivity.
Defined.

(** [createSchema('s1'); createExtension(['a', 'b']);
    renameSchema('s1', 's2')] undone: what is sent is not the reverse
    results, each kept as it is, in reverse call order; the two DROP
    EXTENSION statements of the second call come out flipped. *)
Lemma reverse_results_kept_whole_counterexample :
  let calls := reversible_calls (Migration.builder_options world_auto options_down) in
  let sent := queries (fst (Migration.apply world_auto options_down m_auto Down [])) in
  let mark := Migration.delete_statement options_down m_auto in
  Migration.up m_auto = Fn up_reversible
  /\ Migration.down m_auto = Undefined
  /\ fn_body up_reversible (Migration.builder_options world_auto options_down) = map Call calls
  /\ (forall c, In c calls -> has_reverse c = true)
  /\ flat_map reverse_statements (List.rev calls)
     = ["ALTER SCHEMA " ++ quote "s2" ++ " RENAME TO " ++ quote "s1" ++ ";";
        "DROP EXTENSION " ++ quote "a" ++ ";";
        "DROP EXTENSION " ++ quote "b" ++ ";";
        "DROP SCHEMA " ++ quote "s1" ++ ";"]
  /\ sent <> ("BEGIN;" :: flat_map reverse_statements (List.rev calls)
                        ++ [mark; "COMMIT;"])%list.
Proof.
  intros calls sent mark.
  split; [reflexivity|]. split; [reflexivity|]. split; [reflexivity|].
  split; [intros c [<-|[<-|[<-|[]]]]; reflexivity|].
  split; [reflexivity|].
  intros H. vm_compute in H. discriminate H.
Qed.

Lemma apply_wraps_statements_by_transaction_mode_witness :
  let pgm' := set_steps new ["CREATE SCHEMA " ++ quote "s1" ++ ";"] in
  let tr2 := [EvLog "### MIGRATION 1000_A (UP) ###"] in
  let steps := ["BEGIN;"; "CREATE SCHEMA " ++ quote "s1" ++ ";";
                Migration.insert_statement options_up m_A; "COMMIT;"] in
  Migration.run_body world_auto (fn_body up_schema (Migration.builder_options world_auto options_up)) new []
  = ([], inr pgm')
  /\ Migration._getMarkAsRun options_up m_A up_schema []
     = (tr2, inr (Migration.insert_statement options_up m_A))
  /\ Migration._apply world_auto options_up m_A up_schema new []
     = Migration.run_steps world_auto options_up steps
         (tr2 ++ [EvLog (join nl steps ++ nl ++ nl)])%list.
Proof.
  intros pgm' tr2 steps.
  split; [reflexivity|]. split; [reflexivity|].
  destruct (apply_wraps_statements_by_transaction_mode
              world_auto options_up m_A up_schema new pgm' [] [] tr2
              (Migration.insert_statement options_up m_A) eq_refl eq_refl)
    as (Hwrap & _).
  exact (Hwrap eq_refl eq_refl).
Defined.

Lemma same_function_up_is_reversed_and_marked_by_delete_witness :
  Migration.up m_same = Fn up_schema
  /\ Migration.down m_same = Migration.up m_same
  /\ _REVERSE_MODE (Migration.apply_builder m_same new) = true
  /\ Migration._getMarkAsRun options_up m_same up_schema []
     = ([EvLog "### MIGRATION 1500_same (DOWN) ###"],
        inr ("DELETE FROM " ++ quote "public" ++ "." ++ quote "pgmigrations"
               ++ " WHERE name='1500_same';")).
Proof.
  split; [reflexivity|]. split; [reflexivity|].
  destruct (same_function_up_is_reversed_and_marked_by_delete
              world_auto options_up m_same up_schema [] eq_refl eq_refl)
    as (_ & Hmode & Hmark & _).
  split; [exact Hmode|]. rewrite Hmark. reflexivity.
Defined.

End MigrationWitnesses.

(* ================================================================= *)
(** ** The trace-and-error monad *)

Section AsyncFacts.
Import World Async.

Context {A B : Type}.

Lemma bind_inr (m : M A) (k : A -> M B) (tr tr0 : Trace) (a : A) :
  m tr = (tr0, inr a) -> bind m k tr = k a tr0.
Proof. intros H. unfold bind. rewrite H. reflexivity. Qed.

Lemma bind_inl (m : M A) (k : A -> M B) (tr tr0 : Trace) (e : Error) :
  m tr = (tr0, inl e) -> bind m k tr = (tr0, inl e).
Proof. intros H. unfold bind. rewrite H. reflexivity. Qed.

Lemma bind_inr_inv (m : M A) (k : A -> M B) (tr tr' : Trace) (b : B) :
  bind m k tr = (tr', inr b) ->
  exists a tr0, m tr = (tr0, inr a) /\ k a tr0 = (tr', inr b).
Proof.
  unfold bind. destruct (m tr) as [tr0 [e|a]]; intros H; [discriminate|].
  exists a, tr0. split; [reflexivity|exact H].
Qed.

Lemma appends_ret (a : A) : appends (ret a).
Proof. intros tr. exists []. cbn. rewrite app_nil_r. reflexivity. Qed.

Lemma appends_throw (e : Error) : appends (@throw A e).
Proof. intros tr. exists []. cbn. rewrite app_nil_r. reflexivity. Qed.

Lemma appends_lift (r : Result A) : appends (lift r).
Proof. intros tr. exists []. cbn. rewrite app_nil_r. reflexivity. Qed.

End AsyncFacts.

Section AsyncAppends.
Import World Async.

Lemma appends_bind {A B : Type} (m : M A) (k : A -> M B) :
  appends m -> (forall a, appends (k a)) -> appends (bind m k).
Proof.
  intros Hm Hk tr. unfold bind. destruct (Hm tr) as [s1 H1].
  destruct (m tr) as [tr0 [e|a]]; cbn in H1; subst tr0.
  - exists s1. reflexivity.
  - destruct (Hk a (tr ++ s1)%list) as [s2 H2]. exists (s1 ++ s2)%list.
    rewrite H2, app_assoc. reflexivity.
Qed.

Lemma appends_try_catch {A : Type} (m : M A) (h : Error -> M A) :
  appends m -> (forall e, appends (h e)) -> appends (try_catch m h).
Proof.
  intros Hm Hh tr. unfold try_catch. destruct (Hm tr) as [s1 H1].
  destruct (m tr) as [tr0 [e|a]]; cbn in H1; subst tr0.
  - destruct (Hh e (tr ++ s1)%list) as [s2 H2]. exists (s1 ++ s2)%list.
    rewrite H2, app_assoc. reflexivity.
  - exists s1. reflexivity.
Qed.

Lemma appends_emit (ev : Event) : appends (emit ev).
Proof. intros tr. exists [ev]. reflexivity. Qed.

Lemma appends_db_query (w : World.t) (text : string) : appends (db_query w text).
Proof. intros tr. exists [EvQuery text]. reflexivity. Qed.

Lemma appends_db_select (w : World.t) (text : string) : appends (db_select w text).
Proof. intros tr. exists [EvSelect text]. reflexivity. Qed.

Lemma appends_log_all (lines : list string) : appends (Migration.log_all lines).
Proof.
  induction lines as [|l lines IH]; cbn [Migration.log_all].
  - apply appends_ret.
  - apply appends_bind; [apply appends_emit|intros _; exact IH].
Qed.

Lemma appends_if {A : Type} (b : bool) (m1 m2 : M A) :
  appends m1 -> appends m2 -> appends (if b then m1 else m2).
Proof. destruct b; auto. Qed.

End AsyncAppends.

(* ================================================================= *)
(** ** Applying one migration only appends to the trace *)

Section ApplyAppends.
Import Utils Operations Types World Async.

Variable w : World.t.
Variable options : RunnerOption.t.

Lemma appends_exec_cmd (c : Cmd) (pgm : MigrationBuilder.t) :
  appends (Migration.exec_cmd w c pgm).
Proof.
  destruct c; cbn [Migration.exec_cmd].
  - destruct (MigrationBuilder.do_call c pgm) as [pgm' r].
    apply appends_bind; [apply appends_lift|intros; apply appends_ret].
  - apply appends_ret.
  - apply appends_bind; [apply appends_lift|intros].
    apply appends_bind; [apply appends_db_query|intros; apply appends_ret].
  - apply appends_bind; [apply appends_lift|intros].
    apply appends_bind; [apply appends_db_select|intros; apply appends_ret].
  - apply appends_bind; [apply appends_lift|intros text].
    destruct (MigrationBuilder.wrap sql text pgm) as [pgm' r].
    apply appends_bind; [apply appends_lift|intros; apply appends_ret].
  - apply appends_throw.
  - apply appends_ret.
  - apply appends_ret.
Qed.

Lemma appends_run_body (body : list Cmd) :
  forall pgm, appends (Migration.run_body w body pgm).
Proof.
  induction body as [|c body IH]; intros pgm; cbn [Migration.run_body].
  - apply appends_ret.
  - apply appends_bind; [apply appends_exec_cmd|intros pgm'; apply IH].
Qed.

Lemma appends_getMarkAsRun (m : Migration.t) (action : MigrationAction) :
  appends (Migration._getMarkAsRun options m action).
Proof.
  unfold Migration._getMarkAsRun.
  repeat apply appends_if;
    try (apply appends_bind; [apply appends_emit|intros; apply appends_ret]).
  apply appends_throw.
Qed.

Lemma appends_run_steps (sqlSteps : list string) :
  appends (Migration.run_steps w options sqlSteps).
Proof.
  induction sqlSteps as [|text rest IH]; cbn [Migration.run_steps].
  - apply appends_ret.
  - apply appends_bind; [|intros; exact IH].
    apply appends_if; [apply appends_ret|apply appends_db_query].
Qed.

Lemma appends_run_reconciled (pgm : MigrationBuilder.t) (sqlSteps : list string) :
  appends (Migration.run_reconciled w options pgm sqlSteps).
Proof.
  unfold Migration.run_reconciled.
  destruct (Migration.reconcile options pgm sqlSteps) as [warnings steps].
  apply appends_bind; [apply appends_log_all|intros].
  apply appends_bind; [apply appends_emit|intros; apply appends_run_steps].
Qed.

Lemma appends_apply (m : Migration.t) (direction : MigrationDirection) :
  appends (Migration.apply w options m direction).
Proof.
  unfold Migration.apply.
  destruct (Migration._getAction m direction) as [m' r].
  apply appends_bind; [apply appends_lift|intros action].
  apply appends_bind; [|intros; apply appends_ret].
  unfold Migration._apply.
  apply appends_bind; [apply appends_run_body|intros pgm'].
  apply appends_bind; [apply appends_getMarkAsRun|intros mark].
  apply appends_run_reconciled.
Qed.

Lemma appends_markAsRun (m : Migration.t) (direction : MigrationDirection) :
  appends (Migration.markAsRun w options m direction).
Proof.
  unfold Migration.markAsRun.
  destruct (Migration._getAction m direction) as [m' r].
  apply appends_bind; [apply appends_lift|intros action].
  apply appends_bind; [apply appends_getMarkAsRun|intros mark].
  apply appends_bind; [apply appends_db_query|intros; apply appends_ret].
Qed.

Lemma appends_runMigrations (toRun : list Migration.t) (method : Runner.Method)
      (direction : MigrationDirection) :
  appends (Runner.runMigrations w options toRun method direction).
Proof.
  induction toRun as [|m rest IH]; cbn [Runner.runMigrations].
  - apply appends_ret.
  - apply appends_bind; [|intros; exact IH].
    destruct method; [apply appends_markAsRun|apply appends_apply].
Qed.

(** [runMigrations] over a list whose first migrations succeed and
    whose next one fails: the failure is the outcome, the trace is the
    one the failing migration left, and the rest is never started. *)
Lemma runMigrations_stops_at_failure (done : list Migration.t) :
  forall (m : Migration.t) (rest : list Migration.t) (direction : MigrationDirection)
         (tr tr_done tr_fail : Trace) (e : Error),
    Runner.runMigrations w options done Runner.Apply direction tr = (tr_done, inr tt) ->
    Migration.apply w options m direction tr_done = (tr_fail, inl e) ->
    Runner.runMigrations w options (done ++ m :: rest) Runner.Apply direction tr
    = (tr_fail, inl e).
Proof.
  induction done as [|d done IH]; intros m rest direction tr tr_done tr_fail e Hdone Hfail.
  - cbn in Hdone. injection Hdone as <-. cbn [app Runner.runMigrations].
    apply bind_inl. exact Hfail.
  - cbn [app Runner.runMigrations] in *.
    apply bind_inr_inv in Hdone. destruct Hdone as (d' & tr0 & Hd & Hrest).
    rewrite (bind_inr _ _ _ _ _ Hd). apply (IH m rest direction tr0 tr_done); assumption.
Qed.

End ApplyAppends.

(* ================================================================= *)
(** ** The pending set *)

Section SelectionFacts.
Import Utils Operations Types World Async.
Import Runner.

Lemma slice_from_map {A B : Type} (f : A -> B) (start : Z) (l : list A) :
  slice_from start (map f l) = map f (slice_from start l).
Proof. unfold slice_from. rewrite length_map, skipn_map. reflexivity. Qed.

Lemma slice_neg_map {A B : Type} (f : A -> B) (n : number) (l : list A) :
  slice_neg n (map f l) = map f (slice_neg n l).
Proof. destruct n; cbn [slice_neg]; [apply slice_from_map|reflexivity]. Qed.

(** [slice(-z)] for a positive [z]: the last [z] entries. *)
Lemma slice_neg_last {A : Type} (z : Z) (l : list A) :
  (0 < z)%Z -> slice_neg (Int z) l = skipn (List.length l - Z.to_nat z) l.
Proof.
  intros Hz. cbn [slice_neg]. unfold slice_from.
  destruct (Z.ltb_spec (- z) 0) as [_|H]; [|lia].
  f_equal. lia.
Qed.

(** [slice(-0)] is [slice(0)]: the whole array. *)
Lemma slice_neg_zero {A : Type} (l : list A) : slice_neg (Int 0) l = l.
Proof.
  cbn [slice_neg Z.opp]. unfold slice_from. cbn [Z.ltb Z.compare].
  replace (Z.to_nat (Z.min 0 (Z.of_nat (List.length l)))) with 0 by lia.
  reflexivity.
Qed.


Lemma resolve_found (migrations : list Migration.t) (n : string) (m : Migration.t) :
  Js.find (fun m => String.eqb (Migration.name m) n) migrations = Some m ->
  resolve migrations n = Found m /\ Migration.name m = n /\ In m migrations.
Proof.
  intros H. unfold resolve. rewrite H. split; [reflexivity|].
  apply find_some in H. destruct H as [Hin Heq]. apply String.eqb_eq in Heq.
  split; assumption.
Qed.

Lemma deleted_names_resolve (migrations : list Migration.t) (names : list string) :
  deleted_names (map (resolve migrations) names)
  = filter (fun n => negb (has_file migrations n)) names.
Proof.
  induction names as [|n names IH]; [reflexivity|].
  unfold deleted_names in *. cbn [map flat_map filter]. rewrite IH.
  unfold resolve, has_file.
  destruct (Js.find _ migrations); reflexivity.
Qed.

Lemma found_migrations_resolve (migrations : list Migration.t) (names : list string) :
  map Migration.name (found_migrations (map (resolve migrations) names))
  = filter (has_file migrations) names
  /\ incl (found_migrations (map (resolve migrations) names)) migrations.
Proof.
  induction names as [|n names [IHn IHi]]; [split; [reflexivity|intros x []]|].
  unfold found_migrations in *. cbn [map flat_map filter].
  unfold has_file. destruct (Js.find _ migrations) as [m|] eqn:E.
  - destruct (resolve_found _ _ _ E) as (Hr & Hn & Hin). rewrite Hr.
    cbn [app map]. rewrite IHn, Hn. split; [reflexivity|].
    intros x [<-|Hx]; [exact Hin|apply IHi; exact Hx].
  - unfold resolve. rewrite E. cbn [app]. split; [exact IHn|exact IHi].
Qed.

Lemma filter_all_true {A : Type} (p : A -> bool) (l : list A) :
  filter (fun x => negb (p x)) l = [] -> filter p l = l.
Proof.
  induction l as [|x l IH]; cbn [filter]; [reflexivity|].
  destruct (p x); cbn [negb]; [intros H; f_equal; auto|discriminate].
Qed.

(** The outcome of the down branch once the selected entries are known
    to be the resolution of [selected]. *)
Lemma down_outcome (migrations : list Migration.t) (selected : list string) :
  let missing := filter (fun n => negb (has_file migrations n)) selected in
  let outcome :=
    match deleted_names (map (resolve migrations) selected) with
    | _ :: _ =>
        inl (mkError ("Definitions of migrations "
                        ++ join ", " (deleted_names (map (resolve migrations) selected))
                        ++ " have been deleted."))
    | [] => inr (found_migrations (map (resolve migrations) selected))
    end in
  (missing = [] ->
   exists toRun, outcome = inr toRun
                 /\ map Migration.name toRun = selected
                 /\ incl toRun migrations)
  /\ (missing <> [] ->
      outcome = inl (mkError ("Definitions of migrations " ++ join ", " missing
                                ++ " have been deleted."))).
Proof.
  intros missing outcome. subst outcome. rewrite deleted_names_resolve. fold missing.
  destruct (found_migrations_resolve migrations selected) as [Hn Hi].
  split.
  - intros Hm. rewrite Hm. eexists. split; [reflexivity|]. split; [|exact Hi].
    rewrite Hn. apply filter_all_true. exact Hm.
  - intros Hm. destruct missing; [congruence|reflexivity].
Qed.

Lemma getMigrationsToRun_down_count (options : RunnerOption.t) (runNames : list string)
      (migrations : list Migration.t) :
  RunnerOption.direction options = Down ->
  RunnerOption.timestamp options = false ->
  let selected :=
    List.rev (slice_neg (Math_abs (count_or options (Int 1)))
                        (filter (file_matches options) runNames)) in
  getMigrationsToRun options runNames migrations
  = match deleted_names (map (resolve migrations) selected) with
    | _ :: _ =>
        inl (mkError ("Definitions of migrations "
                        ++ join ", " (deleted_names (map (resolve migrations) selected))
                        ++ " have been deleted."))
    | [] => inr (found_migrations (map (resolve migrations) selected))
    end.
Proof.
  intros Hd Ht selected. unfold getMigrationsToRun. rewrite Hd, Ht.
  unfold downMigrations. rewrite slice_neg_map, <- map_rev. fold selected.
  destruct (deleted_names (map (resolve migrations) selected)); reflexivity.
Qed.

Lemma deleted_names_filter_timestamp (options : RunnerOption.t) (l : list DownEntry) :
  deleted_names (List.rev (filter (timestamp_ge options) l)) = [].
Proof.
  unfold deleted_names. rewrite <- filter_rev.
  induction (List.rev l) as [|d l' IH]; [reflexivity|].
  cbn [filter]. destruct d as [m|n]; cbn [timestamp_ge].
  - destruct (match RunnerOption.count options with
              | Some c => ge_num (Migration.timestamp m) c
              | None => false
              end); cbn [flat_map app]; exact IH.
  - exact IH.
Qed.

End SelectionFacts.

(* ================================================================= *)
(** ** Loading the migration files *)

Section LoadingFacts.
Import Utils Operations Types World Async.

Lemma emits_ret {A : Type} (a : A) : emits [] (ret a).
Proof. intros tr. cbn. rewrite app_nil_r. reflexivity. Qed.

Lemma emits_lift {A : Type} (r : Result A) : emits [] (lift r).
Proof. intros tr. cbn. rewrite app_nil_r. reflexivity. Qed.

Lemma emits_throw {A : Type} (e : Error) : emits [] (@throw A e).
Proof. intros tr. cbn. rewrite app_nil_r. reflexivity. Qed.

Lemma emits_nil_eq {A : Type} (m : M A) (tr : Trace) :
  emits [] m -> m tr = (tr, snd (m [])).
Proof. intros H. rewrite (H tr), app_nil_r. reflexivity. Qed.

Lemma emits_bind {A B : Type} (evs : list Event) (m : M A) (k : A -> M B) :
  emits evs m -> (forall a, emits [] (k a)) -> emits evs (bind m k).
Proof.
  intros Hm Hk tr. pose proof (Hm tr) as Htr. pose proof (Hm []) as H0.
  unfold bind. destruct (m []) as [t0 r0]. cbn [snd app] in *.
  injection H0 as ->. rewrite Htr.
  destruct r0 as [e|a]; [reflexivity|].
  rewrite (emits_nil_eq (k a) (tr ++ evs)%list (Hk a)), (emits_nil_eq (k a) evs (Hk a)).
  reflexivity.
Qed.

Lemma emits_try_catch {A : Type} (evs : list Event) (m : M A) (h : Error -> M A) :
  emits evs m -> (forall e, emits [] (h e)) -> emits evs (try_catch m h).
Proof.
  intros Hm Hh tr. pose proof (Hm tr) as Htr. pose proof (Hm []) as H0.
  unfold try_catch. destruct (m []) as [t0 r0]. cbn [snd app] in *.
  injection H0 as ->. rewrite Htr.
  destruct r0 as [e|a]; [|reflexivity].
  rewrite (emits_nil_eq (h e) (tr ++ evs)%list (Hh e)), (emits_nil_eq (h e) evs (Hh e)).
  reflexivity.
Qed.

Lemma emits_all {A : Type} (l : list (M A)) :
  (forall m, In m l -> emits [] m) -> emits [] (all l).
Proof.
  induction l as [|m l IH]; intros Hl.
  - apply emits_ret.
  - assert (Hm : emits [] m) by (apply Hl; left; reflexivity).
    assert (Hr : emits [] (all l)) by (apply IH; intros m' Hm'; apply Hl; right; exact Hm').
    intros tr. cbn [all].
    rewrite (emits_nil_eq m tr Hm), (emits_nil_eq m [] Hm).
    rewrite (emits_nil_eq (all l) tr Hr), (emits_nil_eq (all l) [] Hr).
    cbn [snd]. rewrite app_nil_r. reflexivity.
Qed.

Variable w : World.t.

Lemma emits_fs_readdir (path : string) : emits [EvReaddir path] (fs_readdir w path).
Proof. intros tr. reflexivity. Qed.

Lemma emits_loadMigrationFiles (dir : string) (ignorePattern : option string) :
  emits [EvReaddir (dir ++ "/")] (Migration.loadMigrationFiles w dir ignorePattern).
Proof.
  unfold Migration.loadMigrationFiles.
  apply emits_bind; [apply emits_fs_readdir|intros dirContent].
  apply emits_bind; [|intros stats; apply emits_bind; [apply emits_lift|intros; apply emits_ret]].
  apply emits_all. intros m Hm. apply in_map_iff in Hm. destruct Hm as (file & <- & _).
  apply emits_bind; [apply emits_lift|intros; apply emits_ret].
Qed.

Variable options : RunnerOption.t.

(** Loading touches nothing but the directory, and its outcome does
    not depend on what the executor did before. *)
Lemma emits_loadMigrations :
  emits [EvReaddir (RunnerOption.dir options ++ "/")] (Runner.loadMigrations w options).
Proof.
  unfold Runner.loadMigrations.
  apply emits_try_catch; [|intros; apply emits_throw].
  apply emits_bind; [apply emits_loadMigrationFiles|intros files].
  apply emits_all. intros m Hm. apply in_map_iff in Hm. destruct Hm as (file & <- & _).
  apply emits_bind; [|intros; apply emits_ret].
  destruct (String.eqb _ _); [apply emits_ret|apply emits_lift].
Qed.


End LoadingFacts.

(* ================================================================= *)
(** ** The order check *)

Section CheckOrderFacts.
Import Utils Operations Types World Async.
Import Runner.

Variable runNames : list string.
Variable migrations : list Migration.t.

Lemma checkOrder_loop_ok (n : nat) :
  forall i, (forall j, i <= j < i + n -> agree runNames migrations j) ->
            checkOrder_loop n i runNames migrations = inr tt.
Proof.
  induction n as [|n IH]; intros i Hall; [reflexivity|].
  cbn [checkOrder_loop].
  destruct (Hall i ltac:(lia)) as (r & m & Hr & Hm & ->). rewrite Hr, Hm.
  rewrite String.eqb_refl. cbn [negb]. apply IH. intros j Hj. apply Hall. lia.
Qed.

Lemma checkOrder_loop_ok_inv (n : nat) :
  forall i, i + n <= Nat.min (List.length runNames) (List.length migrations) ->
            checkOrder_loop n i runNames migrations = inr tt ->
            forall j, i <= j < i + n -> agree runNames migrations j.
Proof.
  induction n as [|n IH]; intros i Hlen Hok j Hj; [lia|].
  cbn [checkOrder_loop] in Hok.
  destruct (nth_error runNames i) as [r|] eqn:Hr;
    [|apply nth_error_None in Hr; lia].
  destruct (nth_error migrations i) as [m|] eqn:Hm;
    [|apply nth_error_None in Hm; lia].
  destruct (String.eqb_spec r (Migration.name m)) as [->|Hne]; cbn [negb] in Hok;
    [|discriminate].
  destruct (Nat.eq_dec j i) as [->|Hji].
  - exists (Migration.name m), m. repeat split; assumption.
  - apply (IH (S i)); [lia|exact Hok|lia].
Qed.

Lemma checkOrder_loop_mismatch (n : nat) :
  forall i k runName migration,
    i <= k < i + n ->
    (forall j, i <= j < k -> agree runNames migrations j) ->
    nth_error runNames k = Some runName ->
    nth_error migrations k = Some migration ->
    runName <> Migration.name migration ->
    checkOrder_loop n i runNames migrations = inl (mismatch_error migration runName).
Proof.
  induction n as [|n IH]; intros i k r m Hk Hbefore Hr Hm Hne; [lia|].
  cbn [checkOrder_loop].
  destruct (Nat.eq_dec k i) as [->|Hki].
  - rewrite Hr, Hm. destruct (String.eqb_spec r (Migration.name m)); [contradiction|].
    reflexivity.
  - destruct (Hbefore i ltac:(lia)) as (r' & m' & Hr' & Hm' & ->). rewrite Hr', Hm'.
    rewrite String.eqb_refl. cbn [negb].
    apply (IH (S i) k r m); try assumption; [lia|].
    intros j Hj. apply Hbefore. lia.
Qed.

Lemma nth_error_both_lt (k : nat) (runName : string) (migration : Migration.t) :
  nth_error runNames k = Some runName ->
  nth_error migrations k = Some migration ->
  k < Nat.min (List.length runNames) (List.length migrations).
Proof.
  intros Hr Hm.
  assert (k < List.length runNames) by (apply nth_error_Some; congruence).
  assert (k < List.length migrations) by (apply nth_error_Some; congruence).
  lia.
Qed.

End CheckOrderFacts.

(* ================================================================= *)
(** ** The runner *)

Section RunnerFacts.
Import Utils Operations Types World Async.
Import Runner.

Variable w : World.t.
Variable options : RunnerOption.t.

Lemma appends_eq {A : Type} (m : M A) (tr t : Trace) (r : Result A) :
  appends m -> m tr = (t, r) -> exists suffix, t = (tr ++ suffix)%list.
Proof. intros Hm H. destruct (Hm tr) as [s Hs]. rewrite H in Hs. exists s. exact Hs. Qed.







Lemma runner_after_setup (tr tr1 : Trace) :
  setup w options tr = (tr1, inr tt) ->
  runner w options tr
  = ((fst (load_and_migrate w options tr1) ++ [EvClose])%list,
     snd (load_and_migrate w options tr1)).
Proof.
  intros H. unfold runner, finally. rewrite (bind_inr _ _ _ _ _ H).
  destruct (load_and_migrate w options tr1); reflexivity.
Qed.

Lemma load_and_migrate_loaded (tr1 : Trace) (migrations : list Migration.t)
      (runNames : list string) :
  snd (loadMigrations w options []) = inr migrations ->
  column w (tr1 ++ [EvReaddir (RunnerOption.dir options ++ "/")])%list
         nameColumn (history_query w options) = inr runNames ->
  load_and_migrate w options tr1
  = check_select_and_migrate w options migrations runNames
      (tr1 ++ load_events w options)%list.
Proof.
  intros Hload Hcol. unfold load_and_migrate, bind, all2.
  rewrite (emits_loadMigrations w options tr1), Hload.
  unfold getRunMigrations, db_column. rewrite Hcol.
  unfold load_events. rewrite <- app_assoc. reflexivity.
Qed.


Lemma check_fails (tr3 : Trace) (migrations : list Migration.t) (runNames : list string)
      (e : Error) :
  RunnerOption.checkOrder options = true ->
  checkOrder runNames migrations = inl e ->
  check_select_and_migrate w options migrations runNames tr3 = (tr3, inl e).
Proof.
  intros Hopt Hcheck. unfold check_select_and_migrate. rewrite Hopt, Hcheck. reflexivity.
Qed.

Lemma selection_fails (tr3 : Trace) (migrations : list Migration.t)
      (runNames : list string) (e : Error) :
  (RunnerOption.checkOrder options = true -> checkOrder runNames migrations = inr tt) ->
  getMigrationsToRun options runNames migrations = inl e ->
  check_select_and_migrate w options migrations runNames tr3 = (tr3, inl e).
Proof.
  intros Hcheck Hsel. unfold check_select_and_migrate, bind. rewrite Hsel.
  destruct (RunnerOption.checkOrder options); [rewrite (Hcheck eq_refl)|]; reflexivity.
Qed.

End RunnerFacts.

(* ================================================================= *)
(** ** Failures before any migration is applied *)

Section RunnerFailures.
Import Utils Operations Types World Async.
Import Runner.


(** C5. [checkOrder] walks the positions below the shorter length: it
    passes exactly when all of them agree, and otherwise throws at the
    first position that differs, naming the migration found there and
    the recorded name; the runner then fails with that error having
    issued nothing after the load. With history [A, C] and files
    [A, B, C] the failure is at position 1. *)
Theorem checkOrder_fails_at_first_positional_mismatch :
  forall (runNames : list string) (migrations : list Migration.t),
    (checkOrder runNames migrations = inr tt
     <-> forall j, j < Nat.min (List.length runNames) (List.length migrations) ->
                   agree runNames migrations j)
    /\ (forall i runName migration,
           nth_error runNames i = Some runName ->
           nth_error migrations i = Some migration ->
           runName <> Migration.name migration ->
           (forall j, j < i -> agree runNames migrations j) ->
           i < Nat.min (List.length runNames) (List.length migrations)
           /\ checkOrder runNames migrations = inl (mismatch_error migration runName))
    /\ (forall (w : World.t) (options : RunnerOption.t) (tr tr1 : Trace) (e : Error),
           RunnerOption.checkOrder options = true ->
           setup w options tr = (tr1, inr tt) ->
           snd (loadMigrations w options []) = inr migrations ->
           column w (tr1 ++ [EvReaddir (RunnerOption.dir options ++ "/")])%list
                  nameColumn (history_query w options) = inr runNames ->
           checkOrder runNames migrations = inl e ->
           runner w options tr
           = ((tr1 ++ load_events w options ++ [EvClose])%list, inl e))
    /\ (forall (A C : string) (mA mB mC : Migration.t),
           runNames = [A; C] ->
           migrations = [mA; mB; mC] ->
           Migration.name mA = A ->
           Migration.name mB <> C ->
           checkOrder runNames migrations = inl (mismatch_error mB C)).
Proof.
  intros runNames migrations. split; [|split; [|split]].
  - unfold checkOrder. split.
    + intros Hok j Hj.
      apply (checkOrder_loop_ok_inv runNames migrations _ 0 (le_n _) Hok). lia.
    + intros Hall. apply checkOrder_loop_ok. intros j Hj. apply Hall. lia.
  - intros i runName migration Hr Hm Hne Hbefore.
    pose proof (nth_error_both_lt runNames migrations i runName migration Hr Hm) as Hlt.
    split; [exact Hlt|]. unfold checkOrder.
    apply (checkOrder_loop_mismatch runNames migrations _ 0 i runName migration);
      try assumption; [lia|].
    intros j Hj. apply Hbefore. lia.
  - intros w options tr tr1 e Hopt Hsetup Hload Hcol Hcheck.
    rewrite (runner_after_setup w options tr tr1 Hsetup).
    rewrite (load_and_migrate_loaded w options tr1 migrations runNames Hload Hcol).
    rewrite (check_fails w options _ migrations runNames e Hopt Hcheck). cbn [fst snd].
    rewrite <- app_assoc. reflexivity.
  - intros A C mA mB mC -> -> HA HB. unfold checkOrder. cbn.
    rewrite HA, String.eqb_refl. cbn [negb].
    destruct (String.eqb_spec C (Migration.name mB)) as [E|_]; [congruence|reflexivity].
Qed.

End RunnerFailures.

Section RunnerFailureExamples.
Import Utils Operations Types World Async.
Import Runner Examples.



(** History [A, C], files [A, B, C], direction up: the run fails on
    position 1 and applies nothing. *)
Lemma checkOrder_fails_at_first_positional_mismatch_witness :
  let tr1 := fst (setup world_out_of_order options_up []) in
  checkOrder ["1000_A"; "3000_C"] [m_A; m_B; m_C] = inl (mismatch_error m_B "3000_C")
  /\ runner world_out_of_order options_up []
     = ((tr1 ++ load_events world_out_of_order options_up ++ [EvClose])%list,
        inl (mkError ("Not run migration 2000_B is preceding already run "
                        ++ "migration 3000_C"))).
Proof.
  intros tr1.
  destruct (checkOrder_fails_at_first_positional_mismatch
              ["1000_A"; "3000_C"] [m_A; m_B; m_C]) as (_ & _ & Hrunner & Hex).
  assert (Hcheck : checkOrder ["1000_A"; "3000_C"] [m_A; m_B; m_C]
                   = inl (mismatch_error m_B "3000_C")).
  { apply (Hex "1000_A" "3000_C" m_A m_B m_C); try reflexivity. discriminate. }
  split; [exact Hcheck|].
  apply (Hrunner world_out_of_order options_up [] tr1);
    first [exact Hcheck | vm_compute; reflexivity].
Defined.

End RunnerFailureExamples.

(* ================================================================= *)
(** ** Selecting the migrations to roll back *)

Section DownSelection.
Import Utils Operations Types World Async.
Import Runner.

Lemma found_migrations_rev (l : list DownEntry) :
  found_migrations (List.rev l) = List.rev (found_migrations l).
Proof.
  unfold found_migrations. rewrite flat_map_rev. apply flat_map_ext.
  intros [m|n]; reflexivity.
Qed.

Lemma found_migrations_filter (options : RunnerOption.t) (l : list DownEntry) :
  found_migrations (filter (timestamp_ge options) l)
  = filter (fun m => timestamp_ge options (Found m)) (found_migrations l).
Proof.
  unfold found_migrations.
  induction l as [|d l IH]; [reflexivity|].
  cbn [filter flat_map]. destruct d as [m|n].
  - cbn [app filter]. destruct (timestamp_ge options (Found m)).
    + cbn [flat_map app]. rewrite IH. reflexivity.
    + exact IH.
  - cbn [timestamp_ge app]. exact IH.
Qed.


(** C3, as the code has it. Direction down: the recorded names the
    file filter keeps are resolved to their migrations. In count mode
    with a count other than zero, the last [|count|] of them (one by
    default, all for [Infinity]) are selected, most recent first; the
    run fails, before any migration is applied, with an error listing
    every selected name that has no file, and otherwise returns the
    selected migrations. In timestamp mode the names without a file
    are dropped silently, and the migrations whose timestamp is at
    least the count are returned, most recent first. *)
Theorem down_selection_by_count_or_timestamp :
  forall (options : RunnerOption.t) (runNames : list string)
         (migrations : list Migration.t),
    RunnerOption.direction options = Down ->
    let names := filter (file_matches options) runNames in
    let result := getMigrationsToRun options runNames migrations in
    (RunnerOption.timestamp options = false ->
     forall selected : list string,
       ((exists z, Math_abs (count_or options (Int 1)) = Int z /\ (0 < z)%Z
                   /\ selected = List.rev (skipn (List.length names - Z.to_nat z) names))
        \/ (Math_abs (count_or options (Int 1)) = Infinity
            /\ selected = List.rev names)) ->
       let missing := filter (fun n => negb (has_file migrations n)) selected in
       (missing = [] ->
        exists toRun, result = inr toRun
                      /\ map Migration.name toRun = selected
                      /\ incl toRun migrations)
       /\ (missing <> [] ->
           result = inl (mkError ("Definitions of migrations " ++ join ", " missing
                                    ++ " have been deleted."))))
    /\ (RunnerOption.timestamp options = true ->
        result
        = inr (List.rev
                 (filter (fun m => timestamp_ge options (Found m))
                         (found_migrations (map (resolve migrations) names)))))
    /\ (forall (w : World.t) (tr tr1 : Trace) (e : Error),
           setup w options tr = (tr1, inr tt) ->
           snd (loadMigrations w options []) = inr migrations ->
           column w (tr1 ++ [EvReaddir (RunnerOption.dir options ++ "/")])%list
                  nameColumn (history_query w options) = inr runNames ->
           (RunnerOption.checkOrder options = true ->
            checkOrder runNames migrations = inr tt) ->
           result = inl e ->
           runner w options tr
           = ((tr1 ++ load_events w options ++ [EvClose])%list, inl e)).
Proof.
  intros options runNames migrations Hd names result. split; [|split].
  - intros Ht selected Hsel missing.
    assert (Hselected : selected
                        = List.rev (slice_neg (Math_abs (count_or options (Int 1))) names)).
    { destruct Hsel as [(z & Hz & Hpos & ->)|(Hinf & ->)].
      - rewrite Hz, (slice_neg_last z names Hpos). reflexivity.
      - rewrite Hinf. reflexivity. }
    unfold result. rewrite (getMigrationsToRun_down_count options runNames migrations Hd Ht).
    fold names. rewrite <- Hselected. apply down_outcome.
  - intros Ht. unfold result, getMigrationsToRun. rewrite Hd, Ht.
    rewrite deleted_names_filter_timestamp, found_migrations_rev, found_migrations_filter.
    reflexivity.
  - intros w tr tr1 e Hsetup Hload Hcol Hcheck Hres.
    rewrite (runner_after_setup w options tr tr1 Hsetup).
    rewrite (load_and_migrate_loaded w options tr1 migrations runNames Hload Hcol).
    rewrite (selection_fails w options _ migrations runNames e Hcheck Hres). cbn [fst snd].
    rewrite <- app_assoc. reflexivity.
Qed.

End DownSelection.

Section DownSelectionExamples.
Import Utils Operations Types World Async.
Import Runner Examples.

(** Timestamp mode, cut-off 500, history [1000_A, 2000_B], the file of
    2000_B deleted: the run does not fail, it rolls back 1000_A alone.
    Count 0: [slice(-0)] keeps the whole history, so both recorded
    migrations are selected rather than none. *)
Lemma down_selection_counterexample :
  getMigrationsToRun (with_direction options_up Down (Some (Int 500)) true)
                     ["1000_A"; "2000_B"] [m_A]
  = inr [m_A]
  /\ has_file [m_A] "2000_B" = false
  /\ Migration.split_head "2000_B" = "2000"
  /\ getMigrationsToRun (with_direction options_up Down (Some (Int 0)) false)
                        ["1000_A"; "2000_B"] [m_A; m_B]
     = inr [m_B; m_A].
Proof. repeat split; reflexivity. Qed.

(** Count 2, history [A, B, C], the file of B deleted: C and B are
    selected and the run fails naming B. *)
Lemma down_selection_by_count_or_timestamp_witness :
  let options := with_direction options_up Down (Some (Int 2)) false in
  RunnerOption.direction options = Down
  /\ getMigrationsToRun options ["1000_A"; "2000_B"; "3000_C"] [m_A; m_C]
     = inl (mkError "Definitions of migrations 2000_B have been deleted.").
Proof.
  intros options. split; [reflexivity|].
  destruct (down_selection_by_count_or_timestamp
              options ["1000_A"; "2000_B"; "3000_C"] [m_A; m_C] eq_refl)
    as (Hcount & _ & _).
  destruct (Hcount eq_refl ["3000_C"; "2000_B"]) as (_ & Hmissing).
  - left. exists 2%Z. repeat split; reflexivity.
  - apply Hmissing. discriminate.
Defined.


End DownSelectionExamples.

(* ================================================================= *)
(** ** Failure while migrating *)

Section MigrateFailure.
Import Utils Operations Types World Async.
Import Runner.

Variable w : World.t.
Variable options : RunnerOption.t.

(** A failure of [runMigrations] is the failure of one migration, met
    after the ones before it were applied. *)
Lemma runMigrations_failure_inv (toRun : list Migration.t) :
  forall (direction : MigrationDirection) (tr tr' : Trace) (e : Error),
    runMigrations w options toRun Apply direction tr = (tr', inl e) ->
    exists done m rest tr_done,
      toRun = (done ++ m :: rest)%list
      /\ runMigrations w options done Apply direction tr = (tr_done, inr tt)
      /\ Migration.apply w options m direction tr_done = (tr', inl e).
Proof.
  induction toRun as [|x l IH]; intros direction tr tr' e H; [discriminate|].
  cbn [runMigrations] in H. unfold bind in H.
  destruct (Migration.apply w options x direction tr) as [t0 [e0|x']] eqn:Hx.
  - injection H as <- <-. exists [], x, l, tr. repeat split. exact Hx.
  - destruct (IH direction t0 tr' e H) as (done & m & rest & tr_done & -> & Hdone & Hm).
    exists (x :: done), m, rest, tr_done. repeat split; [|exact Hm].
    cbn [runMigrations]. rewrite (bind_inr _ _ _ _ _ Hx). exact Hdone.
Qed.

Lemma run_steps_last (sqlSteps : list string) (text : string) :
  forall tr tr' : Trace,
    RunnerOption.dryRun options = false ->
    Migration.run_steps w options (sqlSteps ++ [text]) tr = (tr', inr tt) ->
    exists t, tr' = (t ++ [EvQuery text])%list.
Proof.
  induction sqlSteps as [|x l IH]; intros tr tr' Hdry H;
    cbn [app Migration.run_steps] in H; rewrite Hdry in H;
    apply bind_inr_inv in H; destruct H as ([] & t0 & Hq & H).
  - cbn in H. injection H as <-. unfold db_query in Hq. injection Hq as <- _.
    exists tr. reflexivity.
  - exact (IH t0 tr' Hdry H).
Qed.

(** Outside single-transaction mode and dry runs, a migration that was
    applied with its transaction flag set has sent its own [COMMIT;]
    last. *)
Lemma applied_migration_has_committed (m : Migration.t) (action : MigrationAction)
      (pgm pgm' : MigrationBuilder.t) (tr tr1 tr2 tr' : Trace) (mark : string) :
  RunnerOption.singleTransaction options = false ->
  RunnerOption.dryRun options = false ->
  Migration.run_body w (fn_body action (Migration.builder_options w options)) pgm tr
  = (tr1, inr pgm') ->
  Migration._getMarkAsRun options m action tr1 = (tr2, inr mark) ->
  MigrationBuilder.isUsingTransaction pgm' = true ->
  Migration._apply w options m action pgm tr = (tr', inr tt) ->
  exists t, tr' = (t ++ [EvQuery "COMMIT;"])%list.
Proof.
  intros Hsingle Hdry Hbody Hmark Htx H.
  rewrite (_apply_after_body w options m action pgm pgm' tr tr1 tr2 mark Hbody Hmark) in H.
  unfold Migration.run_reconciled, Migration.reconcile in H.
  rewrite Hsingle, Htx in H. cbn [negb andb Migration.log_all] in H.
  apply bind_inr_inv in H. destruct H as ([] & t0 & _ & H).
  apply bind_inr_inv in H. destruct H as ([] & t1 & _ & H).
  exact (run_steps_last ("BEGIN;" :: MigrationBuilder.getSqlSteps pgm' ++ [mark])
                        "COMMIT;" t1 tr' Hdry H).
Qed.

End MigrateFailure.

(* ================================================================= *)
(** * Further properties *)

(* ================================================================= *)
(** ** The utilities *)

Section UtilsFacts.
Import Utils UtilsMore.

(** X1. [getSchemas] never returns an empty list and never an empty
    name: it keeps the non-empty names it is given, in order, and
    falls back on [public] when there is none. *)
Theorem getSchemas_keeps_nonempty_names_or_public :
  forall schema : SchemaOption,
    let given :=
      filter (fun s => negb (String.eqb s EmptyString))
             (match schema with
              | SchemaUndefined => []
              | SchemaOne s => [s]
              | SchemaMany l => l
              end) in
    getSchemas schema <> []
    /\ (forall s, In s (getSchemas schema) -> s <> EmptyString)
    /\ (given = [] -> getSchemas schema = ["public"])
    /\ (given <> [] -> getSchemas schema = given).
Proof.
  intros schema given.
  assert (Heq : getSchemas schema
                = match given with [] => ["public"] | _ :: _ => given end)
    by reflexivity.
  assert (Hgiven : forall s, In s given -> s <> EmptyString).
  { intros s Hs. apply filter_In in Hs. destruct Hs as [_ Hs].
    destruct (String.eqb_spec s EmptyString); [discriminate|assumption]. }
  rewrite Heq. clearbody given. destruct given as [|x rest].
  - split; [discriminate|]. split; [|split; [reflexivity|congruence]].
    intros s [<-|[]]. discriminate.
  - split; [discriminate|]. split; [exact Hgiven|]. split; [discriminate|reflexivity].
Qed.

Lemma sequence_opt_map_some {A B : Type} (f : A -> option B) (l : list A) :
  (forall x, In x l -> exists y, f x = Some y) ->
  exists ys, sequence_opt (map f l) = Some ys
             /\ Forall2 (fun x y => f x = Some y) l ys.
Proof.
  induction l as [|x l IH]; intros H.
  - exists []. split; [reflexivity|constructor].
  - destruct (H x (or_introl eq_refl)) as [y Hy].
    destruct (IH (fun x' Hx' => H x' (or_intror Hx'))) as (ys & Hys & Hall).
    exists (y :: ys). cbn [map sequence_opt]. rewrite Hy, Hys.
    split; [reflexivity|constructor; assumption].
Qed.

(** X2. [escapeValue] returns for every value: the loop of the string
    case ends for every string, at any depth of nested arrays. *)
Theorem escapeValue_returns_for_every_value :
  forall val : Value, exists result : Escaped, escapeValue val = Some result.
Proof.
  fix IH 1. intros [ | b | s | z | l | value | ].
  - eexists; reflexivity.
  - eexists; reflexivity.
  - destruct (escape_loop_returns s) as [d Hd]. cbn [escapeValue]. rewrite Hd.
    eexists; reflexivity.
  - eexists; reflexivity.
  - assert (Hl : exists parts, sequence_opt (map escapeValue l) = Some parts).
    { induction l as [|x l IHl].
      - exists []. reflexivity.
      - destruct (IH x) as [e He]. destruct IHl as [ps Hps].
        exists (e :: ps). cbn [map sequence_opt]. rewrite He, Hps. reflexivity. }
    destruct Hl as [parts Hparts]. cbn [escapeValue]. rewrite Hparts.
    eexists; reflexivity.
  - eexists; reflexivity.
  - eexists; reflexivity.
Qed.

(** *** Arrays *)

Lemma no_A_append (a b : string) : no_A a -> no_A b -> no_A (a ++ b).
Proof.
  induction a as [|c a IH]; cbn [append no_A]; [auto|].
  intros [Hc Ha] Hb. split; [exact Hc|apply IH; assumption].
Qed.

Lemma no_A_number_chars (n : string) :
  forallb is_number_char (list_ascii_of_string n) = true -> no_A n.
Proof.
  induction n as [|c n IH]; cbn [list_ascii_of_string forallb no_A]; [intros; exact I|].
  intros H. apply andb_prop in H. destruct H as [Hc Hn].
  split; [|apply IH; exact Hn].
  intros ->. discriminate Hc.
Qed.

(** The text of a number holds no letter A. *)
Lemma no_A_number_text (n : JsNumber) : is_number_text n -> no_A n.
Proof.
  intros [->|[->|[->|[_ H]]]]; try (cbn; repeat split; discriminate).
  apply no_A_number_chars. exact H.
Qed.

Lemma no_A_join (sep : string) (l : list string) :
  no_A sep -> Forall no_A l -> no_A (join sep l).
Proof.
  intros Hsep Hl. induction Hl as [|x l Hx Hl IH]; [exact I|].
  cbn [join]. destruct l as [|y l]; [exact Hx|].
  apply no_A_append; [exact Hx|]. apply no_A_append; [exact Hsep|exact IH].
Qed.

Lemma prefix_ARRAY_no_A (c : ascii) (rest : string) :
  c <> "A"%char -> prefix "ARRAY" (String c rest) = false.
Proof.
  intros Hc. cbn [prefix]. destruct (ascii_dec "A"%char c); [congruence|reflexivity].
Qed.

Lemma append_empty_r (s : string) : s ++ EmptyString = s.
Proof. induction s as [|c s IH]; cbn [append]; [reflexivity|rewrite IH; reflexivity]. Qed.

(** Text without the letter A goes through the replacement as it is,
    and the replacement then goes on with what follows. *)
Lemma remove_all_from_no_A (a b : string) :
  no_A a ->
  remove_all_from "ARRAY" 0 (a ++ b) = a ++ remove_all_from "ARRAY" 0 b.
Proof.
  induction a as [|c a IH]; intros Ha; [reflexivity|].
  destruct Ha as [Hc Ha]. cbn [append remove_all_from].
  rewrite (prefix_ARRAY_no_A c (a ++ b) Hc), (IH Ha). reflexivity.
Qed.

Lemma remove_ARRAY_no_A (s : string) : no_A s -> remove_ARRAY s = s.
Proof.
  intros Hs. unfold remove_ARRAY.
  rewrite <- (append_empty_r s) at 1.
  rewrite (remove_all_from_no_A s EmptyString Hs). cbn [remove_all_from].
  apply append_empty_r.
Qed.

(** The keyword at the head of the text is dropped. *)
Lemma remove_all_from_keyword (b : string) :
  remove_all_from "ARRAY" 0 ("ARRAY" ++ b) = remove_all_from "ARRAY" 0 b.
Proof.
  cbn. destruct (ascii_dec "A"%char "A"%char); [|congruence].
  destruct (ascii_dec "R"%char "R"%char); [|congruence].
  destruct (ascii_dec "Y"%char "Y"%char); [|congruence].
  destruct b; reflexivity.
Qed.

Lemma append_assoc (a b c : string) : (a ++ b) ++ c = a ++ b ++ c.
Proof. induction a as [|x a IH]; cbn [append]; [reflexivity|rewrite IH; reflexivity]. Qed.

Lemma no_A_escaped_plain_scalar (v : Value) (e : Escaped) :
  plain_scalar v -> escapeValue v = Some e -> no_A (escaped_to_string e).
Proof.
  destruct v as [ | b | s | n | l | value | ]; cbn [plain_scalar escapeValue];
    intros Hv H; try contradiction; injection H as <-; cbn [escaped_to_string].
  - cbn. repeat split; discriminate.
  - destruct b; cbn; repeat split; discriminate.
  - apply no_A_number_text. exact Hv.
Qed.

Lemma plain_scalar_returns (v : Value) :
  plain_scalar v -> exists e, escapeValue v = Some e.
Proof.
  destruct v; cbn [plain_scalar]; intros H; try contradiction; eexists; reflexivity.
Qed.

(** The parts of an array of plain scalars and the text they are
    joined to, which holds no letter A. *)
Lemma array_of_plain_scalars (l : list Value) :
  Forall plain_scalar l ->
  exists parts,
    Forall2 (fun v e => escapeValue v = Some e) l parts
    /\ no_A (join "," (map escaped_to_string parts))
    /\ escapeValue (VArray l)
       = Some (EscString ("ARRAY[" ++ join "," (map escaped_to_string parts) ++ "]")).
Proof.
  intros Hl.
  destruct (sequence_opt_map_some escapeValue l) as (parts & Hseq & Hall).
  { intros v Hv. apply plain_scalar_returns.
    rewrite Forall_forall in Hl. apply Hl. exact Hv. }
  assert (HnoA : no_A (join "," (map escaped_to_string parts))).
  { apply no_A_join; [cbn; split; [discriminate|exact I]|].
    clear Hseq. induction Hall as [|v e l ps Hve Hall IH]; [constructor|].
    inversion Hl; subst. cbn [map]. constructor.
    - exact (no_A_escaped_plain_scalar v e H1 Hve).
    - apply IH. assumption. }
  exists parts. split; [exact Hall|]. split; [exact HnoA|].
  cbn [escapeValue]. rewrite Hseq, (remove_ARRAY_no_A _ HnoA). reflexivity.
Qed.

(** X3. An array of numbers, booleans and nulls is printed as
    [ARRAY[..]] around its elements, each as [escapeValue] prints it,
    separated by commas; nothing of them is dropped. *)
Theorem escapeValue_array_of_plain_scalars :
  forall l : list Value,
    Forall plain_scalar l ->
    exists parts : list Escaped,
      Forall2 (fun v e => escapeValue v = Some e) l parts
      /\ escapeValue (VArray l)
         = Some (EscString ("ARRAY[" ++ join "," (map escaped_to_string parts) ++ "]")).
Proof.
  intros l Hl. destruct (array_of_plain_scalars l Hl) as (parts & Hall & _ & H).
  exists parts. split; assumption.
Qed.

Lemma remove_joined_arrays (bodies : list string) :
  Forall no_A bodies ->
  remove_all_from "ARRAY" 0 (join "," (map (fun b => "ARRAY[" ++ b ++ "]") bodies))
  = join "," (map (fun b => "[" ++ b ++ "]") bodies).
Proof.
  intros H. induction H as [|b bodies Hb Hrest IH]; [reflexivity|].
  assert (Hbr : no_A ("[" ++ b ++ "]")).
  { cbn [append no_A]. split; [discriminate|].
    apply no_A_append; [exact Hb|cbn; split; [discriminate|exact I]]. }
  cbn [map join]. destruct bodies as [|b2 bodies].
  - cbn [map]. change ("ARRAY[" ++ b ++ "]") with ("ARRAY" ++ "[" ++ b ++ "]").
    rewrite remove_all_from_keyword. exact (remove_ARRAY_no_A _ Hbr).
  - cbn [map] in *.
    change (("ARRAY[" ++ b ++ "]") ++ ?x) with ("ARRAY" ++ ("[" ++ b ++ "]") ++ x).
    rewrite remove_all_from_keyword.
    set (rest := join "," (("ARRAY[" ++ b2 ++ "]") :: map (fun b => "ARRAY[" ++ b ++ "]") bodies)) in *.
    rewrite <- (append_assoc ("[" ++ b ++ "]") "," rest).
    rewrite remove_all_from_no_A.
    + rewrite IH, append_assoc. reflexivity.
    + apply no_A_append; [exact Hbr|cbn; split; [discriminate|exact I]].
Qed.

(** X4. An array of arrays of numbers, booleans and nulls: the inner
    arrays lose their [ARRAY] keyword and keep their brackets, so that
    the whole reads [ARRAY[[..],[..]]]. *)
Theorem escapeValue_nested_arrays_keep_one_keyword :
  forall ls : list (list Value),
    Forall (Forall plain_scalar) ls ->
    exists partss : list (list Escaped),
      Forall2 (Forall2 (fun v e => escapeValue v = Some e)) ls partss
      /\ escapeValue (VArray (map VArray ls))
         = Some (EscString
                   ("ARRAY["
                      ++ join "," (map (fun parts =>
                                          "[" ++ join "," (map escaped_to_string parts) ++ "]")
                                       partss)
                      ++ "]")).
Proof.
  intros ls Hls.
  assert (H : exists partss,
             Forall2 (Forall2 (fun v e => escapeValue v = Some e)) ls partss
             /\ Forall no_A (map (fun parts => join "," (map escaped_to_string parts)) partss)
             /\ sequence_opt (map escapeValue (map VArray ls))
                = Some (map (fun parts =>
                               EscString ("ARRAY[" ++ join "," (map escaped_to_string parts)
                                            ++ "]"))
                            partss)).
  { induction Hls as [|l ls Hl Hls IH].
    - exists []. repeat split; constructor.
    - destruct (array_of_plain_scalars l Hl) as (parts & Hall & HnoA & Hesc).
      destruct IH as (partss & Hall2 & HnoA2 & Hseq).
      exists (parts :: partss). split; [constructor; assumption|].
      split; [cbn [map]; constructor; assumption|].
      cbn [map sequence_opt]. cbn [map] in Hseq. rewrite Hesc, Hseq. reflexivity. }
  destruct H as (partss & Hall & HnoA & Hseq).
  exists partss. split; [exact Hall|].
  cbn [escapeValue]. rewrite Hseq. unfold remove_ARRAY.
  rewrite map_map. cbn [escaped_to_string].
  rewrite <- (map_map (fun parts => join "," (map escaped_to_string parts))
                      (fun b => "ARRAY[" ++ b ++ "]")).
  rewrite (remove_joined_arrays _ HnoA), map_map. reflexivity.
Qed.

(** *** Comments *)


(** *** Lines *)










End UtilsFacts.

(* ================================================================= *)
(** ** Operations and the builder context, further *)

Section BuilderMoreFacts.
Import Utils Operations Types World Async.
Import MigrationBuilder Footprint.

Lemma ends_with_semicolon_append (body : string) :
  ends_with_semicolon_or_empty (body ++ ";") = true.
Proof.
  induction body as [|c body IH]; [reflexivity|].
  cbn [append ends_with_semicolon_or_empty].
  destruct (body ++ ";") eqn:E; [destruct body; discriminate|exact IH].
Qed.

Lemma ends_with_semicolon_inv (text : string) :
  ends_with_semicolon_or_empty text = true ->
  text = EmptyString \/ exists body, text = body ++ ";".
Proof.
  induction text as [|c text IH]; intros H; [left; reflexivity|right].
  cbn [ends_with_semicolon_or_empty] in H. destruct text as [|d text].
  - apply Ascii.eqb_eq in H. subst c. exists EmptyString. reflexivity.
  - destruct (IH H) as [E|[body ->]]; [discriminate|].
    exists (String c body). reflexivity.
Qed.

(** X7. [pgm.sql(text)] yields one statement that ends with a
    semicolon whenever the text is not empty: a text that already ends
    with one is kept as it is, any other gets exactly one appended, and
    the empty text stays empty. Formatting a statement once more does
    not change it. *)
Theorem sql_statement_ends_with_one_semicolon :
  forall text : string,
  exists statement : string,
    sql_fn text = One statement
    /\ (text <> EmptyString -> exists body, statement = body ++ ";")
    /\ (forall body, text = body ++ ";" -> statement = text)
    /\ (ends_with_semicolon_or_empty text = false -> statement = text ++ ";")
    /\ (text = EmptyString -> statement = EmptyString)
    /\ sql_fn statement = One statement.
Proof.
  intros text. unfold sql_fn.
  destruct (ends_with_semicolon_or_empty text) eqn:E.
  - exists text. split; [reflexivity|]. split; [|split; [|split; [|split]]].
    + intros Hne. destruct (ends_with_semicolon_inv text E) as [->|H]; [contradiction|exact H].
    + reflexivity.
    + discriminate.
    + auto.
    + rewrite E. reflexivity.
  - exists (text ++ ";"). split; [reflexivity|]. split; [|split; [|split; [|split]]].
    + intros _. exists text. reflexivity.
    + intros body ->. rewrite ends_with_semicolon_append in E. discriminate.
    + reflexivity.
    + intros ->. discriminate.
    + rewrite ends_with_semicolon_append. reflexivity.
Qed.

Lemma do_call_forward (c : OpCall) (pgm : t) :
  _REVERSE_MODE pgm = false ->
  do_call c pgm = (set_steps pgm (_steps pgm ++ statements (forward_result c)), inr tt).
Proof. intros H. apply wrap_forward. exact H. Qed.

Lemma run_body_forward (w : World.t) (calls : list OpCall) :
  forall (pgm : t) (tr : Trace),
    _REVERSE_MODE pgm = false ->
    Migration.run_body w (map Call calls) pgm tr
    = (tr, inr (set_steps pgm
                  (_steps pgm ++ flat_map (fun c => statements (forward_result c)) calls))).
Proof.
  induction calls as [|c calls IH]; intros pgm tr Hmode.
  - cbn. rewrite app_nil_r. destruct pgm; reflexivity.
  - cbn [map]. rewrite run_body_cons, exec_cmd_call, (do_call_forward c pgm Hmode).
    cbn [fst snd]. rewrite IH; [|exact Hmode].
    cbn [_steps set_steps flat_map]. rewrite app_assoc. reflexivity.
Qed.

(** X8. In forward mode a body of operation calls appends the
    statements of every call's forward result, in call order, without
    touching the database, and [getSqlSteps] returns them in that
    order; a fresh builder is in forward mode. *)
Theorem forward_mode_accumulates_in_call_order :
  forall (w : World.t) (calls : list OpCall) (pgm : t) (tr : Trace),
    _REVERSE_MODE pgm = false ->
    let steps := (_steps pgm ++ flat_map (fun c => statements (forward_result c)) calls)%list in
    Migration.run_body w (map Call calls) pgm tr = (tr, inr (set_steps pgm steps))
    /\ getSqlSteps (set_steps pgm steps) = steps
    /\ _REVERSE_MODE new = false.
Proof.
  intros w calls pgm tr Hmode steps. split; [apply run_body_forward; exact Hmode|].
  split; [|reflexivity].
  unfold getSqlSteps. cbn [_REVERSE_MODE set_steps _steps]. rewrite Hmode. reflexivity.
Qed.

(** What one successful call of the body leaves of the context. *)
Lemma exec_cmd_keeps (w : World.t) (c : Cmd) (pgm pgm' : t) (tr tr' : Trace) :
  Migration.exec_cmd w c pgm tr = (tr', inr pgm') ->
  isUsingTransaction pgm' = isUsingTransaction pgm && negb (is_noTransaction c)
  /\ _REVERSE_MODE pgm' = _REVERSE_MODE pgm || is_enableReverseMode c
  /\ (is_write c = false -> is_prefix (_steps pgm) (_steps pgm')).
Proof.
  assert (Hwrap : forall op args p p', wrap op args p = (p', inr tt) ->
                  isUsingTransaction p' = isUsingTransaction p && true
                  /\ _REVERSE_MODE p' = _REVERSE_MODE p || false
                  /\ (false = false -> is_prefix (_steps p) (_steps p'))).
  { intros op args p p'. unfold wrap.
    destruct (_REVERSE_MODE p) eqn:Em; [destruct (op_reverse op) as [r|]|];
      intros H; try discriminate; injection H as <-;
      cbn [_REVERSE_MODE _steps set_steps isUsingTransaction _use_transaction];
      rewrite concat_statements, andb_true_r, orb_false_r;
      (split; [reflexivity|split; [exact Em|intros _; eexists; reflexivity]]). }
  assert (Hsame : isUsingTransaction pgm = isUsingTransaction pgm && true
                  /\ _REVERSE_MODE pgm = _REVERSE_MODE pgm || false
                  /\ (false = false -> is_prefix (_steps pgm) (_steps pgm))).
  { rewrite andb_true_r, orb_false_r.
    split; [reflexivity|split; [reflexivity|]].
    intros _. exists []. rewrite app_nil_r. reflexivity. }
  destruct c as [oc| |text|text|filePath|e| |write];
    cbn [Migration.exec_cmd is_noTransaction is_enableReverseMode is_write negb].
  - unfold do_call. destruct (wrap (call_op oc) (call_args oc) pgm) as [p' [e|[]]] eqn:E;
      cbn; intros H; [discriminate|]. injection H as _ <-. exact (Hwrap _ _ _ _ E).
  - cbn. intros H. injection H as _ <-. cbn [isUsingTransaction noTransaction
      _REVERSE_MODE _steps _use_transaction]. rewrite andb_false_r, orb_false_r.
    split; [reflexivity|split; [reflexivity|]].
    intros _. exists []. rewrite app_nil_r. reflexivity.
  - intros H. apply bind_inr_inv in H. destruct H as ([] & t0 & _ & H).
    apply bind_inr_inv in H. destruct H as ([] & t1 & _ & H). injection H as _ <-.
    exact Hsame.
  - intros H. apply bind_inr_inv in H. destruct H as ([] & t0 & _ & H).
    apply bind_inr_inv in H. destruct H as (rows & t1 & _ & H). injection H as _ <-.
    exact Hsame.
  - intros H. apply bind_inr_inv in H. destruct H as (text & t0 & _ & H).
    destruct (wrap sql text pgm) as [p' [e|[]]] eqn:E; cbn in H; [discriminate|].
    injection H as _ <-. exact (Hwrap _ _ _ _ E).
  - discriminate.
  - cbn. intros H. injection H as _ <-. cbn [isUsingTransaction enableReverseMode
      _REVERSE_MODE _steps _use_transaction]. rewrite andb_true_r, orb_true_r.
    split; [reflexivity|split; [reflexivity|]].
    intros _. exists []. rewrite app_nil_r. reflexivity.
  - cbn. intros H. injection H as _ <-. unfold write_steps.
    rewrite andb_true_r, orb_false_r.
    destruct (_REVERSE_MODE pgm) eqn:Em;
      cbn [isUsingTransaction set_steps _REVERSE_MODE _use_transaction];
      (split; [reflexivity|split; [auto|discriminate]]).
Qed.

Lemma is_prefix_trans {A : Type} (a b c : list A) :
  is_prefix a b -> is_prefix b c -> is_prefix a c.
Proof.
  intros [r1 ->] [r2 ->]. exists (r1 ++ r2)%list. rewrite app_assoc. reflexivity.
Qed.

(** X9. What a body can do to the builder it is given. Whatever it
    does, when it completes the transaction flag is set exactly when it
    was set before and the body never called [noTransaction], and
    reverse mode is on exactly when it was on before or the body
    called [enableReverseMode]: no call switches it off. A body that
    writes nothing through the array [getSqlSteps] returns only adds
    steps: those it found are still there, at the beginning and in
    order. *)
Theorem run_body_changes_the_builder_by_its_calls_only :
  forall (w : World.t) (body : list Cmd) (pgm pgm' : t) (tr tr' : Trace),
    Migration.run_body w body pgm tr = (tr', inr pgm') ->
    isUsingTransaction pgm'
    = isUsingTransaction pgm && negb (existsb is_noTransaction body)
    /\ _REVERSE_MODE pgm' = _REVERSE_MODE pgm || existsb is_enableReverseMode body
    /\ (existsb is_write body = false -> is_prefix (_steps pgm) (_steps pgm')).
Proof.
  intros w body. induction body as [|c body IH]; intros pgm pgm' tr tr' H.
  - cbn in H. injection H as _ <-. cbn [existsb negb]. rewrite andb_true_r, orb_false_r.
    split; [reflexivity|split; [reflexivity|]].
    intros _. exists []. rewrite app_nil_r. reflexivity.
  - cbn [Migration.run_body] in H. apply bind_inr_inv in H.
    destruct H as (p1 & t1 & Hc & Hrest).
    destruct (exec_cmd_keeps w c pgm p1 tr t1 Hc) as (Ht1 & Hm1 & Hs1).
    destruct (IH p1 pgm' t1 tr' Hrest) as (Ht2 & Hm2 & Hs2).
    split; [|split].
    + rewrite Ht2, Ht1. cbn [existsb]. rewrite negb_orb, andb_assoc. reflexivity.
    + rewrite Hm2, Hm1. cbn [existsb]. rewrite orb_assoc. reflexivity.
    + cbn [existsb]. intros Hw. apply orb_false_iff in Hw. destruct Hw as [Hw1 Hw2].
      exact (is_prefix_trans _ _ _ (Hs1 Hw1) (Hs2 Hw2)).
Qed.

(** X10. In reverse mode the side channel to the database is closed:
    a body that, after any number of reversible operation calls, asks
    for [pgm.db.query] or [pgm.db.select] fails there, and no query
    reaches the database. *)
Theorem reverse_mode_closes_the_side_channel :
  forall (w : World.t) (calls : list OpCall) (c : Cmd) (rest : list Cmd)
         (text : string) (pgm : t) (tr : Trace),
    _REVERSE_MODE pgm = true ->
    (forall oc, In oc calls -> has_reverse oc = true) ->
    c = CallDbQuery text \/ c = CallDbSelect text ->
    Migration.run_body w (map Call calls ++ c :: rest) pgm tr
    = (tr, inl (mkError "Impossible to automatically infer down migration")).
Proof.
  intros w calls c rest text pgm tr Hmode Hall Hc.
  revert pgm Hmode. induction calls as [|oc calls IH]; intros pgm Hmode.
  - cbn [map app]. rewrite run_body_cons.
    destruct Hc as [-> | ->]; cbn [Migration.exec_cmd]; unfold wrapDB, bind, lift;
      rewrite Hmode; reflexivity.
  - cbn [map app]. rewrite run_body_cons, exec_cmd_call.
    rewrite (do_call_reverse oc pgm Hmode (Hall oc (or_introl eq_refl))). cbn [fst snd].
    apply IH; [intros oc' Hoc'; apply Hall; right; exact Hoc'|exact Hmode].
Qed.

End BuilderMoreFacts.

(* ================================================================= *)
(** ** The migration record, further *)

Section MigrationMoreFacts.
Import Utils Operations Types World Async.
Import MigrationBuilder Footprint.

Variable w : World.t.
Variable options : RunnerOption.t.

(** The field [_getAction] ends up reading: [this[direction]], after
    an undefined [down] was set to [up]. *)
Lemma _getAction_reads (m : Migration.t) (direction : MigrationDirection) :
  let m' := fst (Migration._getAction m direction) in
  Migration.up m' = Migration.up m
  /\ Migration.name m' = Migration.name m
  /\ (direction = Up -> m' = m)
  /\ (Migration.down m <> Undefined -> m' = m)
  /\ (direction = Down -> Migration.down m = Undefined ->
      m' = Migration.set_down m (Migration.up m)).
Proof.
  unfold Migration._getAction.
  destruct direction, (Migration.down m) eqn:E; cbn [fst];
    repeat split; try reflexivity; try discriminate; try congruence.
Qed.

Lemma _getAction_inr (m m' : Migration.t) (direction : MigrationDirection)
      (action : MigrationAction) :
  Migration._getAction m direction = (m', inr action) ->
  Migration.get m' direction = Fn action.
Proof.
  unfold Migration._getAction. intros H. injection H as Hm' Hr. rewrite Hm' in Hr.
  destruct (Migration.get m' direction); try discriminate. congruence.
Qed.

(** X11. When the requested direction is switched off ([false]) or not
    exported, [apply] and [markAsRun] fail at once with the error that
    says so: nothing is logged and no statement is built or sent. An
    undefined [down] takes over what [up] is, switched off or missing
    included. *)
Theorem unavailable_direction_fails_before_any_effect :
  forall (m : Migration.t) (direction : MigrationDirection) (tr : Trace),
    let field :=
      match direction with
      | Up => Migration.up m
      | Down => match Migration.down m with
                | Undefined => Migration.up m
                | other => other
                end
      end in
    let d := direction_name direction in
    (field = Disabled ->
     let e := mkError ("User has disabled " ++ d ++ " migration on file: "
                         ++ Migration.name m) in
     Migration.apply w options m direction tr = (tr, inl e)
     /\ Migration.markAsRun w options m direction tr = (tr, inl e))
    /\ (field = Undefined ->
        let e := mkError ("Unknown value for direction: " ++ d
                            ++ ". Is the migration " ++ Migration.name m
                            ++ " exporting a '" ++ d ++ "' function?") in
        Migration.apply w options m direction tr = (tr, inl e)
        /\ Migration.markAsRun w options m direction tr = (tr, inl e)).
Proof.
  intros m direction tr field d. subst field d.
  unfold Migration.apply, Migration.markAsRun, Migration._getAction.
  destruct direction; cbn [Migration.get direction_name].
  - split; intros ->; split; reflexivity.
  - destruct (Migration.down m) eqn:Ed.
    + cbn [Migration.get Migration.down Migration.set_down Migration.name].
      split; intros ->; split; reflexivity.
    + cbn [Migration.get]. rewrite Ed. split; intros H; [split; reflexivity|discriminate].
    + cbn [Migration.get]. rewrite Ed. split; intros H; discriminate.
Qed.

Lemma strict_eq_sym (a b : ActionField) : strict_eq a b = strict_eq b a.
Proof. destruct a, b; cbn; try reflexivity. apply Nat.eqb_sym. Qed.

(** X12. The action [_getAction] resolves is always recognised by
    [_getMarkAsRun], which never throws [Unknown direction] for it.
    The mark is that of the down case, logged as DOWN and reading
    [DELETE FROM .. WHERE name=..], when the direction is down and
    also when [down] is the very function [up] is; in every other
    case it is that of the up case, logged as UP and reading
    [INSERT INTO ..]. *)
Theorem resolved_action_is_marked_by_direction :
  forall (m m' : Migration.t) (direction : MigrationDirection)
         (action : MigrationAction) (tr : Trace),
    Migration._getAction m direction = (m', inr action) ->
    let marks_down :=
      match direction with
      | Down => true
      | Up => strict_eq (Migration.down m) (Migration.up m)
      end in
    Migration._getMarkAsRun options m' action tr
    = ((tr ++ [EvLog ("### MIGRATION " ++ Migration.name m
                        ++ (if marks_down then " (DOWN) ###" else " (UP) ###"))])%list,
       inr (if marks_down
            then "DELETE FROM " ++ dq ++ Migration.getMigrationTableSchema options ++ dq
                   ++ "." ++ dq ++ RunnerOption.migrationsTable options ++ dq
                   ++ " WHERE name='" ++ Migration.name m ++ "';"
            else "INSERT INTO " ++ dq ++ Migration.getMigrationTableSchema options ++ dq
                   ++ "." ++ dq ++ RunnerOption.migrationsTable options ++ dq
                   ++ " (name, run_on) VALUES ('" ++ Migration.name m ++ "', NOW());")).
Proof.
  intros m m' direction action tr H marks_down.
  pose proof (_getAction_reads m direction) as (Hup & Hname & _).
  rewrite H in Hup, Hname. cbn [fst] in Hup, Hname.
  pose proof (_getAction_inr m m' direction action H) as Hget.
  assert (Hdel : Migration.delete_statement options m'
                 = "DELETE FROM " ++ dq ++ Migration.getMigrationTableSchema options ++ dq
                     ++ "." ++ dq ++ RunnerOption.migrationsTable options ++ dq
                     ++ " WHERE name='" ++ Migration.name m ++ "';")
    by (unfold Migration.delete_statement; rewrite Hname; reflexivity).
  assert (Hins : Migration.insert_statement options m'
                 = "INSERT INTO " ++ dq ++ Migration.getMigrationTableSchema options ++ dq
                     ++ "." ++ dq ++ RunnerOption.migrationsTable options ++ dq
                     ++ " (name, run_on) VALUES ('" ++ Migration.name m ++ "', NOW());")
    by (unfold Migration.insert_statement; rewrite Hname; reflexivity).
  destruct direction; cbn [Migration.get] in Hget.
  - (* up *)
    assert (Hm' : m' = m).
    { unfold Migration._getAction in H. injection H as Hm' _. symmetry. exact Hm'. }
    subst m'. unfold marks_down.
    destruct (strict_eq (Migration.down m) (Migration.up m)) eqn:Hsame.
    + rewrite <- Hdel. apply _getMarkAsRun_down.
      rewrite <- Hget, strict_eq_sym. exact Hsame.
    + rewrite <- Hins. apply _getMarkAsRun_up.
      * rewrite <- Hget, strict_eq_sym. exact Hsame.
      * rewrite Hget. apply strict_eq_refl_fn.
  - (* down *)
    unfold marks_down. rewrite <- Hdel, <- Hname. apply _getMarkAsRun_down.
    rewrite Hget. apply strict_eq_refl_fn.
Qed.

(** X13. [markAsRun] (what a fake run calls) sends exactly one
    statement, the mark of the resolved action, after its log line;
    the body of the migration is not run, and the outcome is that of
    the statement. *)
Theorem markAsRun_sends_the_mark_statement_only :
  forall (m m' : Migration.t) (direction : MigrationDirection)
         (action : MigrationAction) (tr : Trace),
    Migration._getAction m direction = (m', inr action) ->
    exists line mark : string,
      Migration._getMarkAsRun options m' action tr = ((tr ++ [EvLog line])%list, inr mark)
      /\ (mark = Migration.delete_statement options m
          \/ mark = Migration.insert_statement options m)
      /\ Migration.markAsRun w options m direction tr
         = ((tr ++ [EvLog line; EvQuery mark])%list,
            match query w (tr ++ [EvLog line])%list mark with
            | Some e => inl e
            | None => inr m'
            end).
Proof.
  intros m m' direction action tr H.
  pose proof (_getAction_reads m direction) as (_ & Hname & _).
  rewrite H in Hname. cbn [fst] in Hname.
  assert (Hmark : exists line mark,
             Migration._getMarkAsRun options m' action tr
             = ((tr ++ [EvLog line])%list, inr mark)
             /\ (mark = Migration.delete_statement options m
                 \/ mark = Migration.insert_statement options m)).
  { pose proof (_getAction_inr m m' direction action H) as Hget.
    unfold Migration._getMarkAsRun.
    destruct (strict_eq (Fn action) (Migration.down m')) eqn:Ed.
    - eexists _, _. split; [reflexivity|]. left.
      unfold Migration.delete_statement. rewrite Hname. reflexivity.
    - destruct (strict_eq (Fn action) (Migration.up m')) eqn:Eu.
      + eexists _, _. split; [reflexivity|]. right.
        unfold Migration.insert_statement. rewrite Hname. reflexivity.
      + exfalso. destruct direction; cbn [Migration.get] in Hget;
          rewrite Hget, strict_eq_refl_fn in *; discriminate. }
  destruct Hmark as (line & mark & Hm & Hcases).
  exists line, mark. split; [exact Hm|]. split; [exact Hcases|].
  unfold Migration.markAsRun. rewrite H. unfold bind at 1. unfold lift.
  unfold bind at 1. rewrite Hm. unfold bind, db_query, ret.
  rewrite <- app_assoc. cbn [app].
  destruct (query w (tr ++ [EvLog line])%list mark); reflexivity.
Qed.

(** *** Running the statements *)



End MigrationMoreFacts.

(* ================================================================= *)
(** ** What reaches the trace *)

Section FootprintFacts.
Import Utils Operations Types World Async.
Import MigrationBuilder Footprint.

Variable P : Event -> Prop.

Lemma only_ret {A : Type} (a : A) : only P (ret a).
Proof. intros tr. exists []. cbn. rewrite app_nil_r. split; [reflexivity|constructor]. Qed.

Lemma only_throw {A : Type} (e : Error) : only P (@throw A e).
Proof. intros tr. exists []. cbn. rewrite app_nil_r. split; [reflexivity|constructor]. Qed.

Lemma only_lift {A : Type} (r : Result A) : only P (lift r).
Proof. intros tr. exists []. cbn. rewrite app_nil_r. split; [reflexivity|constructor]. Qed.

Lemma only_bind {A B : Type} (m : M A) (k : A -> M B) :
  only P m -> (forall a, only P (k a)) -> only P (bind m k).
Proof.
  intros Hm Hk tr. unfold bind. destruct (Hm tr) as (s1 & H1 & P1).
  destruct (m tr) as [tr0 [e|a]]; cbn [fst] in H1; subst tr0.
  - exists s1. split; [reflexivity|exact P1].
  - destruct (Hk a (tr ++ s1)%list) as (s2 & H2 & P2). exists (s1 ++ s2)%list.
    rewrite H2, app_assoc. split; [reflexivity|apply Forall_app; split; assumption].
Qed.

Lemma only_try_catch {A : Type} (m : M A) (h : Error -> M A) :
  only P m -> (forall e, only P (h e)) -> only P (try_catch m h).
Proof.
  intros Hm Hh tr. unfold try_catch. destruct (Hm tr) as (s1 & H1 & P1).
  destruct (m tr) as [tr0 [e|a]]; cbn [fst] in H1; subst tr0.
  - destruct (Hh e (tr ++ s1)%list) as (s2 & H2 & P2). exists (s1 ++ s2)%list.
    rewrite H2, app_assoc. split; [reflexivity|apply Forall_app; split; assumption].
  - exists s1. split; [reflexivity|exact P1].
Qed.

Lemma only_if {A : Type} (b : bool) (m1 m2 : M A) :
  only P m1 -> only P m2 -> only P (if b then m1 else m2).
Proof. destruct b; auto. Qed.

Lemma only_all {A : Type} (l : list (M A)) :
  (forall m, In m l -> only P m) -> only P (all l).
Proof.
  induction l as [|m l IH]; intros Hl.
  - apply only_ret.
  - intros tr. cbn [all].
    destruct (Hl m (or_introl eq_refl) tr) as (s1 & H1 & P1).
    destruct (m tr) as [tr1 r]. cbn [fst] in H1. subst tr1.
    destruct (IH (fun m' Hm' => Hl m' (or_intror Hm')) (tr ++ s1)%list) as (s2 & H2 & P2).
    destruct (all l (tr ++ s1)%list) as [tr2 rs]. cbn [fst] in *. subst tr2.
    exists (s1 ++ s2)%list. rewrite app_assoc.
    split; [reflexivity|apply Forall_app; split; assumption].
Qed.

Lemma only_all2 {A B : Type} (first : bool) (a : M A) (b : M B) :
  only P a -> only P b -> only P (all2 first a b).
Proof.
  intros Ha Hb tr. unfold all2.
  destruct (Ha tr) as (s1 & H1 & P1). destruct (a tr) as [tr1 ra].
  cbn [fst] in H1. subst tr1.
  destruct (Hb (tr ++ s1)%list) as (s2 & H2 & P2).
  destruct (b (tr ++ s1)%list) as [tr2 rb]. cbn [fst] in *. subst tr2.
  exists (s1 ++ s2)%list. rewrite app_assoc.
  split; [reflexivity|apply Forall_app; split; assumption].
Qed.

Lemma only_emit (ev : Event) : P ev -> only P (emit ev).
Proof. intros H tr. exists [ev]. split; [reflexivity|constructor; [exact H|constructor]]. Qed.

Lemma only_eq {A : Type} (m : M A) (tr t : Trace) (r : Result A) :
  only P m -> m tr = (t, r) -> exists suffix, t = (tr ++ suffix)%list /\ Forall P suffix.
Proof. intros Hm H. destruct (Hm tr) as (s & Hs & Ps). rewrite H in Hs. exists s. split; assumption. Qed.

Variable w : World.t.

Lemma only_createConnection : P EvConnect -> only P (createConnection w).
Proof. intros H tr. exists [EvConnect]. split; [reflexivity|constructor; [exact H|constructor]]. Qed.

Lemma only_db_query (text : string) : P (EvQuery text) -> only P (db_query w text).
Proof. intros H tr. exists [EvQuery text]. split; [reflexivity|constructor; [exact H|constructor]]. Qed.

Lemma only_db_select (text : string) : P (EvSelect text) -> only P (db_select w text).
Proof. intros H tr. exists [EvSelect text]. split; [reflexivity|constructor; [exact H|constructor]]. Qed.

Lemma only_db_column (col text : string) :
  P (EvColumn col text) -> only P (db_column w col text).
Proof. intros H tr. exists [EvColumn col text]. split; [reflexivity|constructor; [exact H|constructor]]. Qed.

Lemma only_fs_readdir (path : string) : P (EvReaddir path) -> only P (fs_readdir w path).
Proof. intros H tr. exists [EvReaddir path]. split; [reflexivity|constructor; [exact H|constructor]]. Qed.

Hypothesis Plog : forall line, P (EvLog line).

Lemma only_log_all (lines : list string) : only P (Migration.log_all lines).
Proof.
  induction lines as [|l lines IH]; cbn [Migration.log_all].
  - apply only_ret.
  - apply only_bind; [apply only_emit, Plog|intros _; exact IH].
Qed.

Lemma only_getMarkAsRun (options : RunnerOption.t) (m : Migration.t)
      (action : MigrationAction) :
  only P (Migration._getMarkAsRun options m action).
Proof.
  unfold Migration._getMarkAsRun.
  repeat apply only_if;
    try (apply only_bind; [apply only_emit, Plog|intros; apply only_ret]).
  apply only_throw.
Qed.

(** A call that stays within the builder appends nothing at all. *)
Lemma only_exec_cmd_builder (c : Cmd) (pgm : t) :
  builder_only c = true -> only P (Migration.exec_cmd w c pgm).
Proof.
  destruct c; cbn [builder_only Migration.exec_cmd]; intros H; try discriminate.
  - destruct (do_call c pgm) as [pgm' r].
    apply only_bind; [apply only_lift|intros; apply only_ret].
  - apply only_ret.
  - apply only_bind; [apply only_lift|intros text].
    destruct (wrap sql text pgm) as [pgm' r].
    apply only_bind; [apply only_lift|intros; apply only_ret].
  - apply only_throw.
  - apply only_ret.
  - apply only_ret.
Qed.

Lemma only_run_body_builder (body : list Cmd) :
  forallb builder_only body = true ->
  forall pgm, only P (Migration.run_body w body pgm).
Proof.
  induction body as [|c body IH]; cbn [forallb Migration.run_body]; intros H pgm.
  - apply only_ret.
  - apply andb_prop in H. destruct H as [Hc Hb].
    apply only_bind; [apply only_exec_cmd_builder; exact Hc|intros pgm'; apply IH; exact Hb].
Qed.

Lemma only_run_steps_dry (options : RunnerOption.t) (sqlSteps : list string) :
  RunnerOption.dryRun options = true ->
  only P (Migration.run_steps w options sqlSteps).
Proof.
  intros Hdry. induction sqlSteps as [|x l IH]; cbn [Migration.run_steps].
  - apply only_ret.
  - rewrite Hdry. apply only_bind; [apply only_ret|intros; exact IH].
Qed.


Lemma only_lift_inl {A B : Type} (e : Error) (k : A -> M B) :
  only P (bind (lift (inl e)) k).
Proof. intros tr. exists []. cbn. rewrite app_nil_r. split; [reflexivity|constructor]. Qed.

Lemma only_lift_inr {A B : Type} (a : A) (k : A -> M B) :
  only P (k a) -> only P (bind (lift (inr a)) k).
Proof. intros H tr. exact (H tr). Qed.

Lemma only_run_reconciled_dry (options : RunnerOption.t) (pgm : t)
      (sqlSteps : list string) :
  RunnerOption.dryRun options = true ->
  only P (Migration.run_reconciled w options pgm sqlSteps).
Proof.
  intros Hdry. unfold Migration.run_reconciled.
  destruct (Migration.reconcile options pgm sqlSteps) as [warnings steps].
  apply only_bind; [apply only_log_all|intros _].
  apply only_bind; [apply only_emit, Plog|intros _].
  apply only_run_steps_dry; exact Hdry.
Qed.

Lemma only_apply_dry (options : RunnerOption.t) (m : Migration.t)
      (direction : MigrationDirection) :
  RunnerOption.dryRun options = true ->
  (forall action,
      snd (Migration._getAction m direction) = inr action ->
      forallb builder_only
              (fn_body action (Migration.builder_options w options)) = true) ->
  only P (Migration.apply w options m direction).
Proof.
  intros Hdry Hbody. unfold Migration.apply.
  destruct (Migration._getAction m direction) as [m' [e|action]].
  - apply only_lift_inl.
  - apply only_lift_inr.
    apply only_bind; [|intros; apply only_ret].
    unfold Migration._apply.
    apply only_bind;
      [apply only_run_body_builder; apply Hbody; reflexivity|intros pgm'].
    apply only_bind; [apply only_getMarkAsRun|intros mark].
    apply only_run_reconciled_dry; exact Hdry.
Qed.

End FootprintFacts.

(* ================================================================= *)
(** ** Loading the migration files *)

Section LoadFacts.
Import Utils Types World Async.

Lemma ascii_compare_N (a b : ascii) :
  Ascii.compare a b = N.compare (N_of_ascii a) (N_of_ascii b).
Proof. reflexivity. Qed.

Lemma string_leb_trans (a b c : string) :
  String.leb a b = true -> String.leb b c = true -> String.leb a c = true.
Proof.
  unfold String.leb. revert b c.
  induction a as [|x a IH]; intros [|y b] [|z c]; cbn [String.compare];
    try reflexivity; try discriminate.
  rewrite !ascii_compare_N.
  destruct (N.compare_spec (N_of_ascii x) (N_of_ascii y)) as [Hxy|Hxy|Hxy];
    destruct (N.compare_spec (N_of_ascii y) (N_of_ascii z)) as [Hyz|Hyz|Hyz];
    try discriminate; intros H1 H2.
  - rewrite Hxy, Hyz, N.compare_refl. apply (IH b c); assumption.
  - rewrite Hxy. apply N.compare_lt_iff in Hyz. rewrite Hyz. reflexivity.
  - rewrite <- Hyz. apply N.compare_lt_iff in Hxy. rewrite Hxy. reflexivity.
  - assert (H : (N_of_ascii x < N_of_ascii z)%N) by lia.
    apply N.compare_lt_iff in H. rewrite H. reflexivity.
Qed.

Lemma insert_sorted_In (x y : string) (l : list string) :
  In y (Migration.insert_sorted x l) <-> y = x \/ In y l.
Proof.
  induction l as [|z l IH]; cbn [Migration.insert_sorted].
  - cbn. intuition.
  - destruct (String.leb x z); cbn [In]; [intuition|]. rewrite IH. cbn. intuition.
Qed.

Lemma sort_In (y : string) (l : list string) : In y (Migration.sort l) <-> In y l.
Proof.
  induction l as [|x l IH]; [reflexivity|].
  cbn [Migration.sort fold_right]. rewrite insert_sorted_In.
  fold (Migration.sort l). rewrite IH. cbn. intuition.
Qed.

Lemma insert_sorted_sorted (x : string) (l : list string) :
  StronglySorted (fun a b => String.leb a b = true) l ->
  StronglySorted (fun a b => String.leb a b = true) (Migration.insert_sorted x l).
Proof.
  induction 1 as [|z l Hl IH Hz]; cbn [Migration.insert_sorted].
  - constructor; constructor.
  - destruct (String.leb x z) eqn:E.
    + constructor; [constructor; assumption|].
      constructor; [exact E|].
      apply Forall_forall. intros y Hy. rewrite Forall_forall in Hz.
      apply (string_leb_trans x z y); [exact E|apply Hz; exact Hy].
    + constructor; [exact IH|].
      apply Forall_forall. intros y Hy. apply insert_sorted_In in Hy.
      destruct Hy as [->|Hy].
      * destruct (String.leb_total x z) as [H|H]; [congruence|exact H].
      * rewrite Forall_forall in Hz. apply Hz; exact Hy.
Qed.

Lemma sort_sorted (l : list string) :
  StronglySorted (fun a b => String.leb a b = true) (Migration.sort l).
Proof.
  induction l as [|x l IH]; [constructor|].
  cbn [Migration.sort fold_right]. apply insert_sorted_sorted. exact IH.
Qed.

Lemma filter_sorted {A : Type} (R : A -> A -> Prop) (p : A -> bool) (l : list A) :
  StronglySorted R l -> StronglySorted R (filter p l).
Proof.
  induction 1 as [|x l Hl IH Hx]; cbn [filter]; [constructor|].
  destruct (p x); [|exact IH].
  constructor; [exact IH|].
  apply Forall_forall. intros y Hy. apply filter_In in Hy.
  rewrite Forall_forall in Hx. apply Hx, Hy.
Qed.

Variable w : World.t.

(** The [Promise.all] over the [lstat] calls when each of them succeeds. *)
Lemma all_lstat_ok (dir : string) (reg : string -> bool) (content : list string)
      (tr : Trace) :
  (forall f, In f content -> isFile w (dir ++ "/" ++ f) = inr (reg f)) ->
  all (map (fun file =>
              bind (lift (isFile w (dir ++ "/" ++ file)))
                   (fun isfile => ret (if isfile then Some file else None)))
           content) tr
  = (tr, inr (map (fun f => if reg f then Some f else None) content)).
Proof.
  induction content as [|f content IH]; intros H; [reflexivity|].
  cbn [map all]. unfold bind at 1, lift at 1.
  rewrite (H f (or_introl eq_refl)). cbn [ret].
  rewrite IH; [reflexivity|]. intros g Hg. apply H. right. exact Hg.
Qed.

(** The [lstat] calls leave no event. *)
Lemma all_lstat_trace (dir : string) (content : list string) (tr : Trace) :
  fst (all (map (fun file =>
                   bind (lift (isFile w (dir ++ "/" ++ file)))
                        (fun isfile => ret (if isfile then Some file else None)))
                content) tr)
  = tr.
Proof.
  induction content as [|c content IH]; [reflexivity|].
  cbn [map all]. unfold bind at 1, lift at 1.
  destruct (isFile w (dir ++ "/" ++ c)) as [ec|bc]; cbn [ret];
    destruct (all _ tr) as [t3 rs3]; exact IH.
Qed.

(** The [Promise.all] over the [lstat] calls when one of them fails. *)
Lemma all_lstat_fails (dir : string) (content : list string) (f : string)
      (e : Error) (tr : Trace) :
  In f content -> isFile w (dir ++ "/" ++ f) = inl e ->
  exists e',
    all (map (fun file =>
                bind (lift (isFile w (dir ++ "/" ++ file)))
                     (fun isfile => ret (if isfile then Some file else None)))
             content) tr
    = (tr, inl e').
Proof.
  intros Hin He. induction content as [|g content IH]; [destruct Hin|].
  pose proof (all_lstat_trace dir content tr) as Ht.
  cbn [map all]. unfold bind at 1, lift at 1.
  destruct (isFile w (dir ++ "/" ++ g)) as [eg|b] eqn:Eg.
  - destruct (all _ tr) as [t2 rs]. cbn [fst] in Ht. subst t2.
    exists eg. reflexivity.
  - destruct Hin as [->|Hin]; [congruence|].
    destruct (IH Hin) as (e' & He'). cbn [ret]. rewrite He'. exists e'. reflexivity.
Qed.

Lemma insert_sorted_perm (x : string) (l : list string) :
  Permutation (Migration.insert_sorted x l) (x :: l).
Proof.
  induction l as [|y l IH]; cbn [Migration.insert_sorted]; [apply Permutation_refl|].
  destruct (String.leb x y); [apply Permutation_refl|].
  apply perm_trans with (y :: x :: l); [apply perm_skip; exact IH|apply perm_swap].
Qed.

Lemma sort_perm (l : list string) : Permutation (Migration.sort l) l.
Proof.
  induction l as [|x l IH]; [apply Permutation_refl|].
  cbn [Migration.sort fold_right].
  apply perm_trans with (x :: Migration.sort l); [apply insert_sorted_perm|].
  apply perm_skip. exact IH.
Qed.

Lemma filter_perm {A : Type} (p : A -> bool) (l l' : list A) :
  Permutation l l' -> Permutation (filter p l) (filter p l').
Proof.
  induction 1 as [|x l l' H IH|x y l|l l' l'' H1 IH1 H2 IH2]; cbn [filter].
  - apply Permutation_refl.
  - destruct (p x); [apply perm_skip|]; exact IH.
  - destruct (p x), (p y); try apply Permutation_refl. apply perm_swap.
  - exact (perm_trans IH1 IH2).
Qed.

Lemma filter_filter {A : Type} (p q : A -> bool) (l : list A) :
  filter q (filter p l) = filter (fun x => p x && q x) l.
Proof.
  induction l as [|x l IH]; [reflexivity|]. cbn [filter].
  destruct (p x); cbn [andb filter]; [destruct (q x)|]; rewrite IH; reflexivity.
Qed.

(** The entries that the [filter(Boolean)] keeps of the [lstat]
    results. *)
Lemma regular_named_entries (reg : string -> bool) (content : list string) :
  flat_map (fun f => match f with
                     | Some file => if String.eqb file EmptyString then [] else [file]
                     | None => []
                     end)
           (map (fun f => if reg f then Some f else None) content)
  = filter (fun f => reg f && negb (String.eqb f EmptyString)) content.
Proof.
  induction content as [|f content IH]; [reflexivity|].
  cbn [map flat_map filter]. rewrite IH.
  destruct (reg f); cbn [andb app]; [|reflexivity].
  destruct (String.eqb f EmptyString); reflexivity.
Qed.

(** X15. When the directory can be read, every entry can be examined
    and the ignore pattern makes a regular expression,
    [loadMigrationFiles] reads the directory once and returns, in
    ascending order of their names, exactly the entries, each as often
    as the directory lists it, that are regular files with a non-empty
    name and that the ignore pattern, when there is one, does not
    match. *)
Theorem loadMigrationFiles_returns_sorted_regular_files :
  forall (dir : string) (ignorePattern : option string) (content : list string)
         (reg ignored : string -> bool) (tr : Trace),
    readdir w (dir ++ "/") = inr content ->
    (forall f, In f content -> isFile w (dir ++ "/" ++ f) = inr (reg f)) ->
    regexp w ("^(" ++ match ignorePattern with
                      | Some p => p
                      | None => "undefined"
                      end ++ ")$") = inr ignored ->
    let kept := fun f : string =>
                  reg f && negb (String.eqb f EmptyString)
                  && match ignorePattern with
                     | Some _ => negb (ignored f)
                     | None => true
                     end in
    exists files : list string,
      Migration.loadMigrationFiles w dir ignorePattern tr
      = ((tr ++ [EvReaddir (dir ++ "/")])%list, inr files)
      /\ StronglySorted (fun a b => String.leb a b = true) files
      /\ Permutation files (filter kept content)
      /\ (forall f, In f files <-> In f content /\ kept f = true).
Proof.
  intros dir ignorePattern content reg ignored tr Hdir Hstat Hre kept.
  set (named := filter (fun f => reg f && negb (String.eqb f EmptyString)) content).
  set (files := Migration.sort named).
  set (result := match ignorePattern with
                 | None => files
                 | Some _ => filter (fun i => negb (ignored i)) files
                 end).
  assert (Hrun : Migration.loadMigrationFiles w dir ignorePattern tr
                 = ((tr ++ [EvReaddir (dir ++ "/")])%list, inr result)).
  { unfold Migration.loadMigrationFiles. unfold bind at 1. unfold fs_readdir.
    rewrite Hdir. unfold bind at 1.
    rewrite (all_lstat_ok dir reg content _ Hstat).
    unfold bind, lift. rewrite Hre, regular_named_entries. reflexivity. }
  assert (Hperm : Permutation result (filter kept content)).
  { unfold result, kept. destruct ignorePattern as [p|].
    - rewrite <- (filter_filter (fun f => reg f && negb (String.eqb f EmptyString))
                                (fun f => negb (ignored f)) content).
      apply filter_perm, sort_perm.
    - apply perm_trans with named; [apply sort_perm|].
      unfold named. erewrite filter_ext; [apply Permutation_refl|].
      intros f. cbn beta. rewrite andb_true_r. reflexivity. }
  exists result. split; [exact Hrun|]. split; [|split; [exact Hperm|]].
  - unfold result. destruct ignorePattern; [apply filter_sorted|]; apply sort_sorted.
  - intros f. rewrite <- filter_In. split; intros H.
    + exact (Permutation_in f Hperm H).
    + exact (Permutation_in f (Permutation_sym Hperm) H).
Qed.

(** X16. One directory entry that cannot be examined makes the whole
    load fail, whether or not the entry would have been kept: the
    [lstat] calls come before the ignore pattern is looked at. *)
Theorem loadMigrationFiles_fails_when_an_entry_cannot_be_examined :
  forall (dir : string) (ignorePattern : option string) (content : list string)
         (f : string) (e : Error) (tr : Trace),
    readdir w (dir ++ "/") = inr content ->
    In f content ->
    isFile w (dir ++ "/" ++ f) = inl e ->
    exists e' : Error,
      Migration.loadMigrationFiles w dir ignorePattern tr
      = ((tr ++ [EvReaddir (dir ++ "/")])%list, inl e').
Proof.
  intros dir ignorePattern content f e tr Hdir Hin He.
  unfold Migration.loadMigrationFiles. unfold bind at 1. unfold fs_readdir.
  rewrite Hdir. unfold bind at 1.
  destruct (all_lstat_fails dir content f e (tr ++ [EvReaddir (dir ++ "/")])%list Hin He)
    as (e' & He').
  rewrite He'. exists e'. reflexivity.
Qed.

End LoadFacts.

(* ================================================================= *)
(** ** The runner: what it sends, and when *)

Section RunnerFootprint.
Import Utils Operations Types World Async.
Import MigrationBuilder Footprint Runner.

Variable P : Event -> Prop.
Variable w : World.t.
Variable options : RunnerOption.t.

Lemma only_ensureMigrationsTable :
  P (EvSelect (select_tables_query options)) ->
  P (EvSelect (select_constraints_query options)) ->
  (forall text, P (EvQuery text)) ->
  only P (ensureMigrationsTable w options).
Proof.
  intros H1 H2 HQ. unfold ensureMigrationsTable.
  apply only_try_catch; [|intros; apply only_throw].
  apply only_bind; [apply only_db_select; exact H1|intros migrationTables].
  apply only_if; [|apply only_db_query, HQ].
  apply only_bind; [apply only_db_select; exact H2|intros primaryKeyConstraints].
  apply only_if; [apply only_db_query, HQ|apply only_ret].
Qed.

Lemma only_prepare :
  P (EvSelect (select_tables_query options)) ->
  P (EvSelect (select_constraints_query options)) ->
  (forall text, P (EvQuery text)) ->
  only P (RunnerSteps.prepare w options).
Proof.
  intros H1 H2 HQ. unfold RunnerSteps.prepare.
  apply only_bind; [|intros _].
  { apply only_if; [|apply only_ret].
    apply only_bind; [|intros _; apply only_db_query, HQ].
    apply only_if; [|apply only_ret].
    apply only_bind; [|intros; apply only_ret].
    apply only_all. intros m Hm. apply in_map_iff in Hm.
    destruct Hm as (x & <- & _). apply only_db_query, HQ. }
  apply only_bind; [|intros _].
  { apply only_if; [apply only_db_query, HQ|apply only_ret]. }
  apply only_ensureMigrationsTable; assumption.
Qed.

Lemma only_connect_and_ensure :
  P EvConnect ->
  P (EvSelect (select_tables_query options)) ->
  P (EvSelect (select_constraints_query options)) ->
  (forall text, P (EvQuery text)) ->
  only P (RunnerSteps.connect_and_ensure w options).
Proof.
  intros H0 H1 H2 HQ. unfold RunnerSteps.connect_and_ensure.
  apply only_bind; [apply only_createConnection; exact H0|intros _].
  apply only_prepare; assumption.
Qed.

Lemma only_lock_unless_noLock :
  (RunnerOption.noLock options = false -> P (EvSelect lock_query)) ->
  only P (RunnerSteps.lock_unless_noLock w options).
Proof.
  intros HL. unfold RunnerSteps.lock_unless_noLock.
  destruct (RunnerOption.noLock options); cbn [negb].
  - apply only_ret.
  - unfold lock.
    apply only_bind; [apply only_db_select, HL; reflexivity|intros [|row rows]].
    + apply only_throw.
    + apply only_ret.
Qed.

Lemma only_lock : P (EvSelect lock_query) -> only P (lock w).
Proof.
  intros H. unfold lock.
  apply only_bind; [apply only_db_select; exact H|intros [|row rows]].
  - apply only_throw.
  - apply only_ret.
Qed.

Lemma bind_assoc_at {A B C : Type} (m : M A) (f : A -> M B) (g : B -> M C) (tr : Trace) :
  bind (bind m f) g tr = bind m (fun a => bind (f a) g) tr.
Proof. unfold bind. destruct (m tr) as [t [e|a]]; reflexivity. Qed.

Lemma bind_ext_at {A B : Type} (m : M A) (f g : A -> M B) (tr : Trace) :
  (forall a t, f a t = g a t) -> bind m f tr = bind m g tr.
Proof. intros H. unfold bind. destruct (m tr) as [t [e|a]]; [reflexivity|apply H]. Qed.

(** [setup] is [connect_and_ensure] followed by the lock. *)
Lemma setup_steps (tr : Trace) :
  setup w options tr
  = bind (RunnerSteps.connect_and_ensure w options)
         (fun _ => RunnerSteps.lock_unless_noLock w options) tr.
Proof.
  symmetry.
  unfold RunnerSteps.connect_and_ensure, RunnerSteps.prepare,
    RunnerSteps.lock_unless_noLock, setup.
  rewrite bind_assoc_at. apply bind_ext_at. intros _ t1.
  rewrite bind_assoc_at. apply bind_ext_at. intros _ t2.
  rewrite bind_assoc_at. apply bind_ext_at. intros _ t3.
  reflexivity.
Qed.

Lemma bind_cong_at {A B : Type} (m m' : M A) (k : A -> M B) (tr : Trace) :
  m tr = m' tr -> bind m k tr = bind m' k tr.
Proof. intros H. unfold bind. rewrite H. reflexivity. Qed.

(** The runner before it closes the connection, step by step. *)
Lemma runner_steps (tr : Trace) :
  bind (setup w options) (fun _ => load_and_migrate w options) tr
  = bind (createConnection w)
         (fun _ => bind (RunnerSteps.prepare w options)
                        (fun _ => bind (RunnerSteps.lock_unless_noLock w options)
                                       (fun _ => load_and_migrate w options))) tr.
Proof.
  rewrite (bind_cong_at _ _ _ tr (setup_steps tr)).
  rewrite bind_assoc_at. unfold RunnerSteps.connect_and_ensure.
  rewrite bind_assoc_at. reflexivity.
Qed.

Lemma only_setup :
  P EvConnect ->
  P (EvSelect (select_tables_query options)) ->
  P (EvSelect (select_constraints_query options)) ->
  (forall text, P (EvQuery text)) ->
  (RunnerOption.noLock options = false -> P (EvSelect lock_query)) ->
  only P (setup w options).
Proof.
  intros H0 H1 H2 HQ HL tr. rewrite setup_steps. revert tr.
  apply only_bind; [apply only_connect_and_ensure; assumption|intros _].
  apply only_lock_unless_noLock. exact HL.
Qed.

End RunnerFootprint.

Section RunnerKeepsOpen.
Import Utils Operations Types World Async.
Import MigrationBuilder Footprint Runner.

Variable P : Event -> Prop.
Hypothesis HP : forall ev, ev <> EvClose -> P ev.
Variable w : World.t.
Variable options : RunnerOption.t.

Lemma open_log (line : string) : P (EvLog line).
Proof. apply HP. discriminate. Qed.

Lemma open_query (text : string) : P (EvQuery text).
Proof. apply HP. discriminate. Qed.

Lemma open_select (text : string) : P (EvSelect text).
Proof. apply HP. discriminate. Qed.

Lemma open_exec_cmd (c : Cmd) (pgm : t) : only P (Migration.exec_cmd w c pgm).
Proof.
  destruct c; cbn [Migration.exec_cmd].
  - destruct (do_call c pgm) as [pgm' r].
    apply only_bind; [apply only_lift|intros; apply only_ret].
  - apply only_ret.
  - apply only_bind; [apply only_lift|intros _].
    apply only_bind; [apply only_db_query, open_query|intros; apply only_ret].
  - apply only_bind; [apply only_lift|intros _].
    apply only_bind; [apply only_db_select, open_select|intros; apply only_ret].
  - apply only_bind; [apply only_lift|intros text].
    destruct (wrap sql text pgm) as [pgm' r].
    apply only_bind; [apply only_lift|intros; apply only_ret].
  - apply only_throw.
  - apply only_ret.
  - apply only_ret.
Qed.

Lemma open_run_body (body : list Cmd) (pgm : t) : only P (Migration.run_body w body pgm).
Proof.
  revert pgm. induction body as [|c body IH]; intros pgm; cbn [Migration.run_body].
  - apply only_ret.
  - apply only_bind; [apply open_exec_cmd|intros pgm'; apply IH].
Qed.

Lemma open_run_steps (sqlSteps : list string) :
  only P (Migration.run_steps w options sqlSteps).
Proof.
  induction sqlSteps as [|x l IH]; cbn [Migration.run_steps].
  - apply only_ret.
  - apply only_bind; [|intros; exact IH].
    apply only_if; [apply only_ret|apply only_db_query, open_query].
Qed.

Lemma open_apply (m : Migration.t) (direction : MigrationDirection) :
  only P (Migration.apply w options m direction).
Proof.
  unfold Migration.apply.
  destruct (Migration._getAction m direction) as [m' r].
  apply only_bind; [apply only_lift|intros action].
  apply only_bind; [|intros; apply only_ret].
  unfold Migration._apply.
  apply only_bind; [apply open_run_body|intros pgm'].
  apply only_bind; [apply only_getMarkAsRun, open_log|intros mark].
  unfold Migration.run_reconciled.
  destruct (Migration.reconcile options pgm' _) as [warnings steps].
  apply only_bind; [apply only_log_all, open_log|intros _].
  apply only_bind; [apply only_emit, open_log|intros _].
  apply open_run_steps.
Qed.

Lemma open_markAsRun (m : Migration.t) (direction : MigrationDirection) :
  only P (Migration.markAsRun w options m direction).
Proof.
  unfold Migration.markAsRun.
  destruct (Migration._getAction m direction) as [m' r].
  apply only_bind; [apply only_lift|intros action].
  apply only_bind; [apply only_getMarkAsRun, open_log|intros mark].
  apply only_bind; [apply only_db_query, open_query|intros; apply only_ret].
Qed.

Lemma open_runMigrations (toRun : list Migration.t) (method : Method)
      (direction : MigrationDirection) :
  only P (runMigrations w options toRun method direction).
Proof.
  induction toRun as [|m toRun IH]; cbn [runMigrations].
  - apply only_ret.
  - apply only_bind; [|intros; exact IH].
    destruct method; [apply open_markAsRun|apply open_apply].
Qed.

Lemma open_migrate (toRun : list Migration.t) : only P (migrate w options toRun).
Proof.
  unfold migrate.
  apply only_if; [apply open_runMigrations|].
  apply only_if; [|apply open_runMigrations].
  apply only_bind; [apply only_db_query, open_query|intros _].
  apply only_try_catch.
  - apply only_bind; [apply open_runMigrations|intros _; apply only_db_query, open_query].
  - intros err.
    apply only_bind; [apply only_emit, open_log|intros _].
    apply only_bind; [apply only_db_query, open_query|intros _; apply only_throw].
Qed.

Lemma open_loadMigrations : only P (loadMigrations w options).
Proof.
  unfold loadMigrations.
  apply only_try_catch; [|intros; apply only_throw].
  apply only_bind.
  - unfold Migration.loadMigrationFiles.
    apply only_bind; [apply only_fs_readdir, HP; discriminate|intros dirContent].
    apply only_bind.
    + apply only_all. intros m Hm. apply in_map_iff in Hm. destruct Hm as (x & <- & _).
      apply only_bind; [apply only_lift|intros; apply only_ret].
    + intros stats. apply only_bind; [apply only_lift|intros; apply only_ret].
  - intros files. apply only_all. intros m Hm. apply in_map_iff in Hm.
    destruct Hm as (x & <- & _).
    apply only_bind; [|intros; apply only_ret].
    apply only_if; [apply only_ret|apply only_lift].
Qed.

Lemma open_check_select_and_migrate (migrations : list Migration.t)
      (runNames : list string) :
  only P (check_select_and_migrate w options migrations runNames).
Proof.
  unfold check_select_and_migrate.
  apply only_bind; [apply only_if; [apply only_lift|apply only_ret]|intros _].
  apply only_bind; [apply only_lift|intros [|m toRun]].
  - apply only_bind; [apply only_emit, open_log|intros; apply only_ret].
  - apply only_bind; [apply only_emit, open_log|intros _].
    apply only_bind; [apply only_log_all, open_log|intros _].
    apply only_bind; [apply open_migrate|intros; apply only_ret].
Qed.

Lemma open_load_and_migrate : only P (load_and_migrate w options).
Proof.
  unfold load_and_migrate.
  apply only_bind.
  - apply only_all2; [apply open_loadMigrations|].
    unfold getRunMigrations. apply only_db_column, HP. discriminate.
  - intros [migrations runNames]. apply open_check_select_and_migrate.
Qed.

End RunnerKeepsOpen.

Section RunnerMoreFacts.
Import Utils Operations Types World Async.
Import MigrationBuilder Footprint Runner.

Variable w : World.t.
Variable options : RunnerOption.t.

(** X17. Whatever happens, a failed connection included, the runner
    connects first and closes the connection exactly once, as the last
    thing it does. *)
Theorem runner_closes_the_connection_once_and_last :
  forall tr : Trace,
  exists s : list Event,
    fst (runner w options tr) = (tr ++ EvConnect :: s ++ [EvClose])%list
    /\ Forall not_close s.
Proof.
  intros tr. unfold runner, finally. rewrite runner_steps.
  unfold bind at 1. unfold createConnection.
  destruct (connect w tr) as [e|].
  - exists []. cbn. rewrite <- app_assoc. split; [reflexivity|constructor].
  - assert (Hrest : only not_close
                      (bind (RunnerSteps.prepare w options)
                            (fun _ => bind (RunnerSteps.lock_unless_noLock w options)
                                           (fun _ => load_and_migrate w options)))).
    { apply only_bind; [apply only_prepare; unfold not_close; intros; discriminate|intros _].
      apply only_bind;
        [apply only_lock_unless_noLock; unfold not_close; intros; discriminate|intros _].
      apply open_load_and_migrate. intros ev H. exact H. }
    destruct (Hrest (tr ++ [EvConnect])%list) as (s & Hs & Ps).
    destruct (bind _ _ (tr ++ [EvConnect])%list) as [t r]. cbn [fst] in Hs. subst t.
    exists s. cbn. rewrite <- !app_assoc. split; [reflexivity|exact Ps].
Qed.

(** X18. The advisory lock is judged by the presence of a row alone:
    with no row the runner fails with [Another migration is already
    running], loads nothing and closes; with a row, whatever it holds,
    the setup succeeds. *)
Theorem lock_is_judged_by_the_presence_of_a_row :
  forall (tr t1 : Trace),
    RunnerSteps.connect_and_ensure w options tr = (t1, inr tt) ->
    RunnerOption.noLock options = false ->
    (select w t1 lock_query = inr [] ->
     runner w options tr
     = ((t1 ++ [EvSelect lock_query; EvClose])%list,
        inl (mkError "Another migration is already running")))
    /\ (forall row rows, select w t1 lock_query = inr (row :: rows) ->
        setup w options tr = ((t1 ++ [EvSelect lock_query])%list, inr tt)).
Proof.
  intros tr t1 Hc Hlock. split.
  - intros Hsel. unfold runner, finally.
    rewrite (bind_cong_at _ _ _ tr (setup_steps w options tr)).
    rewrite bind_assoc_at. unfold bind at 1. rewrite Hc.
    unfold RunnerSteps.lock_unless_noLock. rewrite Hlock. cbn [negb].
    unfold lock, bind, db_select. rewrite Hsel. cbn.
    rewrite <- app_assoc. reflexivity.
  - intros row rows Hsel. rewrite setup_steps. unfold bind at 1. rewrite Hc.
    unfold RunnerSteps.lock_unless_noLock. rewrite Hlock. cbn [negb].
    unfold lock, bind, db_select. rewrite Hsel. reflexivity.
Qed.

Lemma tables_query_is_not_the_lock :
  EvSelect (select_tables_query options) <> EvSelect lock_query.
Proof.
  intros H. injection H as H. unfold select_tables_query, lock_query in H.
  cbn [append] in H. discriminate.
Qed.

Lemma constraints_query_is_not_the_lock :
  EvSelect (select_constraints_query options) <> EvSelect lock_query.
Proof.
  intros H. injection H as H. unfold select_constraints_query, lock_query in H.
  cbn [append] in H. discriminate.
Qed.

(** X19. With [noLock] the setup never asks for the advisory lock. *)
Theorem noLock_setup_never_asks_for_the_lock :
  RunnerOption.noLock options = true ->
  only not_lock (setup w options).
Proof.
  intros Hno. apply only_setup; unfold not_lock.
  - discriminate.
  - apply tables_query_is_not_the_lock.
  - apply constraints_query_is_not_the_lock.
  - intros; discriminate.
  - rewrite Hno. discriminate.
Qed.

Lemma filter_none {A : Type} (p : A -> bool) (l : list A) :
  (forall x, In x l -> p x = false) -> filter p l = [].
Proof.
  induction l as [|x l IH]; intros H; [reflexivity|].
  cbn [filter]. rewrite (H x (or_introl eq_refl)).
  apply IH. intros y Hy. apply H. right. exact Hy.
Qed.

Lemma not_in_spec (x : string) (l : list string) :
  not_in x l = true <-> ~ In x l.
Proof.
  unfold not_in. rewrite negb_true_iff. split.
  - intros H Hin. assert (Hex : existsb (String.eqb x) l = true).
    { apply existsb_exists. exists x. split; [exact Hin|apply String.eqb_refl]. }
    congruence.
  - intros H. destruct (existsb (String.eqb x) l) eqn:E; [|reflexivity].
    apply existsb_exists in E. destruct E as (y & Hy & Exy).
    apply String.eqb_eq in Exy. subst y. contradiction.
Qed.

Lemma in_firstn {A : Type} (n : nat) (l : list A) (x : A) :
  In x (firstn n l) -> In x l.
Proof.
  revert l. induction n as [|n IH]; intros [|y l] H; cbn [firstn] in H; try destruct H.
  - left. assumption.
  - right. apply IH. assumption.
Qed.

Lemma slice_to_nil {A : Type} (n : number) : slice_to n (@nil A) = [].
Proof. destruct n as [z|]; [|reflexivity]. unfold slice_to. apply firstn_nil. Qed.

Lemma slice_to_abs {A : Type} (c : Z) (l : list A) :
  slice_to (Math_abs (Int c)) l = firstn (Z.to_nat (Z.abs c)) l.
Proof.
  cbn [Math_abs slice_to].
  destruct (Z.le_ge_cases (Z.abs c) (Z.of_nat (List.length l))) as [H|H].
  - rewrite Z.min_l by exact H. reflexivity.
  - rewrite Z.min_r by lia. rewrite Nat2Z.id.
    rewrite firstn_all. symmetry. apply firstn_all2. lia.
Qed.

(** X20. Direction up when every loaded file is recorded already:
    nothing is selected, the runner says so and returns the empty
    list, and no statement is sent; running up again changes nothing. *)
Theorem up_with_everything_recorded_runs_nothing :
  forall (migrations : list Migration.t) (runNames : list string) (tr : Trace),
    RunnerOption.direction options = Up ->
    (forall m, In m migrations -> In (Migration.name m) runNames) ->
    (RunnerOption.checkOrder options = true -> checkOrder runNames migrations = inr tt) ->
    getMigrationsToRun options runNames migrations = inr []
    /\ check_select_and_migrate w options migrations runNames tr
       = ((tr ++ [EvLog "No migrations to run!"])%list, inr []).
Proof.
  intros migrations runNames tr Hup Hall Hcheck.
  assert (Hsel : getMigrationsToRun options runNames migrations = inr []).
  { unfold getMigrationsToRun. rewrite Hup.
    rewrite (filter_none _ migrations).
    - rewrite slice_to_nil. destruct (RunnerOption.timestamp options); reflexivity.
    - intros m Hm. apply andb_false_iff. left.
      destruct (not_in (Migration.name m) runNames) eqn:E; [|reflexivity].
      apply not_in_spec in E. contradiction (E (Hall m Hm)). }
  split; [exact Hsel|].
  unfold check_select_and_migrate.
  assert (Hc : (if RunnerOption.checkOrder options
                then lift (checkOrder runNames migrations) else ret tt) tr = (tr, inr tt)).
  { destruct (RunnerOption.checkOrder options); [|reflexivity].
    unfold lift. rewrite Hcheck; reflexivity. }
  unfold bind at 1. rewrite Hc. unfold bind at 1. unfold lift. rewrite Hsel.
  reflexivity.
Qed.

(** X21. Direction up never selects a recorded migration: whatever the
    count, the timestamp and the file options, every selected migration
    is a loaded file whose name is not in the history. Without a
    timestamp, the selection is the beginning of the pending files, in
    file order: the first [|count|] of them, a negative count included,
    and all of them when the count is absent or infinite. *)
Theorem up_selects_pending_files_only :
  forall (migrations : list Migration.t) (runNames : list string),
    RunnerOption.direction options = Up ->
    exists toRun : list Migration.t,
      getMigrationsToRun options runNames migrations = inr toRun
      /\ (forall m, In m toRun ->
                    In m migrations /\ ~ In (Migration.name m) runNames
                    /\ file_matches options (Migration.name m) = true)
      /\ (RunnerOption.timestamp options = false ->
          (forall c, RunnerOption.count options = Some (Int c) ->
                     toRun = firstn (Z.to_nat (Z.abs c))
                                    (RunnerSteps.upMigrations options runNames migrations))
          /\ (RunnerOption.count options = None
              \/ RunnerOption.count options = Some Infinity ->
              toRun = RunnerSteps.upMigrations options runNames migrations)).
Proof.
  intros migrations runNames Hup.
  unfold getMigrationsToRun. rewrite Hup.
  fold (RunnerSteps.upMigrations options runNames migrations).
  set (pending := RunnerSteps.upMigrations options runNames migrations).
  assert (Hpending : forall m, In m pending ->
                               In m migrations /\ ~ In (Migration.name m) runNames
                               /\ file_matches options (Migration.name m) = true).
  { intros m Hm. unfold pending, RunnerSteps.upMigrations in Hm.
    apply filter_In in Hm. destruct Hm as (Hin & Hp).
    apply andb_prop in Hp. destruct Hp as (Hn & Hf).
    apply not_in_spec in Hn. auto. }
  eexists. split; [reflexivity|]. split.
  - intros m Hm. apply Hpending.
    destruct (RunnerOption.timestamp options).
    + apply filter_In in Hm. apply Hm.
    + unfold count_or in Hm. destruct (RunnerOption.count options) as [[c|]|].
      * rewrite slice_to_abs in Hm. apply in_firstn in Hm. exact Hm.
      * exact Hm.
      * exact Hm.
  - intros Hts. rewrite Hts. unfold count_or. split.
    + intros c Hc. rewrite Hc. apply slice_to_abs.
    + intros [Hc|Hc]; rewrite Hc; reflexivity.
Qed.

(** X22. A failing call makes [ensureMigrationsTable] fail, whichever
    call it is: the existence check, the statement that creates the
    table when the check finds other than one row, the constraint
    check, or the statement that adds the primary key when that check
    finds other than one row. Nothing is sent after the failing call,
    and the outcome is a new error whose message reads [Unable to
    ensure migrations table: ] followed by the stack of the cause. *)
Theorem ensureMigrationsTable_wraps_every_failure :
  forall (tr : Trace) (cause : Error),
    let wrapped := mkError ("Unable to ensure migrations table: " ++ stack cause) in
    let exists_query := select_tables_query options in
    let constraint_query := select_constraints_query options in
    let create := "CREATE TABLE " ++ fullTableName w options ++ " ( " ++ idColumn
                    ++ " SERIAL PRIMARY KEY, " ++ nameColumn
                    ++ " varchar(255) NOT NULL, " ++ runOnColumn
                    ++ " timestamp NOT NULL)" in
    let alter := "ALTER TABLE " ++ fullTableName w options ++ " ADD PRIMARY KEY ("
                   ++ idColumn ++ ")" in
    let t1 := (tr ++ [EvSelect exists_query])%list in
    let t2 := (t1 ++ [EvSelect constraint_query])%list in
    (select w tr exists_query = inl cause ->
     ensureMigrationsTable w options tr = (t1, inl wrapped))
    /\ (forall tables,
           select w tr exists_query = inr tables ->
           List.length tables <> 1 ->
           query w t1 create = Some cause ->
           ensureMigrationsTable w options tr = ((t1 ++ [EvQuery create])%list, inl wrapped))
    /\ (forall tables,
           select w tr exists_query = inr tables ->
           List.length tables = 1 ->
           select w t1 constraint_query = inl cause ->
           ensureMigrationsTable w options tr = (t2, inl wrapped))
    /\ (forall tables constraints,
           select w tr exists_query = inr tables ->
           List.length tables = 1 ->
           select w t1 constraint_query = inr constraints ->
           List.length constraints <> 1 ->
           query w t2 alter = Some cause ->
           ensureMigrationsTable w options tr = ((t2 ++ [EvQuery alter])%list, inl wrapped)).
Proof.
  intros tr cause wrapped exists_query constraint_query create alter t1 t2.
  unfold ensureMigrationsTable, try_catch, bind, db_select, db_query, throw.
  fold exists_query. fold constraint_query. fold t1.
  split; [|split; [|split]].
  - intros H. rewrite H. reflexivity.
  - intros tables H Hlen Hq. rewrite H.
    apply Nat.eqb_neq in Hlen. rewrite Hlen.
    fold create. rewrite Hq. reflexivity.
  - intros tables H Hlen Hc. rewrite H.
    apply Nat.eqb_eq in Hlen. rewrite Hlen, Hc. reflexivity.
  - intros tables constraints H Hlen Hc Hlen2 Hq. rewrite H.
    apply Nat.eqb_eq in Hlen. rewrite Hlen, Hc.
    apply Nat.eqb_neq in Hlen2. rewrite Hlen2. cbn [negb].
    fold t2. fold alter. rewrite Hq. reflexivity.
Qed.

Lemma only_weaken {A : Type} (P Q : Event -> Prop) (m : M A) :
  (forall ev, P ev -> Q ev) -> only P m -> only Q m.
Proof.
  intros HPQ Hm tr. destruct (Hm tr) as (s & Hs & Ps). exists s.
  split; [exact Hs|]. apply Forall_impl with (P := P); assumption.
Qed.

Lemma markAsRun_footprint (m : Migration.t) (direction : MigrationDirection) :
  only (is_log_or_mark options [m]) (Migration.markAsRun w options m direction).
Proof.
  intros tr. unfold Migration.markAsRun.
  pose proof (_getAction_reads m direction) as (_ & Hname & _).
  destruct (Migration._getAction m direction) as [m' [e|action]]; cbn [fst] in Hname.
  - exists []. cbn. rewrite app_nil_r. split; [reflexivity|constructor].
  - assert (Hdel : Migration.delete_statement options m'
                   = Migration.delete_statement options m)
      by (unfold Migration.delete_statement; rewrite Hname; reflexivity).
    assert (Hins : Migration.insert_statement options m'
                   = Migration.insert_statement options m)
      by (unfold Migration.insert_statement; rewrite Hname; reflexivity).
    unfold bind at 1. unfold lift. cbv beta iota.
    unfold Migration._getMarkAsRun.
    destruct (strict_eq (Fn action) (Migration.down m'));
      [|destruct (strict_eq (Fn action) (Migration.up m'))].
    + exists [EvLog ("### MIGRATION " ++ Migration.name m' ++ " (DOWN) ###");
              EvQuery (Migration.delete_statement options m)].
      split.
      * unfold bind, lift, log, emit, ret, db_query. cbv beta iota. rewrite Hdel.
        destruct (query w _ _); cbn [fst]; rewrite <- app_assoc; reflexivity.
      * constructor; [left; exact I|]. constructor; [|constructor].
        right. exists m. split; [left; reflexivity|]. right. reflexivity.
    + exists [EvLog ("### MIGRATION " ++ Migration.name m' ++ " (UP) ###");
              EvQuery (Migration.insert_statement options m)].
      split.
      * unfold bind, lift, log, emit, ret, db_query. cbv beta iota. rewrite Hins.
        destruct (query w _ _); cbn [fst]; rewrite <- app_assoc; reflexivity.
      * constructor; [left; exact I|]. constructor; [|constructor].
        right. exists m. split; [left; reflexivity|]. left. reflexivity.
    + exists []. cbn. rewrite app_nil_r. split; [reflexivity|constructor].
Qed.

Lemma is_log_or_mark_incl (l1 l2 : list Migration.t) (ev : Event) :
  incl l1 l2 -> is_log_or_mark options l1 ev -> is_log_or_mark options l2 ev.
Proof.
  intros Hincl [H|(m & Hm & H)]; [left; exact H|].
  right. exists m. split; [apply Hincl; exact Hm|exact H].
Qed.

Lemma runMigrations_marks_only (toRun : list Migration.t)
      (direction : MigrationDirection) :
  only (is_log_or_mark options toRun)
       (runMigrations w options toRun MarkAsRun direction).
Proof.
  induction toRun as [|m toRun IH]; cbn [runMigrations].
  - apply only_ret.
  - apply only_bind.
    + apply (only_weaken (is_log_or_mark options [m])); [|apply markAsRun_footprint].
      intros ev. apply is_log_or_mark_incl. intros x [<-|[]]. left. reflexivity.
    + intros _. apply (only_weaken (is_log_or_mark options toRun)); [|exact IH].
      intros ev. apply is_log_or_mark_incl. intros x Hx. right. exact Hx.
Qed.

(** A mark is neither of the statements that control a transaction. *)
Lemma mark_is_no_transaction_control (toRun : list Migration.t) (text : string) :
  text = "BEGIN" \/ text = "ROLLBACK" ->
  ~ is_log_or_mark options toRun (EvQuery text).
Proof.
  intros Htext [H|(m & _ & [H|H])]; [exact H| |];
    injection H as H; unfold Migration.insert_statement, Migration.delete_statement in H;
    cbn [append] in H; destruct Htext as [-> | ->]; discriminate H.
Qed.

(** X23. A fake run sends nothing but the marks: besides log lines,
    every statement is the INSERT or the DELETE of the history row of
    one of the migrations to run. No body is run and, single
    transaction or not, no transaction is opened. *)
Theorem fake_run_sends_the_marks_only :
  forall toRun : list Migration.t,
    RunnerOption.fake options = true ->
    only (is_log_or_mark options toRun) (migrate w options toRun).
Proof.
  intros toRun Hfake. unfold migrate. rewrite Hfake.
  apply runMigrations_marks_only.
Qed.

Lemma only_runMigrations_dry (P : Event -> Prop) (toRun : list Migration.t)
      (direction : MigrationDirection) :
  (forall line, P (EvLog line)) ->
  RunnerOption.dryRun options = true ->
  (forall m action,
      In m toRun ->
      snd (Migration._getAction m direction) = inr action ->
      forallb builder_only
              (fn_body action (Migration.builder_options w options)) = true) ->
  only P (runMigrations w options toRun Apply direction).
Proof.
  intros Plog Hdry. induction toRun as [|m toRun IH]; intros Hbody; cbn [runMigrations].
  - apply only_ret.
  - apply only_bind.
    + apply only_apply_dry; [exact Plog|exact Hdry|].
      intros action. apply Hbody. left. reflexivity.
    + intros _. apply IH. intros m' action Hm'. apply Hbody. right. exact Hm'.
Qed.

(** X24. A dry run of migrations whose actions stay within the builder
    sends no statement of any migration and no mark: it only logs.
    What still reaches the database in single-transaction mode is the
    runner's own BEGIN, COMMIT and ROLLBACK. *)
Theorem dry_run_sends_no_migration_statement :
  forall toRun : list Migration.t,
    RunnerOption.dryRun options = true ->
    RunnerOption.fake options = false ->
    (forall m action,
        In m toRun ->
        snd (Migration._getAction m (RunnerOption.direction options)) = inr action ->
        forallb builder_only
                (fn_body action (Migration.builder_options w options)) = true) ->
    only (is_log_or_transaction_control (RunnerOption.singleTransaction options))
         (migrate w options toRun).
Proof.
  intros toRun Hdry Hfake Hbody. unfold migrate. rewrite Hfake.
  assert (Hrun : forall single,
             only (is_log_or_transaction_control single)
                  (runMigrations w options toRun Apply (RunnerOption.direction options))).
  { intros single. apply only_runMigrations_dry; [|exact Hdry|exact Hbody].
    intros line. left. exact I. }
  destruct (RunnerOption.singleTransaction options); [|apply Hrun].
  assert (Hctl : forall text, In (EvQuery text)
                                 [EvQuery "BEGIN"; EvQuery "COMMIT"; EvQuery "ROLLBACK"] ->
                              is_log_or_transaction_control true (EvQuery text)).
  { intros text H. right. split; [reflexivity|exact H]. }
  apply only_bind; [apply only_db_query, Hctl; cbn; auto|intros _].
  apply only_try_catch.
  - apply only_bind; [apply Hrun|intros _; apply only_db_query, Hctl; cbn; auto].
  - intros err.
    apply only_bind; [apply only_emit; left; exact I|intros _].
    apply only_bind; [apply only_db_query, Hctl; cbn; auto|intros _; apply only_throw].
Qed.

(** X25. Without decamelization, and unless [migrationsSchema] is the
    empty string, the marks address the very table that
    [ensureMigrationsTable] creates and [getRunMigrations] reads: the
    schema-qualified, quoted name of the history table, whose schema
    is never empty. *)
Theorem marks_address_the_ensured_table :
  forall m : Migration.t,
    RunnerOption.decamelize options = false ->
    RunnerOption.migrationsSchema options <> Some EmptyString ->
    Migration.getMigrationTableSchema options <> EmptyString
    /\ fullTableName w options
       = quote (Migration.getMigrationTableSchema options) ++ "."
           ++ quote (RunnerOption.migrationsTable options)
    /\ Migration.insert_statement options m
       = "INSERT INTO " ++ fullTableName w options
           ++ " (name, run_on) VALUES ('" ++ Migration.name m ++ "', NOW());"
    /\ Migration.delete_statement options m
       = "DELETE FROM " ++ fullTableName w options
           ++ " WHERE name='" ++ Migration.name m ++ "';".
Proof.
  intros m Hdec Hschema.
  assert (Hne : Migration.getMigrationTableSchema options <> EmptyString).
  { unfold Migration.getMigrationTableSchema.
    destruct (RunnerOption.migrationsSchema options) as [s|].
    - intros ->. apply Hschema. reflexivity.
    - unfold getSchemas.
      destruct (filter _ _) as [|s l] eqn:E; cbn [hd]; [discriminate|].
      assert (Hs : In s (s :: l)) by (left; reflexivity).
      rewrite <- E in Hs. apply filter_In in Hs. destruct Hs as (_ & Hs).
      apply negb_true_iff, String.eqb_neq in Hs. exact Hs. }
  assert (Hfull : fullTableName w options
                  = quote (Migration.getMigrationTableSchema options) ++ "."
                      ++ quote (RunnerOption.migrationsTable options)).
  { unfold fullTableName, createSchemalize, transform. rewrite Hdec.
    cbn [truthy_str]. apply String.eqb_neq in Hne. rewrite Hne. cbn [negb].
    cbv beta. rewrite append_assoc. reflexivity. }
  split; [exact Hne|]. split; [exact Hfull|].
  rewrite Hfull. unfold Migration.insert_statement, Migration.delete_statement, quote.
  split; rewrite !append_assoc; reflexivity.
Qed.

(** X26. Single-transaction mode, at its two ends. When [BEGIN] itself
    fails the runner stops there: no migration is applied and no
    [ROLLBACK] is sent. When every migration went through and [COMMIT]
    succeeds, it is the last statement; when [COMMIT] fails, the
    roll-back is logged and [ROLLBACK] sent, and the outcome is the
    error of [COMMIT], unless [ROLLBACK] fails too. *)
Theorem single_transaction_begin_and_commit_failures :
  forall (toRun : list Migration.t) (tr : Trace) (e : Error),
    RunnerOption.fake options = false ->
    RunnerOption.singleTransaction options = true ->
    (query w tr "BEGIN" = Some e ->
     migrate w options toRun tr = ((tr ++ [EvQuery "BEGIN"])%list, inl e))
    /\ (forall t2 : Trace,
           query w tr "BEGIN" = None ->
           runMigrations w options toRun Apply (RunnerOption.direction options)
                         (tr ++ [EvQuery "BEGIN"])%list
           = (t2, inr tt) ->
           (query w t2 "COMMIT" = None ->
            migrate w options toRun tr = ((t2 ++ [EvQuery "COMMIT"])%list, inr tt))
           /\ (query w t2 "COMMIT" = Some e ->
               let logged :=
                 (t2 ++ [EvQuery "COMMIT";
                         EvLog "> Rolling back attempted migration ..."])%list in
               migrate w options toRun tr
               = ((logged ++ [EvQuery "ROLLBACK"])%list,
                  inl (match query w logged "ROLLBACK" with
                       | Some rollback_error => rollback_error
                       | None => e
                       end)))).
Proof.
  intros toRun tr e Hfake Hsingle. unfold migrate. rewrite Hfake, Hsingle. split.
  - intros Hbegin. unfold bind at 1. unfold db_query at 1. rewrite Hbegin. reflexivity.
  - intros t2 Hbegin Hrun.
    assert (Hb : db_query w "BEGIN" tr = ((tr ++ [EvQuery "BEGIN"])%list, inr tt))
      by (unfold db_query; rewrite Hbegin; reflexivity).
    rewrite (bind_inr _ _ _ _ _ Hb). unfold try_catch.
    rewrite (bind_inr _ _ _ _ _ Hrun). split.
    + intros Hcommit. unfold db_query. rewrite Hcommit. reflexivity.
    + intros Hcommit. cbv zeta. unfold db_query at 1. rewrite Hcommit.
      unfold bind, log, emit, db_query, throw.
      rewrite <- !app_assoc. cbn [app].
      destruct (query w _ "ROLLBACK"); reflexivity.
Qed.

End RunnerMoreFacts.

(* ================================================================= *)
(** ** The further properties on concrete inputs *)

Section FurtherExamples.
Import Utils UtilsMore Operations Types World Async.
Import MigrationBuilder Footprint Runner Examples MoreExamples.

Lemma escapeValue_array_of_plain_scalars_witness :
  exists parts : list Escaped,
    Forall2 (fun v e => escapeValue v = Some e) scalars parts
    /\ escapeValue (VArray scalars)
       = Some (EscString ("ARRAY[" ++ join "," (map escaped_to_string parts) ++ "]")).
Proof.
  apply (escapeValue_array_of_plain_scalars scalars).
  unfold scalars.
  repeat (apply Forall_cons; [|]); try apply Forall_nil; cbn [plain_scalar];
    first [ exact I
          | right; right; right; split; [discriminate|reflexivity]
          | left; reflexivity ].
Defined.

Lemma escapeValue_nested_arrays_keep_one_keyword_witness :
  exists partss : list (list Escaped),
    Forall2 (Forall2 (fun v e => escapeValue v = Some e)) rows_of_scalars partss
    /\ escapeValue (VArray (map VArray rows_of_scalars))
       = Some (EscString
                 ("ARRAY["
                    ++ join "," (map (fun parts =>
                                        "[" ++ join "," (map escaped_to_string parts) ++ "]")
                                     partss)
                    ++ "]")).
Proof.
  apply (escapeValue_nested_arrays_keep_one_keyword rows_of_scalars).
  unfold rows_of_scalars.
  repeat (apply Forall_cons; [|]); try apply Forall_nil; cbn [plain_scalar];
    first [ exact I
          | right; right; right; split; [discriminate|reflexivity]
          | right; left; reflexivity ].
Defined.


Lemma forward_mode_accumulates_in_call_order_witness :
  let calls := reversible_calls mOptions in
  let steps := (_steps new ++ flat_map (fun c => statements (forward_result c)) calls)%list in
  Migration.run_body world_auto (map Call calls) new [] = ([], inr (set_steps new steps))
  /\ getSqlSteps (set_steps new steps) = steps
  /\ _REVERSE_MODE new = false.
Proof.
  apply (forward_mode_accumulates_in_call_order world_auto (reversible_calls mOptions) new []).
  reflexivity.
Defined.

Lemma run_body_changes_the_builder_by_its_calls_only_witness :
  isUsingTransaction pgm_after_no_transaction
  = isUsingTransaction new
    && negb (existsb is_noTransaction (fn_body up_no_transaction mOptions))
  /\ _REVERSE_MODE pgm_after_no_transaction
     = _REVERSE_MODE new
       || existsb is_enableReverseMode (fn_body up_no_transaction mOptions)
  /\ (existsb is_write (fn_body up_no_transaction mOptions) = false ->
      is_prefix (_steps new) (_steps pgm_after_no_transaction)).
Proof.
  apply (run_body_changes_the_builder_by_its_calls_only
           world_auto (fn_body up_no_transaction mOptions)
           new pgm_after_no_transaction [] []).
  reflexivity.
Defined.

Lemma reverse_mode_closes_the_side_channel_witness :
  Migration.run_body world_auto
                     (map Call [call_createSchema mOptions]
                        ++ CallDbQuery "SELECT 1" :: [CallNoTransaction])%list
                     (enableReverseMode new) []
  = ([], inl (mkError "Impossible to automatically infer down migration")).
Proof.
  apply (reverse_mode_closes_the_side_channel
           world_auto [call_createSchema mOptions] (CallDbQuery "SELECT 1")
           [CallNoTransaction] "SELECT 1" (enableReverseMode new) []).
  - reflexivity.
  - intros oc [<-|[]]. reflexivity.
  - left. reflexivity.
Defined.

Lemma resolved_action_is_marked_by_direction_witness :
  Migration._getMarkAsRun options_up m_A up_schema []
  = ([EvLog "### MIGRATION 1000_A (UP) ###"],
     inr ("INSERT INTO " ++ quote "public" ++ "." ++ quote "pgmigrations"
            ++ " (name, run_on) VALUES ('1000_A', NOW());"))
  /\ Migration._getMarkAsRun options_up m_same up_schema []
     = ([EvLog "### MIGRATION 1500_same (DOWN) ###"],
        inr ("DELETE FROM " ++ quote "public" ++ "." ++ quote "pgmigrations"
               ++ " WHERE name='1500_same';"))
  /\ Migration._getMarkAsRun options_down (Migration.set_down m_A (Fn up_schema))
                             up_schema []
     = ([EvLog "### MIGRATION 1000_A (DOWN) ###"],
        inr ("DELETE FROM " ++ quote "public" ++ "." ++ quote "pgmigrations"
               ++ " WHERE name='1000_A';")).
Proof.
  split; [|split].
  - rewrite (resolved_action_is_marked_by_direction
               options_up m_A m_A Up up_schema [] eq_refl).
    reflexivity.
  - rewrite (resolved_action_is_marked_by_direction
               options_up m_same m_same Up up_schema [] eq_refl).
    reflexivity.
  - rewrite (resolved_action_is_marked_by_direction
               options_down m_A (Migration.set_down m_A (Fn up_schema)) Down up_schema []
               eq_refl).
    reflexivity.
Defined.

Lemma markAsRun_sends_the_mark_statement_only_witness :
  exists line mark : string,
    Migration._getMarkAsRun options_fake m_A up_schema [] = ([EvLog line], inr mark)
    /\ (mark = Migration.delete_statement options_fake m_A
        \/ mark = Migration.insert_statement options_fake m_A)
    /\ Migration.markAsRun world_fresh options_fake m_A Up []
       = ([EvLog line; EvQuery mark],
          match query world_fresh [EvLog line] mark with
          | Some e => inl e
          | None => inr m_A
          end).
Proof.
  apply (markAsRun_sends_the_mark_statement_only
           world_fresh options_fake m_A m_A Up up_schema []).
  reflexivity.
Defined.


Lemma loadMigrationFiles_returns_sorted_regular_files_witness :
  let kept := fun f : string =>
                true && negb (String.eqb f EmptyString)
                && match @None string with
                   | Some _ => negb false
                   | None => true
                   end in
  exists files : list string,
    Migration.loadMigrationFiles world_unsorted "migrations" None []
    = (([] ++ [EvReaddir ("migrations" ++ "/")])%list, inr files)
    /\ StronglySorted (fun a b => String.leb a b = true) files
    /\ Permutation files (filter kept (map file_name [file_of m_C; file_of m_A; file_of m_B]))
    /\ (forall f, In f files <->
                  In f (map file_name [file_of m_C; file_of m_A; file_of m_B])
                  /\ kept f = true).
Proof.
  apply (loadMigrationFiles_returns_sorted_regular_files
           world_unsorted "migrations" None
           (map file_name [file_of m_C; file_of m_A; file_of m_B])
           (fun _ => true) (fun _ => false) []).
  - reflexivity.
  - intros f _. reflexivity.
  - reflexivity.
Defined.

Lemma loadMigrationFiles_fails_when_an_entry_cannot_be_examined_witness :
  exists e' : Error,
    Migration.loadMigrationFiles world_unreadable_entry "migrations" (Some "2000_B.*") []
    = (([] ++ [EvReaddir ("migrations" ++ "/")])%list, inl e').
Proof.
  apply (loadMigrationFiles_fails_when_an_entry_cannot_be_examined
           world_unreadable_entry "migrations" (Some "2000_B.*")
           (map file_name files_ABC) "2000_B.js"
           (mkError "EACCES: permission denied") []).
  - reflexivity.
  - right. left. reflexivity.
  - reflexivity.
Defined.

Lemma lock_is_judged_by_the_presence_of_a_row_witness :
  (select world_no_lock_row trace_before_lock lock_query = inr [] ->
   runner world_no_lock_row options_up []
   = ((trace_before_lock ++ [EvSelect lock_query; EvClose])%list,
      inl (mkError "Another migration is already running")))
  /\ (forall row rows,
         select world_no_lock_row trace_before_lock lock_query = inr (row :: rows) ->
         setup world_no_lock_row options_up []
         = ((trace_before_lock ++ [EvSelect lock_query])%list, inr tt)).
Proof.
  apply (lock_is_judged_by_the_presence_of_a_row
           world_no_lock_row options_up [] trace_before_lock).
  - reflexivity.
  - reflexivity.
Defined.

Lemma noLock_setup_never_asks_for_the_lock_witness :
  only not_lock (setup world_fresh options_noLock).
Proof.
  apply (noLock_setup_never_asks_for_the_lock world_fresh options_noLock).
  reflexivity.
Defined.

Lemma up_with_everything_recorded_runs_nothing_witness :
  getMigrationsToRun options_up ["1000_A"; "2000_B"] [m_A; m_B] = inr []
  /\ check_select_and_migrate world_fresh options_up [m_A; m_B] ["1000_A"; "2000_B"] []
     = (([] ++ [EvLog "No migrations to run!"])%list, inr []).
Proof.
  apply (up_with_everything_recorded_runs_nothing
           world_fresh options_up [m_A; m_B] ["1000_A"; "2000_B"] []).
  - reflexivity.
  - intros m [<-|[<-|[]]]; cbn; auto.
  - intros _. reflexivity.
Defined.

Lemma up_selects_pending_files_only_witness :
  let options := with_direction options_up Up (Some (Int (-1))) false in
  exists toRun : list Migration.t,
    getMigrationsToRun options ["1000_A"] [m_A; m_B; m_C] = inr toRun
    /\ (forall m, In m toRun ->
                  In m [m_A; m_B; m_C] /\ ~ In (Migration.name m) ["1000_A"]
                  /\ file_matches options (Migration.name m) = true)
    /\ (RunnerOption.timestamp options = false ->
        (forall c, RunnerOption.count options = Some (Int c) ->
                   toRun = firstn (Z.to_nat (Z.abs c))
                                  (RunnerSteps.upMigrations options ["1000_A"]
                                                            [m_A; m_B; m_C]))
        /\ (RunnerOption.count options = None
            \/ RunnerOption.count options = Some Infinity ->
            toRun = RunnerSteps.upMigrations options ["1000_A"] [m_A; m_B; m_C])).
Proof.
  apply (up_selects_pending_files_only
           (with_direction options_up Up (Some (Int (-1))) false)
           [m_A; m_B; m_C] ["1000_A"]).
  reflexivity.
Defined.

Lemma ensureMigrationsTable_wraps_every_failure_witness :
  let create := "CREATE TABLE " ++ quote "public" ++ "." ++ quote "pgmigrations"
                  ++ " ( id SERIAL PRIMARY KEY, name varchar(255) NOT NULL, "
                  ++ "run_on timestamp NOT NULL)" in
  select world_denied [] (select_tables_query options_up) = inr []
  /\ query world_denied [EvSelect (select_tables_query options_up)] create
     = Some permission_denied
  /\ ensureMigrationsTable world_denied options_up []
     = ([EvSelect (select_tables_query options_up); EvQuery create],
        inl (mkError ("Unable to ensure migrations table: "
                        ++ "error: permission denied for schema public" ++ nl
                        ++ "    at Parser.parseErrorMessage (pg-protocol/dist/parser.js:287:98)"))).
Proof.
  intros create.
  split; [reflexivity|]. split; [reflexivity|].
  destruct (ensureMigrationsTable_wraps_every_failure
              world_denied options_up [] permission_denied) as (_ & Hcreate & _).
  rewrite (Hcreate [] eq_refl); [reflexivity|discriminate|reflexivity].
Defined.

Lemma fake_run_sends_the_marks_only_witness :
  only (is_log_or_mark options_fake [m_A; m_B])
       (migrate world_fresh options_fake [m_A; m_B]).
Proof.
  apply (fake_run_sends_the_marks_only world_fresh options_fake [m_A; m_B]).
  reflexivity.
Defined.

Lemma dry_run_sends_no_migration_statement_witness :
  only (is_log_or_transaction_control (RunnerOption.singleTransaction options_dry_single))
       (migrate world_fresh options_dry_single [m_A; m_B]).
Proof.
  apply (dry_run_sends_no_migration_statement world_fresh options_dry_single [m_A; m_B]).
  - reflexivity.
  - reflexivity.
  - intros m action [<-|[<-|[]]] H; injection H as <-; reflexivity.
Defined.

Lemma marks_address_the_ensured_table_witness :
  Migration.getMigrationTableSchema options_up <> EmptyString
  /\ fullTableName world_fresh options_up
     = quote (Migration.getMigrationTableSchema options_up) ++ "."
         ++ quote (RunnerOption.migrationsTable options_up)
  /\ Migration.insert_statement options_up m_A
     = "INSERT INTO " ++ fullTableName world_fresh options_up
         ++ " (name, run_on) VALUES ('" ++ Migration.name m_A ++ "', NOW());"
  /\ Migration.delete_statement options_up m_A
     = "DELETE FROM " ++ fullTableName world_fresh options_up
         ++ " WHERE name='" ++ Migration.name m_A ++ "';".
Proof.
  apply (marks_address_the_ensured_table world_fresh options_up m_A).
  - reflexivity.
  - discriminate.
Defined.

Lemma single_transaction_begin_and_commit_failures_witness :
  let e := mkError ("syntax error in " ++ "COMMIT") in
  (query world_commit_fails [] "BEGIN" = Some e ->
   migrate world_commit_fails options_single [m_A] []
   = (([] ++ [EvQuery "BEGIN"])%list, inl e))
  /\ (forall t2 : Trace,
         query world_commit_fails [] "BEGIN" = None ->
         runMigrations world_commit_fails options_single [m_A] Apply
                       (RunnerOption.direction options_single)
                       ([] ++ [EvQuery "BEGIN"])%list
         = (t2, inr tt) ->
         (query world_commit_fails t2 "COMMIT" = None ->
          migrate world_commit_fails options_single [m_A] []
          = ((t2 ++ [EvQuery "COMMIT"])%list, inr tt))
         /\ (query world_commit_fails t2 "COMMIT" = Some e ->
             let logged :=
               (t2 ++ [EvQuery "COMMIT";
                       EvLog "> Rolling back attempted migration ..."])%list in
             migrate world_commit_fails options_single [m_A] []
             = ((logged ++ [EvQuery "ROLLBACK"])%list,
                inl (match query world_commit_fails logged "ROLLBACK" with
                     | Some rollback_error => rollback_error
                     | None => e
                     end)))).
Proof.
  apply (single_transaction_begin_and_commit_failures
           world_commit_fails options_single [m_A] []
           (mkError ("syntax error in " ++ "COMMIT"))).
  - reflexivity.
  - reflexivity.
Defined.

End FurtherExamples.

(* ================================================================= *)
(** ** A failing batch *)

Section MigrateFailureFacts.
Import Utils Operations Types World Async.
Import Footprint Runner.

Variable w : World.t.
Variable options : RunnerOption.t.

(** C7. Some migration of the batch fails. Outside fake mode: in
    single-transaction mode the runner logs the roll-back and issues
    [ROLLBACK] before the error propagates (the error of the
    migration, unless [ROLLBACK] itself fails); in per-migration mode
    the runner issues nothing more: the failure is that of one
    migration, everything the migrations before it ran stays in the
    trace, their own commits included, and the error of the migration
    is the outcome. In fake mode, whatever the transaction mode, the
    failure of a mark statement propagates as it is, and the runner
    has sent neither [BEGIN] nor [ROLLBACK]. *)
Theorem failure_rolls_back_in_single_transaction_mode_only :
  forall (toRun : list Migration.t) (tr tr' : Trace) (e : Error),
    let direction := RunnerOption.direction options in
    (RunnerOption.fake options = false ->
     RunnerOption.singleTransaction options = true ->
     query w tr "BEGIN" = None ->
     runMigrations w options toRun Apply direction (tr ++ [EvQuery "BEGIN"])%list
     = (tr', inl e) ->
     let logged := (tr' ++ [EvLog "> Rolling back attempted migration ..."])%list in
     migrate w options toRun tr
     = ((logged ++ [EvQuery "ROLLBACK"])%list,
        inl (match query w logged "ROLLBACK" with
             | Some rollback_error => rollback_error
             | None => e
             end)))
    /\ (RunnerOption.fake options = false ->
        RunnerOption.singleTransaction options = false ->
        runMigrations w options toRun Apply direction tr = (tr', inl e) ->
        migrate w options toRun tr = (tr', inl e)
        /\ exists done m rest tr_done suffix,
            toRun = (done ++ m :: rest)%list
            /\ runMigrations w options done Apply direction tr = (tr_done, inr tt)
            /\ Migration.apply w options m direction tr_done = (tr', inl e)
            /\ tr' = (tr_done ++ suffix)%list)
    /\ (RunnerOption.fake options = true ->
        runMigrations w options toRun MarkAsRun direction tr = (tr', inl e) ->
        migrate w options toRun tr = (tr', inl e)
        /\ exists suffix,
            tr' = (tr ++ suffix)%list
            /\ ~ In (EvQuery "BEGIN") suffix
            /\ ~ In (EvQuery "ROLLBACK") suffix).
Proof.
  intros toRun tr tr' e direction. split; [|split].
  - intros Hfake Hsingle Hbegin Hfail logged.
    unfold migrate. rewrite Hfake, Hsingle.
    assert (Hb : db_query w "BEGIN" tr = ((tr ++ [EvQuery "BEGIN"])%list, inr tt))
      by (unfold db_query; rewrite Hbegin; reflexivity).
    rewrite (bind_inr _ _ _ _ _ Hb). unfold try_catch.
    rewrite (bind_inl _ _ _ _ _ Hfail).
    unfold bind, log, emit, db_query, throw. fold logged.
    destruct (query w logged "ROLLBACK"); reflexivity.
  - intros Hfake Hsingle Hfail. split.
    + unfold migrate. rewrite Hfake, Hsingle. exact Hfail.
    + destruct (runMigrations_failure_inv w options toRun direction tr tr' e Hfail)
        as (done & m & rest & tr_done & Hsplit & Hdone & Hm).
      destruct (appends_eq _ _ _ _ (appends_apply w options m direction) Hm)
        as [suffix Hsuffix].
      exists done, m, rest, tr_done, suffix. repeat split; assumption.
  - intros Hfake Hfail. split.
    + unfold migrate. rewrite Hfake. exact Hfail.
    + destruct (only_eq _ _ _ _ _ (runMigrations_marks_only w options toRun direction)
                        Hfail) as (suffix & Hsuffix & Hmarks).
      exists suffix. split; [exact Hsuffix|].
      rewrite Forall_forall in Hmarks.
      split; intros Hin.
      * apply (mark_is_no_transaction_control options toRun "BEGIN");
          [left; reflexivity|exact (Hmarks _ Hin)].
      * apply (mark_is_no_transaction_control options toRun "ROLLBACK");
          [right; reflexivity|exact (Hmarks _ Hin)].
Qed.

End MigrateFailureFacts.

Section MigrateFailureExamples.
Import Utils Operations Types World Async.
Import Runner Examples MoreExamples.

(** Migrations B then C, the statement recording C fails: in
    single-transaction mode the trace ends with [ROLLBACK]; in
    per-migration mode it ends with the failing statement, and what B
    ran, down to its [COMMIT;], is still there; in a fake run the
    trace ends with the failing mark. *)
Lemma failure_rolls_back_in_single_transaction_mode_only_witness :
  let e := mkError ("syntax error in " ++ Migration.insert_statement options_up m_C) in
  let tr1 := fst (runMigrations world_C_fails options_single [m_B; m_C] Apply Up
                                [EvQuery "BEGIN"]) in
  let tr2 := fst (runMigrations world_C_fails options_up [m_B; m_C] Apply Up []) in
  let tr_B := fst (runMigrations world_C_fails options_up [m_B] Apply Up []) in
  let tr3 := fst (runMigrations world_C_fails options_single_fake [m_B; m_C]
                                MarkAsRun Up []) in
  RunnerOption.fake options_single = false
  /\ RunnerOption.fake options_up = false
  /\ RunnerOption.fake options_single_fake = true
  /\ migrate world_C_fails options_single [m_B; m_C] []
     = ((tr1 ++ [EvLog "> Rolling back attempted migration ..."; EvQuery "ROLLBACK"])%list,
        inl e)
  /\ migrate world_C_fails options_up [m_B; m_C] [] = (tr2, inl e)
  /\ last tr_B EvClose = EvQuery "COMMIT;"
  /\ firstn (List.length tr_B) tr2 = tr_B
  /\ last tr2 EvClose = EvQuery (Migration.insert_statement options_up m_C)
  /\ migrate world_C_fails options_single_fake [m_B; m_C] [] = (tr3, inl e)
  /\ last tr3 EvClose = EvQuery (Migration.insert_statement options_up m_C).
Proof.
  intros e tr1 tr2 tr_B tr3.
  split; [reflexivity|]. split; [reflexivity|]. split; [reflexivity|].
  destruct (failure_rolls_back_in_single_transaction_mode_only
              world_C_fails options_single [m_B; m_C] [] tr1 e)
    as (Hsingle & _).
  destruct (failure_rolls_back_in_single_transaction_mode_only
              world_C_fails options_up [m_B; m_C] [] tr2 e)
    as (_ & Hper & _).
  destruct (failure_rolls_back_in_single_transaction_mode_only
              world_C_fails options_single_fake [m_B; m_C] [] tr3 e)
    as (_ & _ & Hfake).
  split.
  - etransitivity;
      [apply (Hsingle eq_refl eq_refl eq_refl); vm_compute; reflexivity
      |vm_compute; reflexivity].
  - split; [apply Hper; vm_compute; reflexivity|].
    split; [vm_compute; reflexivity|]. split; [vm_compute; reflexivity|].
    split; [vm_compute; reflexivity|].
    split; [apply Hfake; vm_compute; reflexivity|vm_compute; reflexivity].
Defined.

(** A fake run in single-transaction mode: the mark of C fails and no
    [ROLLBACK] follows. And outside fake mode the roll-back is not
    all-or-nothing: a migration that called [noTransaction] has sent
    [COMMIT;] before its statements, so that the [ROLLBACK] after the
    failure of C reaches back to the [BEGIN;] it sent last only. *)
Lemma single_transaction_failure_counterexample :
  let e := mkError ("syntax error in " ++ Migration.insert_statement options_up m_C) in
  let fake_run := migrate world_C_fails options_single_fake [m_B; m_C] [] in
  let broken := migrate world_C_fails options_single [m_no_transaction; m_C] [] in
  RunnerOption.singleTransaction options_single_fake = true
  /\ snd fake_run = inl e
  /\ ~ In (EvQuery "ROLLBACK") (fst fake_run)
  /\ RunnerOption.singleTransaction options_single = true
  /\ RunnerOption.fake options_single = false
  /\ snd broken = inl e
  /\ queries (fst broken)
     = ["BEGIN";
        "COMMIT;";
        "CREATE SCHEMA " ++ quote "s1" ++ ";";
        Migration.insert_statement options_single m_no_transaction;
        "BEGIN;";
        "CREATE SCHEMA " ++ quote "s1" ++ ";";
        Migration.insert_statement options_single m_C;
        "ROLLBACK"].
Proof.
  intros e fake_run broken.
  split; [reflexivity|]. split; [vm_compute; reflexivity|].
  split.
  - intros H. vm_compute in H.
    repeat (destruct H as [H|H]; [discriminate H|]). exact H.
  - split; [reflexivity|]. split; [reflexivity|].
    split; vm_compute; reflexivity.
Qed.

End MigrateFailureExamples.
